(** * Qonvo voice core

    A shallow embedding of the orchestration layer of Qonvo: [voice.ts],
    the error module [errors.ts] that it imports ([createVoiceError],
    [toVoiceError], [logError], [processVoiceError], ...) and the types of
    [types.ts]: the error taxonomy and pipeline, the transcript store, the
    notification registries, the recognition and synthesis session
    managers, the recognition controller and the conversation loop.

    Conventions of the embedding.
    - A JavaScript string is a [string] whose characters are code units
      below 256.
    - Timestamps and millisecond counts are integers ([Z]).
    - The module-level variables of [voice.ts] and [errors.ts] are the fields
      of one record, [State]; a function of the module is a computation of
      the monad [M], which threads the state and may throw.  A thrown
      exception keeps the state reached so far, as in JavaScript.
    - An engine is a record that says how each of its calls settles; an
      [await] of an engine call continues with that outcome, and no other
      call of the application runs in between (the conversation loop
      excepted, whose passes take the calls of [stopConversation] that
      happen during their [await]s as an input).
    - Listeners and callbacks are known by an identifier and by whether they
      return or throw; every externally visible effect ([console.error],
      a listener or callback invocation, an engine call, an abort signal, a
      timer) is appended to the [events] of the state. *)

From Stdlib Require Import List String Ascii ZArith Bool Arith Lia.
From Stdlib Require Import Permutation.
From Stdlib Require QArith.
Import ListNotations.
Local Open Scope string_scope.
Local Open Scope list_scope.

(* ================================================================== *)
(** * Strings *)
(* ================================================================== *)

Module Text.

(** The code units matched by [\s] and removed by [trim]: TAB, LF, VT, FF,
    CR, SPACE and NO-BREAK SPACE. *)
Definition isWhiteSpace (c : ascii) : bool :=
  let n := nat_of_ascii c in
  ((n =? 9) || (n =? 10) || (n =? 11) || (n =? 12) || (n =? 13)
   || (n =? 32) || (n =? 160))%nat.

(** [String.prototype.toLowerCase] on one code unit: A-Z, and the Latin-1
    capitals U+00C0..U+00DE without the multiplication sign U+00D7. *)
Definition toLowerCaseChar (c : ascii) : ascii :=
  let n := nat_of_ascii c in
  if (((65 <=? n) && (n <=? 90))
      || ((192 <=? n) && (n <=? 222) && negb (n =? 215)))%nat
  then ascii_of_nat (n + 32) else c.

Fixpoint toLowerCase (s : string) : string :=
  match s with
  | EmptyString => EmptyString
  | String c r => String (toLowerCaseChar c) (toLowerCase r)
  end.

Fixpoint trimStart (s : string) : string :=
  match s with
  | EmptyString => EmptyString
  | String c r => if isWhiteSpace c then trimStart r else s
  end.

Definition isEmpty (s : string) : bool :=
  match s with EmptyString => true | String _ _ => false end.

Fixpoint trimEnd (s : string) : string :=
  match s with
  | EmptyString => EmptyString
  | String c r =>
      let r' := trimEnd r in
      if isWhiteSpace c && isEmpty r' then EmptyString else String c r'
  end.

Definition trim (s : string) : string := trimEnd (trimStart s).

(** [s.replace(/\s+/g, ' ')]: every maximal run of white space becomes one
    space.  [inRun] says that the previous code unit was white space. *)
Fixpoint replaceRuns (inRun : bool) (s : string) : string :=
  match s with
  | EmptyString => EmptyString
  | String c r =>
      if isWhiteSpace c
      then (if inRun then replaceRuns true r
            else String " "%char (replaceRuns true r))
      else String c (replaceRuns false r)
  end.

Definition replaceWhiteSpace (s : string) : string := replaceRuns false s.

Fixpoint startsWith (s p : string) : bool :=
  match p, s with
  | EmptyString, _ => true
  | String _ _, EmptyString => false
  | String a p', String b s' => Ascii.eqb a b && startsWith s' p'
  end.

(** [s.includes(p)] *)
Fixpoint includes (s p : string) : bool :=
  startsWith s p ||
  match s with
  | EmptyString => false
  | String _ r => includes r p
  end.

(** [const normalize = (s) => s.trim().toLowerCase().replace(/\s+/g, ' ')] *)
Definition normalize (s : string) : string :=
  replaceWhiteSpace (toLowerCase (trim s)).

(** [matchPhrase(text, phrase)] of voice.ts. *)
Definition matchPhrase (text phrase : string) : bool :=
  includes (normalize text) (normalize phrase).

(** Substring containment, as a proposition. *)
Definition contains (s p : string) : Prop :=
  exists a b : string, s = (a ++ p ++ b)%string.

End Text.

(* ================================================================== *)
(** * Error taxonomy ([types.ts], [errors.ts]) *)
(* ================================================================== *)

Inductive VoiceErrorCode : Type :=
| ABORTED
| PERMISSION_DENIED
| NOT_SUPPORTED
| TTS_NOT_AVAILABLE
| STT_NOT_AVAILABLE
| NO_SPEECH
| AUDIO_CAPTURE_FAILED
| NETWORK_ERROR
| TTS_FAILED
| STT_FAILED
| CONVERSATION_ERROR
| INVALID_STATE.

Definition code_eqb (a b : VoiceErrorCode) : bool :=
  match a, b with
  | ABORTED, ABORTED | PERMISSION_DENIED, PERMISSION_DENIED
  | NOT_SUPPORTED, NOT_SUPPORTED | TTS_NOT_AVAILABLE, TTS_NOT_AVAILABLE
  | STT_NOT_AVAILABLE, STT_NOT_AVAILABLE | NO_SPEECH, NO_SPEECH
  | AUDIO_CAPTURE_FAILED, AUDIO_CAPTURE_FAILED
  | NETWORK_ERROR, NETWORK_ERROR | TTS_FAILED, TTS_FAILED
  | STT_FAILED, STT_FAILED | CONVERSATION_ERROR, CONVERSATION_ERROR
  | INVALID_STATE, INVALID_STATE => true
  | _, _ => false
  end.

Definition codeName (c : VoiceErrorCode) : string :=
  match c with
  | ABORTED => "ABORTED"
  | PERMISSION_DENIED => "PERMISSION_DENIED"
  | NOT_SUPPORTED => "NOT_SUPPORTED"
  | TTS_NOT_AVAILABLE => "TTS_NOT_AVAILABLE"
  | STT_NOT_AVAILABLE => "STT_NOT_AVAILABLE"
  | NO_SPEECH => "NO_SPEECH"
  | AUDIO_CAPTURE_FAILED => "AUDIO_CAPTURE_FAILED"
  | NETWORK_ERROR => "NETWORK_ERROR"
  | TTS_FAILED => "TTS_FAILED"
  | STT_FAILED => "STT_FAILED"
  | CONVERSATION_ERROR => "CONVERSATION_ERROR"
  | INVALID_STATE => "INVALID_STATE"
  end.

(** A plain JavaScript [Error]: its [name] and its [message]. *)
Record JsError : Type := mkJsError {
  errName : string;
  errMessage : string
}.

(** [interface VoiceError extends Error].  An optional field that was never
    assigned is [None]. *)
Record VoiceError : Type := mkVoiceError {
  code : VoiceErrorCode;
  name : string;
  message : string;
  cause : option JsError;
  context : option string;
  userAction : option bool;
  needsPermission : option bool;
  recoverable : option bool
}.

(** What a [throw] or a rejected promise carries: a [VoiceError], another
    [Error], or a value that is not an [Error] (kept as [String(value)]). *)
Inductive Thrown : Type :=
| ThrownVoiceError (e : VoiceError)
| ThrownError (e : JsError)
| ThrownValue (shown : string).

(** [enrichErrorMetadata]: the [switch] on [error.code]. *)
Definition enrichErrorMetadata (error : VoiceError) : VoiceError :=
  let set (ua np rc : option bool) :=
    mkVoiceError (code error) (name error) (message error) (cause error)
      (context error)
      (match ua with Some _ => ua | None => userAction error end)
      (match np with Some _ => np | None => needsPermission error end)
      (match rc with Some _ => rc | None => recoverable error end) in
  match code error with
  | ABORTED => set (Some true) None (Some false)
  | NO_SPEECH => set (Some false) None (Some true)
  | PERMISSION_DENIED | NOT_SUPPORTED | TTS_NOT_AVAILABLE
  | STT_NOT_AVAILABLE => set None (Some true) (Some true)
  | TTS_FAILED | STT_FAILED | AUDIO_CAPTURE_FAILED
  | CONVERSATION_ERROR => set None None (Some true)
  | NETWORK_ERROR => set None None (Some true)
  | INVALID_STATE => set None None (Some false)
  end.

(** The [options] argument of [createVoiceError]. *)
Record ErrorOptions : Type := mkErrorOptions {
  optCause : option JsError;
  optContext : option string
}.

(** [createVoiceError(code, message, options?)] *)
Definition createVoiceError (c : VoiceErrorCode) (msg : string)
    (options : option ErrorOptions) : VoiceError :=
  let error :=
    mkVoiceError c ("VoiceError[" ++ codeName c ++ "]")%string msg
      (match options with Some o => optCause o | None => None end)
      (match options with Some o => optContext o | None => None end)
      None None None in
  enrichErrorMetadata error.

(** [toVoiceError(error, defaultCode)] *)
Definition toVoiceError (error : Thrown) (defaultCode : VoiceErrorCode)
    : VoiceError :=
  match error with
  | ThrownVoiceError e => e
  | ThrownError e =>
      if String.eqb (errName e) "AbortError"
      then createVoiceError ABORTED "Operation was aborted"
             (Some (mkErrorOptions (Some e) None))
      else createVoiceError defaultCode (errMessage e)
             (Some (mkErrorOptions (Some e) None))
  | ThrownValue shown => createVoiceError defaultCode shown None
  end.

(** [isSystemError] *)
Definition isSystemError (error : VoiceError) : bool :=
  existsb (code_eqb (code error))
    [PERMISSION_DENIED; NOT_SUPPORTED; TTS_NOT_AVAILABLE; STT_NOT_AVAILABLE].

Definition SILENT_ERROR_CODES : list VoiceErrorCode := [ABORTED; NO_SPEECH].

(** [shouldLogError] *)
Definition shouldLogError (error : VoiceError) : bool :=
  negb (existsb (code_eqb (code error)) SILENT_ERROR_CODES).

(* ================================================================== *)
(** * Data model ([types.ts] and the session records of [voice.ts]) *)
(* ================================================================== *)

Inductive Role : Type := user | assistant.

Definition role_eqb (a b : Role) : bool :=
  match a, b with
  | user, user | assistant, assistant => true
  | _, _ => false
  end.

(** The result of [generateId]: the [Date.now()] and the [Math.random()]
    draw that the template string joins. *)
Definition EntryId : Type := (Z * nat)%type.

Record TranscriptEntry : Type := mkEntry {
  id : EntryId;
  role : Role;
  text : string;
  at_ : Z;
  final : bool
}.

(** An [AbortController], known by its identity. *)
Definition AbortController : Type := nat.

Inductive SessionType : Type := one_shot | continuous_session.

Inductive Method : Type := once | continuous.

Record RecognitionSession : Type := mkRecognitionSession {
  rs_type : SessionType;
  rs_abortController : AbortController;
  rs_controller : option nat;
  rs_startedAt : Z
}.

Record SynthesisSession : Type := mkSynthesisSession {
  ss_text : string;
  ss_abortController : AbortController;
  ss_startedAt : Z;
  ss_pausedAt : option Z
}.

Record ConversationLoop : Type := mkConversationLoop {
  isRunning : bool;
  cl_abortController : AbortController
}.

Record RecognitionSnapshot : Type := mkRecognitionSnapshot {
  rsn_isActive : bool;
  rsn_isAvailable : bool
}.

Record SynthesisSnapshot : Type := mkSynthesisSnapshot {
  ssn_isActive : bool;
  ssn_isPaused : bool;
  ssn_isAvailable : bool
}.

Record TranscriptSnapshot : Type := mkTranscriptSnapshot {
  entries : list TranscriptEntry;
  caption : option string
}.

Record QonvoSnapshot : Type := mkQonvoSnapshot {
  qsn_isReady : bool;
  qsn_error : option VoiceError
}.

Record ConversationSnapshot : Type := mkConversationSnapshot {
  csn_isActive : bool;
  csn_isAvailable : bool
}.

Record RecognitionResult : Type := mkRecognitionResult {
  rr_text : string;
  rr_at : Z;
  rr_confidence : option QArith_base.Q
}.

Record Availability : Type := mkAvailability {
  av_stt : bool;
  av_tts : bool
}.

(** ** Engines, listeners and callbacks *)

(** How a promise returned by an engine settles. *)
Inductive Settled : Type :=
| Resolved
| Rejected (v : Thrown).

(** What a recognition engine reports through the handlers given to
    [start]. *)
Inductive SttSignal : Type :=
| SttPartial (t : string)
| SttFinal (t : string) (confidence : option QArith_base.Q)
| SttError (e : VoiceError).

(** What a recognition engine does with one [start] call: its promise
    rejects, or it resolves and the engine delivers signals. *)
Inductive SttRun : Type :=
| StartRejected (v : Thrown)
| StartSignals (signals : list SttSignal).

Record STTEngine : Type := mkSTTEngine {
  stt_start : SttRun;
  stt_stop : Settled;
  stt_availability : Availability
}.

Record TTSEngine : Type := mkTTSEngine {
  tts_start : string -> Settled;
  tts_pause : Settled;
  tts_resume : Settled;
  tts_stop : Settled;
  tts_availability : Availability
}.

(** A listener of a notification registry: [() => void]. *)
Record Listener : Type := mkListener {
  listenerId : nat;
  listenerThrows : option Thrown
}.

(** An [onError] callback: [(error: VoiceError) => void]. *)
Record ErrorCallback : Type := mkErrorCallback {
  callbackId : nat;
  callbackThrows : VoiceError -> option Thrown
}.

(** A phrase-trigger callback: [(controller) => void]. *)
Record TriggerCallback : Type := mkTriggerCallback {
  triggerId : nat;
  triggerThrows : option Thrown
}.

Inductive Domain : Type :=
| SynthesisDomain
| RecognitionDomain
| TranscriptDomain
| QonvoDomain
| ConversationDomain.

(** What reaches [console.error]: a [VoiceError] reported by [logError]
    (its code and message, then its cause and context), another error
    reported by [logError], the exception of a listener, the exception of
    an [onError] callback. *)
Inductive ConsoleEntry : Type :=
| LoggedVoiceError (prefix : string) (e : VoiceError)
| LoggedError (prefix : string) (v : Thrown)
| ListenerFailure (d : Domain) (v : Thrown)
| OnErrorFailure (global : bool) (v : Thrown).

(** How a promise of a recognition result settles. *)
Inductive ResultSettled : Type :=
| ResultResolved (r : RecognitionResult)
| ResultRejected (e : VoiceError).

(** The externally visible effects, in the order they happen. *)
Inductive Event : Type :=
| EvConsoleError (entry : ConsoleEntry)
| EvListener (d : Domain) (listener : nat)
| EvOnError (global : bool) (callback : nat) (e : VoiceError)
| EvTrigger (callback : nat) (controller : nat)
| EvAbort (token : AbortController)
| EvSttStart (signal : AbortController) (withPartial : bool)
| EvSttStop
| EvTtsStart (t : string) (signal : AbortController)
| EvTtsPause
| EvTtsResume
| EvTtsStop
| EvSettle (controller : nat) (r : ResultSettled)
| EvUserCallback (r : RecognitionResult)
| EvSetTimeout (ms : Z).

(** ** The module state *)

(** The [let] variables of [voice.ts] and [errors.ts], the clock and the
    random source they read, and the effects performed so far. *)
Record State : Type := mkState {
  stt : option STTEngine;
  tts : option TTSEngine;
  transcript : list TranscriptEntry;
  isReady : bool;
  isRecognitionAvailable : bool;
  isSynthesisAvailable : bool;
  activeRecognitionSession : option RecognitionSession;
  activeSynthesisSession : option SynthesisSession;
  lastError : option VoiceError;
  globalOnError : option ErrorCallback;
  synthesisListeners : list Listener;
  cachedSynthesisSnapshot : option SynthesisSnapshot;
  recognitionListeners : list Listener;
  cachedRecognitionSnapshot : option RecognitionSnapshot;
  transcriptListeners : list Listener;
  cachedTranscriptSnapshot : option TranscriptSnapshot;
  qonvoListeners : list Listener;
  cachedQonvoSnapshot : option QonvoSnapshot;
  conversationListeners : list Listener;
  cachedConversationSnapshot : option ConversationSnapshot;
  activeConversationLoop : option ConversationLoop;
  errorLoggingEnabled : bool;
  clock : Z;
  entropy : nat;
  nextAbortController : nat;
  events : list Event
}.

(** Assignment to one variable of the state. *)
Definition set_stt (v : option STTEngine)
    (s : State) : State :=
  mkState v (tts s) (transcript s) (isReady s) (isRecognitionAvailable s)
    (isSynthesisAvailable s) (activeRecognitionSession s)
    (activeSynthesisSession s) (lastError s) (globalOnError s)
    (synthesisListeners s) (cachedSynthesisSnapshot s)
    (recognitionListeners s) (cachedRecognitionSnapshot s)
    (transcriptListeners s) (cachedTranscriptSnapshot s) (qonvoListeners s)
    (cachedQonvoSnapshot s) (conversationListeners s)
    (cachedConversationSnapshot s) (activeConversationLoop s)
    (errorLoggingEnabled s) (clock s) (entropy s) (nextAbortController s)
    (events s).

Definition set_tts (v : option TTSEngine)
    (s : State) : State :=
  mkState (stt s) v (transcript s) (isReady s) (isRecognitionAvailable s)
    (isSynthesisAvailable s) (activeRecognitionSession s)
    (activeSynthesisSession s) (lastError s) (globalOnError s)
    (synthesisListeners s) (cachedSynthesisSnapshot s)
    (recognitionListeners s) (cachedRecognitionSnapshot s)
    (transcriptListeners s) (cachedTranscriptSnapshot s) (qonvoListeners s)
    (cachedQonvoSnapshot s) (conversationListeners s)
    (cachedConversationSnapshot s) (activeConversationLoop s)
    (errorLoggingEnabled s) (clock s) (entropy s) (nextAbortController s)
    (events s).

Definition set_transcript (v : list TranscriptEntry)
    (s : State) : State :=
  mkState (stt s) (tts s) v (isReady s) (isRecognitionAvailable s)
    (isSynthesisAvailable s) (activeRecognitionSession s)
    (activeSynthesisSession s) (lastError s) (globalOnError s)
    (synthesisListeners s) (cachedSynthesisSnapshot s)
    (recognitionListeners s) (cachedRecognitionSnapshot s)
    (transcriptListeners s) (cachedTranscriptSnapshot s) (qonvoListeners s)
    (cachedQonvoSnapshot s) (conversationListeners s)
    (cachedConversationSnapshot s) (activeConversationLoop s)
    (errorLoggingEnabled s) (clock s) (entropy s) (nextAbortController s)
    (events s).

Definition set_isReady (v : bool)
    (s : State) : State :=
  mkState (stt s) (tts s) (transcript s) v (isRecognitionAvailable s)
    (isSynthesisAvailable s) (activeRecognitionSession s)
    (activeSynthesisSession s) (lastError s) (globalOnError s)
    (synthesisListeners s) (cachedSynthesisSnapshot s)
    (recognitionListeners s) (cachedRecognitionSnapshot s)
    (transcriptListeners s) (cachedTranscriptSnapshot s) (qonvoListeners s)
    (cachedQonvoSnapshot s) (conversationListeners s)
    (cachedConversationSnapshot s) (activeConversationLoop s)
    (errorLoggingEnabled s) (clock s) (entropy s) (nextAbortController s)
    (events s).

Definition set_isRecognitionAvailable (v : bool)
    (s : State) : State :=
  mkState (stt s) (tts s) (transcript s) (isReady s) v
    (isSynthesisAvailable s) (activeRecognitionSession s)
    (activeSynthesisSession s) (lastError s) (globalOnError s)
    (synthesisListeners s) (cachedSynthesisSnapshot s)
    (recognitionListeners s) (cachedRecognitionSnapshot s)
    (transcriptListeners s) (cachedTranscriptSnapshot s) (qonvoListeners s)
    (cachedQonvoSnapshot s) (conversationListeners s)
    (cachedConversationSnapshot s) (activeConversationLoop s)
    (errorLoggingEnabled s) (clock s) (entropy s) (nextAbortController s)
    (events s).

Definition set_isSynthesisAvailable (v : bool)
    (s : State) : State :=
  mkState (stt s) (tts s) (transcript s) (isReady s)
    (isRecognitionAvailable s) v (activeRecognitionSession s)
    (activeSynthesisSession s) (lastError s) (globalOnError s)
    (synthesisListeners s) (cachedSynthesisSnapshot s)
    (recognitionListeners s) (cachedRecognitionSnapshot s)
    (transcriptListeners s) (cachedTranscriptSnapshot s) (qonvoListeners s)
    (cachedQonvoSnapshot s) (conversationListeners s)
    (cachedConversationSnapshot s) (activeConversationLoop s)
    (errorLoggingEnabled s) (clock s) (entropy s) (nextAbortController s)
    (events s).

Definition set_activeRecognitionSession (v : option RecognitionSession)
    (s : State) : State :=
  mkState (stt s) (tts s) (transcript s) (isReady s)
    (isRecognitionAvailable s) (isSynthesisAvailable s) v
    (activeSynthesisSession s) (lastError s) (globalOnError s)
    (synthesisListeners s) (cachedSynthesisSnapshot s)
    (recognitionListeners s) (cachedRecognitionSnapshot s)
    (transcriptListeners s) (cachedTranscriptSnapshot s) (qonvoListeners s)
    (cachedQonvoSnapshot s) (conversationListeners s)
    (cachedConversationSnapshot s) (activeConversationLoop s)
    (errorLoggingEnabled s) (clock s) (entropy s) (nextAbortController s)
    (events s).

Definition set_activeSynthesisSession (v : option SynthesisSession)
    (s : State) : State :=
  mkState (stt s) (tts s) (transcript s) (isReady s)
    (isRecognitionAvailable s) (isSynthesisAvailable s)
    (activeRecognitionSession s) v (lastError s) (globalOnError s)
    (synthesisListeners s) (cachedSynthesisSnapshot s)
    (recognitionListeners s) (cachedRecognitionSnapshot s)
    (transcriptListeners s) (cachedTranscriptSnapshot s) (qonvoListeners s)
    (cachedQonvoSnapshot s) (conversationListeners s)
    (cachedConversationSnapshot s) (activeConversationLoop s)
    (errorLoggingEnabled s) (clock s) (entropy s) (nextAbortController s)
    (events s).

Definition set_lastError (v : option VoiceError)
    (s : State) : State :=
  mkState (stt s) (tts s) (transcript s) (isReady s)
    (isRecognitionAvailable s) (isSynthesisAvailable s)
    (activeRecognitionSession s) (activeSynthesisSession s) v
    (globalOnError s) (synthesisListeners s) (cachedSynthesisSnapshot s)
    (recognitionListeners s) (cachedRecognitionSnapshot s)
    (transcriptListeners s) (cachedTranscriptSnapshot s) (qonvoListeners s)
    (cachedQonvoSnapshot s) (conversationListeners s)
    (cachedConversationSnapshot s) (activeConversationLoop s)
    (errorLoggingEnabled s) (clock s) (entropy s) (nextAbortController s)
    (events s).

Definition set_globalOnError (v : option ErrorCallback)
    (s : State) : State :=
  mkState (stt s) (tts s) (transcript s) (isReady s)
    (isRecognitionAvailable s) (isSynthesisAvailable s)
    (activeRecognitionSession s) (activeSynthesisSession s) (lastError s) v
    (synthesisListeners s) (cachedSynthesisSnapshot s)
    (recognitionListeners s) (cachedRecognitionSnapshot s)
    (transcriptListeners s) (cachedTranscriptSnapshot s) (qonvoListeners s)
    (cachedQonvoSnapshot s) (conversationListeners s)
    (cachedConversationSnapshot s) (activeConversationLoop s)
    (errorLoggingEnabled s) (clock s) (entropy s) (nextAbortController s)
    (events s).

Definition set_synthesisListeners (v : list Listener)
    (s : State) : State :=
  mkState (stt s) (tts s) (transcript s) (isReady s)
    (isRecognitionAvailable s) (isSynthesisAvailable s)
    (activeRecognitionSession s) (activeSynthesisSession s) (lastError s)
    (globalOnError s) v (cachedSynthesisSnapshot s) (recognitionListeners s)
    (cachedRecognitionSnapshot s) (transcriptListeners s)
    (cachedTranscriptSnapshot s) (qonvoListeners s) (cachedQonvoSnapshot s)
    (conversationListeners s) (cachedConversationSnapshot s)
    (activeConversationLoop s) (errorLoggingEnabled s) (clock s) (entropy s)
    (nextAbortController s) (events s).

Definition set_cachedSynthesisSnapshot (v : option SynthesisSnapshot)
    (s : State) : State :=
  mkState (stt s) (tts s) (transcript s) (isReady s)
    (isRecognitionAvailable s) (isSynthesisAvailable s)
    (activeRecognitionSession s) (activeSynthesisSession s) (lastError s)
    (globalOnError s) (synthesisListeners s) v (recognitionListeners s)
    (cachedRecognitionSnapshot s) (transcriptListeners s)
    (cachedTranscriptSnapshot s) (qonvoListeners s) (cachedQonvoSnapshot s)
    (conversationListeners s) (cachedConversationSnapshot s)
    (activeConversationLoop s) (errorLoggingEnabled s) (clock s) (entropy s)
    (nextAbortController s) (events s).

Definition set_recognitionListeners (v : list Listener)
    (s : State) : State :=
  mkState (stt s) (tts s) (transcript s) (isReady s)
    (isRecognitionAvailable s) (isSynthesisAvailable s)
    (activeRecognitionSession s) (activeSynthesisSession s) (lastError s)
    (globalOnError s) (synthesisListeners s) (cachedSynthesisSnapshot s) v
    (cachedRecognitionSnapshot s) (transcriptListeners s)
    (cachedTranscriptSnapshot s) (qonvoListeners s) (cachedQonvoSnapshot s)
    (conversationListeners s) (cachedConversationSnapshot s)
    (activeConversationLoop s) (errorLoggingEnabled s) (clock s) (entropy s)
    (nextAbortController s) (events s).

Definition set_cachedRecognitionSnapshot (v : option RecognitionSnapshot)
    (s : State) : State :=
  mkState (stt s) (tts s) (transcript s) (isReady s)
    (isRecognitionAvailable s) (isSynthesisAvailable s)
    (activeRecognitionSession s) (activeSynthesisSession s) (lastError s)
    (globalOnError s) (synthesisListeners s) (cachedSynthesisSnapshot s)
    (recognitionListeners s) v (transcriptListeners s)
    (cachedTranscriptSnapshot s) (qonvoListeners s) (cachedQonvoSnapshot s)
    (conversationListeners s) (cachedConversationSnapshot s)
    (activeConversationLoop s) (errorLoggingEnabled s) (clock s) (entropy s)
    (nextAbortController s) (events s).

Definition set_transcriptListeners (v : list Listener)
    (s : State) : State :=
  mkState (stt s) (tts s) (transcript s) (isReady s)
    (isRecognitionAvailable s) (isSynthesisAvailable s)
    (activeRecognitionSession s) (activeSynthesisSession s) (lastError s)
    (globalOnError s) (synthesisListeners s) (cachedSynthesisSnapshot s)
    (recognitionListeners s) (cachedRecognitionSnapshot s) v
    (cachedTranscriptSnapshot s) (qonvoListeners s) (cachedQonvoSnapshot s)
    (conversationListeners s) (cachedConversationSnapshot s)
    (activeConversationLoop s) (errorLoggingEnabled s) (clock s) (entropy s)
    (nextAbortController s) (events s).

Definition set_cachedTranscriptSnapshot (v : option TranscriptSnapshot)
    (s : State) : State :=
  mkState (stt s) (tts s) (transcript s) (isReady s)
    (isRecognitionAvailable s) (isSynthesisAvailable s)
    (activeRecognitionSession s) (activeSynthesisSession s) (lastError s)
    (globalOnError s) (synthesisListeners s) (cachedSynthesisSnapshot s)
    (recognitionListeners s) (cachedRecognitionSnapshot s)
    (transcriptListeners s) v (qonvoListeners s) (cachedQonvoSnapshot s)
    (conversationListeners s) (cachedConversationSnapshot s)
    (activeConversationLoop s) (errorLoggingEnabled s) (clock s) (entropy s)
    (nextAbortController s) (events s).

Definition set_qonvoListeners (v : list Listener)
    (s : State) : State :=
  mkState (stt s) (tts s) (transcript s) (isReady s)
    (isRecognitionAvailable s) (isSynthesisAvailable s)
    (activeRecognitionSession s) (activeSynthesisSession s) (lastError s)
    (globalOnError s) (synthesisListeners s) (cachedSynthesisSnapshot s)
    (recognitionListeners s) (cachedRecognitionSnapshot s)
    (transcriptListeners s) (cachedTranscriptSnapshot s) v
    (cachedQonvoSnapshot s) (conversationListeners s)
    (cachedConversationSnapshot s) (activeConversationLoop s)
    (errorLoggingEnabled s) (clock s) (entropy s) (nextAbortController s)
    (events s).

Definition set_cachedQonvoSnapshot (v : option QonvoSnapshot)
    (s : State) : State :=
  mkState (stt s) (tts s) (transcript s) (isReady s)
    (isRecognitionAvailable s) (isSynthesisAvailable s)
    (activeRecognitionSession s) (activeSynthesisSession s) (lastError s)
    (globalOnError s) (synthesisListeners s) (cachedSynthesisSnapshot s)
    (recognitionListeners s) (cachedRecognitionSnapshot s)
    (transcriptListeners s) (cachedTranscriptSnapshot s) (qonvoListeners s)
    v (conversationListeners s) (cachedConversationSnapshot s)
    (activeConversationLoop s) (errorLoggingEnabled s) (clock s) (entropy s)
    (nextAbortController s) (events s).

Definition set_conversationListeners (v : list Listener)
    (s : State) : State :=
  mkState (stt s) (tts s) (transcript s) (isReady s)
    (isRecognitionAvailable s) (isSynthesisAvailable s)
    (activeRecognitionSession s) (activeSynthesisSession s) (lastError s)
    (globalOnError s) (synthesisListeners s) (cachedSynthesisSnapshot s)
    (recognitionListeners s) (cachedRecognitionSnapshot s)
    (transcriptListeners s) (cachedTranscriptSnapshot s) (qonvoListeners s)
    (cachedQonvoSnapshot s) v (cachedConversationSnapshot s)
    (activeConversationLoop s) (errorLoggingEnabled s) (clock s) (entropy s)
    (nextAbortController s) (events s).

Definition set_cachedConversationSnapshot (v : option ConversationSnapshot)
    (s : State) : State :=
  mkState (stt s) (tts s) (transcript s) (isReady s)
    (isRecognitionAvailable s) (isSynthesisAvailable s)
    (activeRecognitionSession s) (activeSynthesisSession s) (lastError s)
    (globalOnError s) (synthesisListeners s) (cachedSynthesisSnapshot s)
    (recognitionListeners s) (cachedRecognitionSnapshot s)
    (transcriptListeners s) (cachedTranscriptSnapshot s) (qonvoListeners s)
    (cachedQonvoSnapshot s) (conversationListeners s) v
    (activeConversationLoop s) (errorLoggingEnabled s) (clock s) (entropy s)
    (nextAbortController s) (events s).

Definition set_activeConversationLoop (v : option ConversationLoop)
    (s : State) : State :=
  mkState (stt s) (tts s) (transcript s) (isReady s)
    (isRecognitionAvailable s) (isSynthesisAvailable s)
    (activeRecognitionSession s) (activeSynthesisSession s) (lastError s)
    (globalOnError s) (synthesisListeners s) (cachedSynthesisSnapshot s)
    (recognitionListeners s) (cachedRecognitionSnapshot s)
    (transcriptListeners s) (cachedTranscriptSnapshot s) (qonvoListeners s)
    (cachedQonvoSnapshot s) (conversationListeners s)
    (cachedConversationSnapshot s) v (errorLoggingEnabled s) (clock s)
    (entropy s) (nextAbortController s) (events s).

Definition set_errorLoggingEnabled (v : bool)
    (s : State) : State :=
  mkState (stt s) (tts s) (transcript s) (isReady s)
    (isRecognitionAvailable s) (isSynthesisAvailable s)
    (activeRecognitionSession s) (activeSynthesisSession s) (lastError s)
    (globalOnError s) (synthesisListeners s) (cachedSynthesisSnapshot s)
    (recognitionListeners s) (cachedRecognitionSnapshot s)
    (transcriptListeners s) (cachedTranscriptSnapshot s) (qonvoListeners s)
    (cachedQonvoSnapshot s) (conversationListeners s)
    (cachedConversationSnapshot s) (activeConversationLoop s) v (clock s)
    (entropy s) (nextAbortController s) (events s).

Definition set_clock (v : Z)
    (s : State) : State :=
  mkState (stt s) (tts s) (transcript s) (isReady s)
    (isRecognitionAvailable s) (isSynthesisAvailable s)
    (activeRecognitionSession s) (activeSynthesisSession s) (lastError s)
    (globalOnError s) (synthesisListeners s) (cachedSynthesisSnapshot s)
    (recognitionListeners s) (cachedRecognitionSnapshot s)
    (transcriptListeners s) (cachedTranscriptSnapshot s) (qonvoListeners s)
    (cachedQonvoSnapshot s) (conversationListeners s)
    (cachedConversationSnapshot s) (activeConversationLoop s)
    (errorLoggingEnabled s) v (entropy s) (nextAbortController s)
    (events s).

Definition set_entropy (v : nat)
    (s : State) : State :=
  mkState (stt s) (tts s) (transcript s) (isReady s)
    (isRecognitionAvailable s) (isSynthesisAvailable s)
    (activeRecognitionSession s) (activeSynthesisSession s) (lastError s)
    (globalOnError s) (synthesisListeners s) (cachedSynthesisSnapshot s)
    (recognitionListeners s) (cachedRecognitionSnapshot s)
    (transcriptListeners s) (cachedTranscriptSnapshot s) (qonvoListeners s)
    (cachedQonvoSnapshot s) (conversationListeners s)
    (cachedConversationSnapshot s) (activeConversationLoop s)
    (errorLoggingEnabled s) (clock s) v (nextAbortController s) (events s).

Definition set_nextAbortController (v : nat)
    (s : State) : State :=
  mkState (stt s) (tts s) (transcript s) (isReady s)
    (isRecognitionAvailable s) (isSynthesisAvailable s)
    (activeRecognitionSession s) (activeSynthesisSession s) (lastError s)
    (globalOnError s) (synthesisListeners s) (cachedSynthesisSnapshot s)
    (recognitionListeners s) (cachedRecognitionSnapshot s)
    (transcriptListeners s) (cachedTranscriptSnapshot s) (qonvoListeners s)
    (cachedQonvoSnapshot s) (conversationListeners s)
    (cachedConversationSnapshot s) (activeConversationLoop s)
    (errorLoggingEnabled s) (clock s) (entropy s) v (events s).

Definition set_events (v : list Event)
    (s : State) : State :=
  mkState (stt s) (tts s) (transcript s) (isReady s)
    (isRecognitionAvailable s) (isSynthesisAvailable s)
    (activeRecognitionSession s) (activeSynthesisSession s) (lastError s)
    (globalOnError s) (synthesisListeners s) (cachedSynthesisSnapshot s)
    (recognitionListeners s) (cachedRecognitionSnapshot s)
    (transcriptListeners s) (cachedTranscriptSnapshot s) (qonvoListeners s)
    (cachedQonvoSnapshot s) (conversationListeners s)
    (cachedConversationSnapshot s) (activeConversationLoop s)
    (errorLoggingEnabled s) (clock s) (entropy s) (nextAbortController s) v.
(* ================================================================== *)
(** * The monad of module functions *)
(* ================================================================== *)

(** A call returns a value or throws. *)
Inductive Outcome (A : Type) : Type :=
| Returned (a : A)
| Threw (v : Thrown).

Arguments Returned {A} a.
Arguments Threw {A} v.

Definition M (A : Type) : Type := State -> Outcome A * State.

Definition ret {A : Type} (a : A) : M A := fun s => (Returned a, s).

Definition bind {A B : Type} (m : M A) (k : A -> M B) : M B :=
  fun s =>
    match m s with
    | (Returned a, s1) => k a s1
    | (Threw v, s1) => (Threw v, s1)
    end.

Definition throw {A : Type} (v : Thrown) : M A := fun s => (Threw v, s).

(** [try { m } catch (error) { handler error }] *)
Definition tryCatch {A : Type} (m : M A) (handler : Thrown -> M A) : M A :=
  fun s =>
    match m s with
    | (Returned a, s1) => (Returned a, s1)
    | (Threw v, s1) => handler v s1
    end.

(** [try { m } finally { cleanup }] *)
Definition tryFinally {A : Type} (m : M A) (cleanup : M unit) : M A :=
  fun s =>
    match m s with
    | (o, s1) =>
        match cleanup s1 with
        | (Returned _, s2) => (o, s2)
        | (Threw v, s2) => (Threw v, s2)
        end
    end.

Definition gets {A : Type} (f : State -> A) : M A :=
  fun s => (Returned (f s), s).

Definition modify (f : State -> State) : M unit :=
  fun s => (Returned tt, f s).

Declare Scope voice_scope.
Delimit Scope voice_scope with voice.

Notation "x <- m ;; k" := (bind m (fun x => k))
  (at level 61, m at next level, right associativity) : voice_scope.
Notation "m ;; k" := (bind m (fun _ => k))
  (at level 61, right associativity) : voice_scope.

Local Open Scope voice_scope.

(** [for (const x of xs) body(x)] *)
Fixpoint forEach {A : Type} (body : A -> M unit) (xs : list A) : M unit :=
  match xs with
  | [] => ret tt
  | x :: rest => body x ;; forEach body rest
  end.

(** [if (c) m] *)
Definition when_ (c : bool) (m : M unit) : M unit :=
  if c then m else ret tt.

Definition emit (e : Event) : M unit :=
  modify (fun s => set_events (events s ++ [e]) s).

Definition consoleError (entry : ConsoleEntry) : M unit :=
  emit (EvConsoleError entry).

(** [Date.now()] *)
Definition dateNow : M Z := gets clock.

(** [Math.random()] *)
Definition mathRandom : M nat :=
  r <- gets entropy ;;
  modify (fun s => set_entropy (S r) s) ;;
  ret r.

(** [new AbortController()] *)
Definition newAbortController : M AbortController :=
  c <- gets nextAbortController ;;
  modify (fun s => set_nextAbortController (S c) s) ;;
  ret c.

(** [abortController.abort()] *)
Definition abort (c : AbortController) : M unit := emit (EvAbort c).

(** [await p], for a promise [p] that settles as [r]. *)
Definition await (r : Settled) : M unit :=
  match r with
  | Resolved => ret tt
  | Rejected v => throw v
  end.

(** A call of a listener. *)
Definition callListener (d : Domain) (l : Listener) : M unit :=
  emit (EvListener d (listenerId l)) ;;
  match listenerThrows l with
  | Some v => throw v
  | None => ret tt
  end.

(* ================================================================== *)
(** * Notification registries *)
(* ================================================================== *)

(** [subscribeToX(listener)] adds to a [Set]: a listener already there is
    not added again. *)
Definition setAdd (l : Listener) (ls : list Listener) : list Listener :=
  if existsb (fun x => listenerId x =? listenerId l)%nat ls
  then ls else ls ++ [l].

(** The returned unsubscribe function: [listeners.delete(listener)]. *)
Definition setDelete (l : Listener) (ls : list Listener) : list Listener :=
  filter (fun x => negb (listenerId x =? listenerId l)%nat) ls.

Definition subscribeToSynthesis (l : Listener) : M unit :=
  modify (fun s => set_synthesisListeners (setAdd l (synthesisListeners s)) s).

Definition subscribeToRecognition (l : Listener) : M unit :=
  modify (fun s =>
    set_recognitionListeners (setAdd l (recognitionListeners s)) s).

Definition subscribeToTranscript (l : Listener) : M unit :=
  modify (fun s =>
    set_transcriptListeners (setAdd l (transcriptListeners s)) s).

Definition subscribeToQonvo (l : Listener) : M unit :=
  modify (fun s => set_qonvoListeners (setAdd l (qonvoListeners s)) s).

Definition subscribeToConversation (l : Listener) : M unit :=
  modify (fun s =>
    set_conversationListeners (setAdd l (conversationListeners s)) s).

Definition isSome {A : Type} (o : option A) : bool :=
  match o with Some _ => true | None => false end.

Definition getSynthesisSnapshot : M SynthesisSnapshot :=
  c <- gets cachedSynthesisSnapshot ;;
  match c with
  | Some snap => ret snap
  | None =>
      a <- gets activeSynthesisSession ;;
      av <- gets isSynthesisAvailable ;;
      let snap :=
        mkSynthesisSnapshot (isSome a)
          (match a with
           | Some session => isSome (ss_pausedAt session)
           | None => false
           end)
          av in
      modify (set_cachedSynthesisSnapshot (Some snap)) ;;
      ret snap
  end.

(** No [try] around the listener call. *)
Definition setActiveSynthesisSession (session : option SynthesisSession)
    : M unit :=
  modify (set_activeSynthesisSession session) ;;
  modify (set_cachedSynthesisSnapshot None) ;;
  ls <- gets synthesisListeners ;;
  forEach (callListener SynthesisDomain) ls.

Definition getRecognitionSnapshot : M RecognitionSnapshot :=
  c <- gets cachedRecognitionSnapshot ;;
  match c with
  | Some snap => ret snap
  | None =>
      a <- gets activeRecognitionSession ;;
      av <- gets isRecognitionAvailable ;;
      let snap := mkRecognitionSnapshot (isSome a) av in
      modify (set_cachedRecognitionSnapshot (Some snap)) ;;
      ret snap
  end.

(** No [try] around the listener call. *)
Definition setActiveRecognitionSession
    (session : option RecognitionSession) : M unit :=
  modify (set_activeRecognitionSession session) ;;
  modify (set_cachedRecognitionSnapshot None) ;;
  ls <- gets recognitionListeners ;;
  forEach (callListener RecognitionDomain) ls.

(** [array[array.length - 1]] of a non-empty array. *)
Definition lastText (l : list TranscriptEntry) : option string :=
  match rev l with
  | [] => None
  | e :: _ => Some (text e)
  end.

Definition getTranscriptSnapshot : M TranscriptSnapshot :=
  c <- gets cachedTranscriptSnapshot ;;
  match c with
  | Some snap => ret snap
  | None =>
      t <- gets transcript ;;
      let nonFinalEntries := filter (fun e => negb (final e)) t in
      let snap :=
        mkTranscriptSnapshot (filter (fun e => final e) t)
          (lastText nonFinalEntries) in
      modify (set_cachedTranscriptSnapshot (Some snap)) ;;
      ret snap
  end.

Definition getQonvoSnapshot : M QonvoSnapshot :=
  c <- gets cachedQonvoSnapshot ;;
  match c with
  | Some snap => ret snap
  | None =>
      r <- gets isReady ;;
      e <- gets lastError ;;
      let snap := mkQonvoSnapshot r e in
      modify (set_cachedQonvoSnapshot (Some snap)) ;;
      ret snap
  end.

Definition loopRunning (s : State) : bool :=
  match activeConversationLoop s with
  | Some l => isRunning l
  | None => false
  end.

Definition getConversationSnapshot : M ConversationSnapshot :=
  c <- gets cachedConversationSnapshot ;;
  match c with
  | Some snap => ret snap
  | None =>
      a <- gets activeConversationLoop ;;
      sa <- gets isSynthesisAvailable ;;
      ra <- gets isRecognitionAvailable ;;
      let snap := mkConversationSnapshot (isSome a) (sa && ra) in
      modify (set_cachedConversationSnapshot (Some snap)) ;;
      ret snap
  end.

(** [try { listener() } catch (error) { console.error(..., error) }] *)
Definition callListenerGuarded (d : Domain) (l : Listener) : M unit :=
  tryCatch (callListener d l)
    (fun error => consoleError (ListenerFailure d error)).

Definition notifyConversation : M unit :=
  modify (set_cachedConversationSnapshot None) ;;
  ls <- gets conversationListeners ;;
  forEach (callListenerGuarded ConversationDomain) ls.

Definition notifySynthesis : M unit :=
  modify (set_cachedSynthesisSnapshot None) ;;
  ls <- gets synthesisListeners ;;
  forEach (callListenerGuarded SynthesisDomain) ls.

Definition notifyRecognition : M unit :=
  modify (set_cachedRecognitionSnapshot None) ;;
  ls <- gets recognitionListeners ;;
  forEach (callListenerGuarded RecognitionDomain) ls.

Definition notifyTranscript : M unit :=
  modify (set_cachedTranscriptSnapshot None) ;;
  ls <- gets transcriptListeners ;;
  forEach (callListenerGuarded TranscriptDomain) ls.

Definition notifyQonvo : M unit :=
  modify (set_cachedQonvoSnapshot None) ;;
  ls <- gets qonvoListeners ;;
  forEach (callListenerGuarded QonvoDomain) ls.

Definition notifyAll : M unit :=
  notifySynthesis ;;
  notifyRecognition ;;
  notifyTranscript ;;
  notifyQonvo.

(* ================================================================== *)
(** * Error state and pipeline *)
(* ================================================================== *)

Definition setError (error : option VoiceError) : M unit :=
  modify (set_lastError error) ;;
  notifyQonvo.

Definition setGlobalOnError (callback : option ErrorCallback) : M unit :=
  modify (set_globalOnError callback).

Definition clearError : M unit :=
  modify (set_lastError None) ;;
  notifyQonvo.

(** A call of an [onError] callback. *)
Definition callOnError (global : bool) (cb : ErrorCallback)
    (error : VoiceError) : M unit :=
  emit (EvOnError global (callbackId cb) error) ;;
  match callbackThrows cb error with
  | Some v => throw v
  | None => ret tt
  end.

(** [handleError(error, onError?)] *)
Definition handleError (error : VoiceError)
    (onError : option ErrorCallback) : M unit :=
  when_ (negb (code_eqb (code error) ABORTED)) (setError (Some error)) ;;
  match onError with
  | Some cb =>
      tryCatch (callOnError false cb error)
        (fun err => consoleError (OnErrorFailure false err))
  | None => ret tt
  end ;;
  g <- gets globalOnError ;;
  match g with
  | Some cb =>
      tryCatch (callOnError true cb error)
        (fun err => consoleError (OnErrorFailure true err))
  | None => ret tt
  end.

Definition setErrorLogging (enabled : bool) : M unit :=
  modify (set_errorLoggingEnabled enabled).

Definition logPrefix (context : option string) : string :=
  match context with
  | Some c => ("[Qonvo:" ++ c ++ "]")%string
  | None => "[Qonvo]"
  end.

(** [logError(error, context?)], for a [VoiceError] or another [Error]. *)
Definition logError (error : Thrown) (context : option string) : M unit :=
  enabled <- gets errorLoggingEnabled ;;
  if negb enabled then ret tt
  else
    match error with
    | ThrownVoiceError e =>
        if negb (shouldLogError e) then ret tt
        else consoleError (LoggedVoiceError (logPrefix context) e)
    | _ => consoleError (LoggedError (logPrefix context) error)
    end.

(** [throwVoiceError(error)] *)
Definition throwVoiceError (error : VoiceError) : M unit :=
  if code_eqb (code error) ABORTED then ret tt
  else throw (ThrownVoiceError error).

(** The [options] of [processVoiceError]. *)
Record ProcessOptions : Type := mkProcessOptions {
  po_defaultCode : option VoiceErrorCode;
  po_onError : option ErrorCallback;
  po_handleError : option (VoiceError -> option ErrorCallback -> M unit);
  po_shouldThrow : option bool
}.

Definition orDefault {A : Type} (o : option A) (d : A) : A :=
  match o with Some a => a | None => d end.

(** [processVoiceError(error, context, options)] *)
Definition processVoiceError (error : Thrown) (context : string)
    (options : ProcessOptions) : M VoiceError :=
  let defaultCode := orDefault (po_defaultCode options) TTS_FAILED in
  let shouldThrow := orDefault (po_shouldThrow options) true in
  let voiceError := toVoiceError error defaultCode in
  match po_handleError options with
  | Some errorHandler => errorHandler voiceError (po_onError options)
  | None => ret tt
  end ;;
  when_ (shouldLogError voiceError)
    (logError (ThrownVoiceError voiceError) (Some context)) ;;
  when_ shouldThrow (throwVoiceError voiceError) ;;
  ret voiceError.

(* ================================================================== *)
(** * Transcript store *)
(* ================================================================== *)

Definition generateId : M EntryId :=
  now <- dateNow ;;
  r <- mathRandom ;;
  ret (now, r).

(** [array.findIndex(p)]; [None] stands for [-1]. *)
Fixpoint findIndex {A : Type} (p : A -> bool) (l : list A) : option nat :=
  match l with
  | [] => None
  | x :: rest =>
      if p x then Some 0%nat
      else match findIndex p rest with
           | Some i => Some (S i)
           | None => None
           end
  end.

(** [array[i] = v] for an index inside the array. *)
Fixpoint setAt {A : Type} (i : nat) (v : A) (l : list A) : list A :=
  match l, i with
  | [], _ => []
  | _ :: rest, O => v :: rest
  | x :: rest, S j => x :: setAt j v rest
  end.

Definition isInterimOf (r : Role) (t : TranscriptEntry) : bool :=
  role_eqb (role t) r && negb (final t).

Definition addInterimTranscript (r : Role) (txt : string) : M unit :=
  t <- gets transcript ;;
  match findIndex (isInterimOf r) t with
  | Some interimIndex =>
      match nth_error t interimIndex with
      | Some old =>
          now <- dateNow ;;
          modify (set_transcript
                    (setAt interimIndex (mkEntry (id old) r txt now false) t))
      | None => ret tt
      end
  | None =>
      i <- generateId ;;
      now <- dateNow ;;
      modify (fun s =>
        set_transcript (transcript s ++ [mkEntry i r txt now false]) s)
  end ;;
  notifyTranscript.

Definition addFinalTranscript (r : Role) (txt : string) : M unit :=
  modify (fun s =>
    set_transcript
      (filter (fun t => negb (isInterimOf r t)) (transcript s)) s) ;;
  i <- generateId ;;
  now <- dateNow ;;
  modify (fun s =>
    set_transcript (transcript s ++ [mkEntry i r txt now true]) s) ;;
  notifyTranscript.

Definition clearTranscript : M unit :=
  modify (set_transcript []) ;;
  notifyTranscript.

Definition setEngines (sttEngine : option STTEngine)
    (ttsEngine : option TTSEngine) : M unit :=
  modify (set_stt sttEngine) ;;
  modify (set_tts ttsEngine) ;;
  notifyAll.

Definition noAvailability : Availability := mkAvailability false false.

Definition refreshAvailability : M unit :=
  sttEngine <- gets stt ;;
  let sttAvail :=
    match sttEngine with
    | Some e => stt_availability e
    | None => noAvailability
    end in
  ttsEngine <- gets tts ;;
  let ttsAvail :=
    match ttsEngine with
    | Some e => tts_availability e
    | None => noAvailability
    end in
  modify (set_isReady true) ;;
  modify (set_isRecognitionAvailable (av_stt sttAvail)) ;;
  modify (set_isSynthesisAvailable (av_tts ttsAvail)) ;;
  notifySynthesis ;;
  notifyRecognition ;;
  notifyQonvo.

(* ================================================================== *)
(** * Synthesis session manager *)
(* ================================================================== *)

(** [SynthesizeOptions]: [rate], [pitch], [voice] and [lang] go to the
    engine untouched and are left out. *)
Record SynthesizeOptions : Type := mkSynthesizeOptions {
  so_signal : option AbortController;
  so_onError : option ErrorCallback
}.

Definition noSynthesizeOptions : SynthesizeOptions :=
  mkSynthesizeOptions None None.

(** A method call on an engine variable that holds [null]. *)
Definition typeError : Thrown :=
  ThrownError (mkJsError "TypeError" "Cannot read properties of null").

(** [await tts.m()], recorded as the event [e]. *)
Definition callTts (e : Event) (m : TTSEngine -> Settled) : M unit :=
  engine <- gets tts ;;
  match engine with
  | Some ttsEngine => emit e ;; await (m ttsEngine)
  | None => throw typeError
  end.

(** [await stt.stop()] *)
Definition callSttStop : M unit :=
  engine <- gets stt ;;
  match engine with
  | Some sttEngine => emit EvSttStop ;; await (stt_stop sttEngine)
  | None => throw typeError
  end.

Definition stopSynthesis : M unit :=
  engine <- gets tts ;;
  active <- gets activeSynthesisSession ;;
  match engine, active with
  | Some _, Some session =>
      setActiveSynthesisSession None ;;
      abort (ss_abortController session) ;;
      tryCatch (callTts EvTtsStop tts_stop)
        (fun error =>
           let voiceError := toVoiceError error TTS_FAILED in
           when_ (shouldLogError voiceError)
             (logError (ThrownVoiceError voiceError) (Some "stopSynthesis")))
  | _, _ => ret tt
  end.

(** [activeSynthesisSession === session] *)
Definition sameSynthesisSession (current : option SynthesisSession)
    (session : SynthesisSession) : bool :=
  match current with
  | Some c => (ss_abortController c =? ss_abortController session)%nat
  | None => false
  end.

Definition startSynthesis (txt : string) (options : SynthesizeOptions)
    : M unit :=
  engine <- gets tts ;;
  match engine with
  | None =>
      throw (ThrownVoiceError
               (createVoiceError TTS_NOT_AVAILABLE
                  "Text-to-speech not available" None))
  | Some _ =>
      active <- gets activeSynthesisSession ;;
      when_ (isSome active) stopSynthesis ;;
      abortController <- newAbortController ;;
      let signal := orDefault (so_signal options) abortController in
      now <- dateNow ;;
      let session := mkSynthesisSession txt abortController now None in
      setActiveSynthesisSession (Some session) ;;
      setError None ;;
      addFinalTranscript assistant txt ;;
      tryFinally
        (tryCatch
           (callTts (EvTtsStart txt signal) (fun e => tts_start e txt))
           (fun error =>
              processVoiceError error "startSynthesis"
                (mkProcessOptions (Some TTS_FAILED) (so_onError options)
                   (Some handleError) (Some true)) ;;
              ret tt))
        (current <- gets activeSynthesisSession ;;
         when_ (sameSynthesisSession current session)
           (setActiveSynthesisSession None))
  end.

Definition withPausedAt (p : option Z) (session : SynthesisSession)
    : SynthesisSession :=
  mkSynthesisSession (ss_text session) (ss_abortController session)
    (ss_startedAt session) p.

Definition pauseSynthesis : M unit :=
  engine <- gets tts ;;
  active <- gets activeSynthesisSession ;;
  match engine, active with
  | Some _, Some _ =>
      tryCatch
        (callTts EvTtsPause tts_pause ;;
         current <- gets activeSynthesisSession ;;
         match current with
         | Some session =>
             now <- dateNow ;;
             setActiveSynthesisSession
               (Some (withPausedAt (Some now) session))
         | None => ret tt
         end)
        (fun error =>
           let voiceError := toVoiceError error TTS_FAILED in
           logError (ThrownVoiceError voiceError) (Some "pause") ;;
           throwVoiceError voiceError)
  | _, _ => ret tt
  end.

(** The truthiness of [activeSynthesisSession?.pausedAt]. *)
Definition pausedAtTruthy (active : option SynthesisSession) : bool :=
  match active with
  | Some session =>
      match ss_pausedAt session with
      | Some t => negb (t =? 0)%Z
      | None => false
      end
  | None => false
  end.

Definition resumeSynthesis : M unit :=
  engine <- gets tts ;;
  active <- gets activeSynthesisSession ;;
  if negb (isSome engine) || negb (pausedAtTruthy active) then ret tt
  else
    tryCatch
      (callTts EvTtsResume tts_resume ;;
       current <- gets activeSynthesisSession ;;
       match current with
       | Some session =>
           setActiveSynthesisSession (Some (withPausedAt None session))
       | None => ret tt
       end)
      (fun error =>
         let voiceError := toVoiceError error TTS_FAILED in
         logError (ThrownVoiceError voiceError) (Some "resume") ;;
         throwVoiceError voiceError).

(* ================================================================== *)
(** * Recognition session manager and controller *)
(* ================================================================== *)

Definition stopRecognition : M unit :=
  engine <- gets stt ;;
  active <- gets activeRecognitionSession ;;
  match engine, active with
  | Some _, Some session =>
      setActiveRecognitionSession None ;;
      abort (rs_abortController session) ;;
      tryCatch callSttStop
        (fun error =>
           let voiceError := toVoiceError error STT_FAILED in
           when_ (shouldLogError voiceError)
             (logError (ThrownVoiceError voiceError)
                (Some "stopRecognition")))
  | _, _ => ret tt
  end.

Record RecognizeOptions : Type := mkRecognizeOptions {
  ro_method : option Method;
  ro_caption : option bool;
  ro_signal : option AbortController;
  ro_onError : option ErrorCallback
}.

Definition noRecognizeOptions : RecognizeOptions :=
  mkRecognizeOptions None None None None.

(** The fields of a [UnifiedRecognitionController], with the [method] and
    [options] that its handlers close over.  The controller and its session
    are known by the identity of the session's abort controller. *)
Record Controller : Type := mkController {
  triggers : list (string * TriggerCallback);
  session : RecognitionSession;
  ctl_method : Method;
  ctl_options : RecognizeOptions
}.

Definition controllerId (this : Controller) : nat :=
  rs_abortController (session this).

(** [p.catch(() => {})] on the promise of an [async] function. *)
Definition swallow (m : M unit) : M unit :=
  tryCatch m (fun _ => ret tt).

(** [resolveResult] and [rejectResult] of the controller's promise. *)
Definition settle (this : Controller) (r : ResultSettled) : M unit :=
  emit (EvSettle (controllerId this) r).

(** A call of a trigger callback with the controller. *)
Definition callTrigger (cb : TriggerCallback) (this : Controller) : M unit :=
  emit (EvTrigger (triggerId cb) (controllerId this)) ;;
  match triggerThrows cb with
  | Some v => throw v
  | None => ret tt
  end.

(** [for (const [phrase, callback] of this.triggers)
       if (matchPhrase(text, phrase)) callback(this)] *)
Definition checkTriggers (this : Controller) (txt : string) : M unit :=
  forEach
    (fun entry : string * TriggerCallback =>
       when_ (Text.matchPhrase txt (fst entry)) (callTrigger (snd entry) this))
    (triggers this).

(** [stt!.start({ ... })]: the call itself; what the engine reports later
    reaches the handlers below. *)
Definition callSttStart (signal : AbortController) (withPartial : bool)
    : M unit :=
  engine <- gets stt ;;
  match engine with
  | Some _ => emit (EvSttStart signal withPartial)
  | None => throw typeError
  end.

Definition captionOn (options : RecognizeOptions) : bool :=
  orDefault (ro_caption options) false.

(** [startOnceMode] and [startContinuousMode] give the engine the handlers
    [onPartial], [onFinal] and [onError] below and attach the [.catch]
    handler [onStartRejected] to the promise of the call. *)
Definition startOnceMode (options : RecognizeOptions)
    (abortController : AbortController) : M unit :=
  callSttStart abortController (captionOn options).

Definition startContinuousMode (options : RecognizeOptions)
    (abortController : AbortController) : M unit :=
  callSttStart abortController (captionOn options).

(** [new UnifiedRecognitionController(method, options)] *)
Definition newUnifiedRecognitionController (method : Method)
    (options : RecognizeOptions) : M Controller :=
  abortController <- newAbortController ;;
  now <- dateNow ;;
  let session :=
    mkRecognitionSession
      (match method with
       | once => one_shot
       | continuous => continuous_session
       end)
      abortController (Some abortController) now in
  setActiveRecognitionSession (Some session) ;;
  setError None ;;
  match method with
  | once => startOnceMode options abortController
  | continuous => startContinuousMode options abortController
  end ;;
  ret (mkController [] session method options).

(** [Map.prototype.set]: a key already present keeps its place. *)
Fixpoint mapSet {V : Type} (k : string) (v : V) (m : list (string * V))
    : list (string * V) :=
  match m with
  | [] => [(k, v)]
  | (k', v') :: rest =>
      if String.eqb k' k then (k, v) :: rest
      else (k', v') :: mapSet k v rest
  end.

(** [controller.when(phrase).then(callback)] *)
Definition when_then (phrase : string) (callback : TriggerCallback)
    (this : Controller) : Controller :=
  mkController (mapSet phrase callback (triggers this)) (session this)
    (ctl_method this) (ctl_options this).

(** [controller.stop()] *)
Definition stop : M unit := stopRecognition.

(** The [onPartial] handler; it is [undefined] without [caption]. *)
Definition onPartial (this : Controller) (txt : string) : M unit :=
  when_ (captionOn (ctl_options this)) (addInterimTranscript user txt).

(** The [onFinal] handler of [startOnceMode] and [startContinuousMode]. *)
Definition onFinal (this : Controller) (txt : string)
    (confidence : option QArith_base.Q) : M unit :=
  match ctl_method this with
  | once =>
      addFinalTranscript user txt ;;
      checkTriggers this txt ;;
      now <- dateNow ;;
      settle this (ResultResolved (mkRecognitionResult txt now confidence)) ;;
      swallow stop
  | continuous =>
      addFinalTranscript user txt ;;
      checkTriggers this txt
  end.

Definition notSilentSignal (error : VoiceError) : bool :=
  negb (code_eqb (code error) ABORTED)
  && negb (code_eqb (code error) NO_SPEECH).

(** The [onError] handler of both modes. *)
Definition onError (this : Controller) (error : VoiceError) : M unit :=
  match ctl_method this with
  | once =>
      when_ (notSilentSignal error)
        (settle this (ResultRejected error) ;;
         handleError error (ro_onError (ctl_options this))) ;;
      swallow stop
  | continuous =>
      when_ (notSilentSignal error)
        (handleError error (ro_onError (ctl_options this)) ;;
         when_ (shouldLogError error)
           (logError (ThrownVoiceError error)
              (Some "UnifiedRecognitionController.continuous")))
  end.

(** [activeRecognitionSession === this.session] *)
Definition sameRecognitionSession (current : option RecognitionSession)
    (s : RecognitionSession) : bool :=
  match current with
  | Some c => (rs_abortController c =? rs_abortController s)%nat
  | None => false
  end.

(** The [.catch] handler on the promise of [stt.start]. *)
Definition onStartRejected (this : Controller) (error : Thrown) : M unit :=
  let voiceError := toVoiceError error STT_FAILED in
  match ctl_method this with
  | once =>
      when_ (negb (code_eqb (code voiceError) ABORTED))
        (settle this (ResultRejected voiceError) ;;
         handleError voiceError (ro_onError (ctl_options this)))
  | continuous =>
      when_ (negb (code_eqb (code voiceError) ABORTED))
        (handleError voiceError (ro_onError (ctl_options this)) ;;
         when_ (shouldLogError voiceError)
           (logError (ThrownVoiceError voiceError)
              (Some "UnifiedRecognitionController.continuous.catch")))
  end ;;
  current <- gets activeRecognitionSession ;;
  when_ (sameRecognitionSession current (session this))
    (setActiveRecognitionSession None).

Definition startRecognition (options : RecognizeOptions) : M Controller :=
  engine <- gets stt ;;
  match engine with
  | None =>
      throw (ThrownVoiceError
               (createVoiceError STT_NOT_AVAILABLE
                  "Speech recognition not available" None))
  | Some _ =>
      active <- gets activeRecognitionSession ;;
      when_ (isSome active)
        (setActiveRecognitionSession None ;;
         swallow stopRecognition) ;;
      let method := orDefault (ro_method options) continuous in
      newUnifiedRecognitionController method options
  end.

(* ================================================================== *)
(** * Conversation orchestrator *)
(* ================================================================== *)

(** The engine's signals up to the one that settles the promise of
    [recognizeOnce]; [None] when no signal settles it. *)
Fixpoint hearUntilSettled (withPartial : bool) (signals : list SttSignal)
    : M (option RecognitionResult) :=
  match signals with
  | [] => ret None
  | SttPartial t :: rest =>
      when_ withPartial (addInterimTranscript user t) ;;
      hearUntilSettled withPartial rest
  | SttFinal t confidence :: _ =>
      addFinalTranscript user t ;;
      now <- dateNow ;;
      ret (Some (mkRecognitionResult t now confidence))
  | SttError error :: rest =>
      if notSilentSignal error then throw (ThrownVoiceError error)
      else hearUntilSettled withPartial rest
  end.

(** [await recognizeOnce({ caption, signal })]: the result, a rejection
    (thrown), or [None] when the promise never settles. *)
Definition recognizeOnce (withPartial : bool)
    (signal : option AbortController) : M (option RecognitionResult) :=
  engine <- gets stt ;;
  match engine with
  | None =>
      throw (ThrownVoiceError
               (createVoiceError STT_NOT_AVAILABLE
                  "Speech recognition not available" None))
  | Some sttEngine =>
      abortController <- newAbortController ;;
      emit (EvSttStart (orDefault signal abortController) withPartial) ;;
      match stt_start sttEngine with
      | StartRejected error =>
          let voiceError := toVoiceError error STT_FAILED in
          if negb (code_eqb (code voiceError) ABORTED)
          then throw (ThrownVoiceError voiceError)
          else ret None
      | StartSignals signals => hearUntilSettled withPartial signals
      end
  end.

Definition stopConversation : M unit :=
  active <- gets activeConversationLoop ;;
  match active with
  | Some loop =>
      abort (cl_abortController loop) ;;
      modify (set_activeConversationLoop None) ;;
      notifyConversation
  | None => ret tt
  end ;;
  swallow stopRecognition ;;
  swallow stopSynthesis.

Record ConversationOptions : Type := mkConversationOptions {
  co_method : option Method;
  co_caption : option bool
}.

(** What [startConversation] closes over for [onRecognition]. *)
Record ConversationChain : Type := mkConversationChain {
  cc_method : Method;
  cc_caption : bool;
  cc_abortController : AbortController
}.

Definition startConversation (options : option ConversationOptions)
    : M ConversationChain :=
  let method :=
    orDefault (match options with Some o => co_method o | None => None end)
      continuous in
  let withPartial :=
    orDefault (match options with Some o => co_caption o | None => None end)
      true in
  active <- gets activeConversationLoop ;;
  when_ (isSome active) stopConversation ;;
  abortController <- newAbortController ;;
  modify (set_activeConversationLoop
            (Some (mkConversationLoop true abortController))) ;;
  notifyConversation ;;
  ret (mkConversationChain method withPartial abortController).

Record LoopOptions : Type := mkLoopOptions {
  pauseMs : option Z
}.

Definition MIN_PAUSE_MS : Z := 500.
Definition DEFAULT_PAUSE_MS : Z := 1000.

(** [loopOptions?.pauseMs ?? DEFAULT_PAUSE_MS] *)
Definition requestedPause (loopOptions : option LoopOptions) : Z :=
  orDefault
    (match loopOptions with Some o => pauseMs o | None => None end)
    DEFAULT_PAUSE_MS.

(** [Math.max(requestedPause, MIN_PAUSE_MS)] *)
Definition effectivePause (loopOptions : option LoopOptions) : Z :=
  Z.max (requestedPause loopOptions) MIN_PAUSE_MS.

(** [await new Promise((resolve) => setTimeout(resolve, ms))] *)
Definition sleep (ms : Z) : M unit := emit (EvSetTimeout ms).

(** The callback given to [onRecognition], by what it does with a result. *)
Definition UserCallback : Type := RecognitionResult -> Outcome string.

Definition callUser (callback : UserCallback) (r : RecognitionResult)
    : M string :=
  emit (EvUserCallback r) ;;
  match callback r with
  | Returned response => ret response
  | Threw v => throw v
  end.

(** Whether [stopConversation()] is called by the application while the
    loop is suspended in each of its first three [await]s. *)
Record Interleaving : Type := mkInterleaving {
  stopWhileListening : bool;
  stopWhileResponding : bool;
  stopWhileSpeaking : bool
}.

Definition undisturbed : Interleaving := mkInterleaving false false false.

(** How one pass through the body of the [do ... while] ends. *)
Inductive BodyExit : Type :=
| BodyEnd        (* the [try] block ran to its end *)
| BodyRetry      (* the [catch] block waited for the retry *)
| BodyBreak      (* [break] *)
| BodyContinue   (* [continue] *)
| BodyPending.   (* suspended in an [await] that never settles *)

Definition thrownCode (error : Thrown) : option VoiceErrorCode :=
  match error with
  | ThrownVoiceError e => Some (code e)
  | _ => None
  end.

Definition thrownCodeIs (c : VoiceErrorCode) (error : Thrown) : bool :=
  match thrownCode error with
  | Some c' => code_eqb c' c
  | None => false
  end.

(** [isSystemError], [shouldLogError] and the truthiness of [recoverable]
    on the value the [catch] casts to [VoiceError]. *)
Definition thrownIsSystemError (error : Thrown) : bool :=
  match error with
  | ThrownVoiceError e => isSystemError e
  | _ => false
  end.

Definition thrownShouldLog (error : Thrown) : bool :=
  match error with
  | ThrownVoiceError e => shouldLogError e
  | _ => true
  end.

Definition thrownRecoverable (error : Thrown) : bool :=
  match error with
  | ThrownVoiceError e => orDefault (recoverable e) false
  | _ => false
  end.

Definition logLoopError (error : Thrown) : M unit :=
  when_ (thrownShouldLog error) (logError error (Some "Conversation loop")).

(** The [catch] block of the loop body. *)
Definition conversationCatch (error : Thrown) : M BodyExit :=
  running <- gets loopRunning ;;
  if thrownCodeIs ABORTED error || negb running then ret BodyBreak
  else if thrownCodeIs NO_SPEECH error then ret BodyContinue
  else if thrownIsSystemError error
  then logLoopError error ;; ret BodyBreak
  else if negb (thrownRecoverable error)
  then logLoopError error ;; ret BodyBreak
  else logLoopError error ;; sleep 1000 ;; ret BodyRetry.

(** The body of the [do ... while] of [onRecognition]. *)
Definition conversationBody (chain : ConversationChain) (pause : Z)
    (callback : UserCallback) (i : Interleaving) : M BodyExit :=
  tryCatch
    (heard <- recognizeOnce (cc_caption chain)
                (Some (cc_abortController chain)) ;;
     match heard with
     | None => ret BodyPending
     | Some result =>
         when_ (stopWhileListening i) stopConversation ;;
         running <- gets loopRunning ;;
         if negb running then ret BodyBreak
         else
           response <- callUser callback result ;;
           when_ (stopWhileResponding i) stopConversation ;;
           running <- gets loopRunning ;;
           if negb running then ret BodyBreak
           else
             startSynthesis response noSynthesizeOptions ;;
             when_ (stopWhileSpeaking i) stopConversation ;;
             running <- gets loopRunning ;;
             when_ running (sleep pause) ;;
             ret BodyEnd
     end)
    conversationCatch.

(** The condition of the [do ... while]. *)
Definition loopContinues (method : Method) (s : State) : bool :=
  match method with
  | continuous => loopRunning s
  | once => false
  end.

Inductive LoopEnd : Type :=
| LoopCleanedUp
| LoopPending
| LoopStillRunning.

Definition loopCleanup : M unit :=
  modify (set_activeConversationLoop None) ;;
  notifyConversation.

(** The background loop; one element of [turns] for each pass: the
    callback's behaviour and the interleaving of that pass. *)
Fixpoint conversationLoop (chain : ConversationChain) (pause : Z)
    (turns : list (UserCallback * Interleaving)) : M LoopEnd :=
  match turns with
  | [] => ret LoopStillRunning
  | (callback, i) :: rest =>
      exit <- conversationBody chain pause callback i ;;
      match exit with
      | BodyPending => ret LoopPending
      | BodyBreak => loopCleanup ;; ret LoopCleanedUp
      | BodyEnd | BodyRetry | BodyContinue =>
          again <- gets (loopContinues (cc_method chain)) ;;
          if again then conversationLoop chain pause rest
          else loopCleanup ;; ret LoopCleanedUp
      end
  end.

(** [chain.onRecognition(callback, loopOptions)] *)
Definition onRecognition (chain : ConversationChain)
    (loopOptions : option LoopOptions)
    (turns : list (UserCallback * Interleaving)) : M LoopEnd :=
  conversationLoop chain (effectivePause loopOptions) turns.

(** The state of the module when it is loaded. *)
Definition initialState : State :=
  mkState None None [] false false false None None None None
    [] None [] None [] None [] None [] None None true 0%Z 0%nat 0%nat [].

(* ================================================================== *)
(** * Observations used in the statements *)
(* ================================================================== *)

(** What a guarded call of a listener adds to the events. *)
Definition listenerTrace (d : Domain) (l : Listener) : list Event :=
  EvListener d (listenerId l) ::
  match listenerThrows l with
  | Some v => [EvConsoleError (ListenerFailure d v)]
  | None => []
  end.

Definition guardedTrace (d : Domain) (ls : list Listener) : list Event :=
  flat_map (listenerTrace d) ls.

(** What the unguarded loop over the listeners adds to the events, and how
    it ends: it stops at the first listener that throws. *)
Fixpoint unguardedTrace (d : Domain) (ls : list Listener) : list Event :=
  match ls with
  | [] => []
  | l :: rest =>
      EvListener d (listenerId l) ::
      match listenerThrows l with
      | Some _ => []
      | None => unguardedTrace d rest
      end
  end.

Fixpoint unguardedOutcome (ls : list Listener) : Outcome unit :=
  match ls with
  | [] => Returned tt
  | l :: rest =>
      match listenerThrows l with
      | Some v => Threw v
      | None => unguardedOutcome rest
      end
  end.

(** The events appended between two states. *)
Definition newEvents (before after : State) : list Event :=
  skipn (List.length (events before)) (events after).

(** The listeners of a domain that were called, in order. *)
Fixpoint calledListeners (d : Domain) (evs : list Event) : list nat :=
  match evs with
  | [] => []
  | EvListener d' l :: rest =>
      match d, d' with
      | SynthesisDomain, SynthesisDomain
      | RecognitionDomain, RecognitionDomain
      | TranscriptDomain, TranscriptDomain
      | QonvoDomain, QonvoDomain
      | ConversationDomain, ConversationDomain =>
          l :: calledListeners d rest
      | _, _ => calledListeners d rest
      end
  | _ :: rest => calledListeners d rest
  end.

(** The abort controllers signaled so far. *)
Fixpoint abortedControllers (evs : list Event) : list AbortController :=
  match evs with
  | [] => []
  | EvAbort c :: rest => c :: abortedControllers rest
  | _ :: rest => abortedControllers rest
  end.

Definition signaled (c : AbortController) (s : State) : bool :=
  existsb (Nat.eqb c) (abortedControllers (events s)).

(** The errors that [logError] gave to [console.error]. *)
Fixpoint loggedErrors (evs : list Event) : list Thrown :=
  match evs with
  | [] => []
  | EvConsoleError (LoggedVoiceError _ e) :: rest =>
      ThrownVoiceError e :: loggedErrors rest
  | EvConsoleError (LoggedError _ v) :: rest => v :: loggedErrors rest
  | _ :: rest => loggedErrors rest
  end.

(** The trigger callbacks that were called, each with the controller it
    received. *)
Fixpoint firedTriggers (evs : list Event) : list (nat * nat) :=
  match evs with
  | [] => []
  | EvTrigger cb ctl :: rest => (cb, ctl) :: firedTriggers rest
  | _ :: rest => firedTriggers rest
  end.

(** An event that retires a session: an abort signal or an engine
    [stop]. *)
Definition retires (e : Event) : bool :=
  match e with
  | EvAbort _ | EvSttStop | EvTtsStop => true
  | _ => false
  end.

Definition retiresNothing (evs : list Event) : bool :=
  forallb (fun e => negb (retires e)) evs.

(** The enrichment table of the specification: for each code the flags
    [userAction], [recoverable] and [needsPermission], [None] for a dash. *)
Definition enrichmentTable (c : VoiceErrorCode)
    : option bool * option bool * option bool :=
  match c with
  | ABORTED => (Some true, Some false, None)
  | NO_SPEECH => (Some false, Some true, None)
  | PERMISSION_DENIED | NOT_SUPPORTED | TTS_NOT_AVAILABLE
  | STT_NOT_AVAILABLE => (None, Some true, Some true)
  | TTS_FAILED | STT_FAILED | AUDIO_CAPTURE_FAILED | CONVERSATION_ERROR
  | NETWORK_ERROR => (None, Some true, None)
  | INVALID_STATE => (None, Some false, None)
  end.

Definition enrichment (e : VoiceError)
    : option bool * option bool * option bool :=
  (userAction e, recoverable e, needsPermission e).

(** ** Example engines, listeners and states *)

Definition quietTts : TTSEngine :=
  mkTTSEngine (fun _ => Resolved) Resolved Resolved Resolved
    (mkAvailability false true).

Definition quietStt : STTEngine :=
  mkSTTEngine (StartSignals []) Resolved (mkAvailability true false).

(** The module with both engines bound. *)
Definition boundState : State :=
  set_tts (Some quietTts) (set_stt (Some quietStt) initialState).

Definition throwingListener : Listener :=
  mkListener 1 (Some (ThrownValue "boom")).

Definition quietListener : Listener := mkListener 2 None.

(** Both engines bound, a conversation loop running, and a recognition
    engine that reports the partial result "pi" and the final result
    "ping". *)
Definition pingState : State :=
  set_activeConversationLoop (Some (mkConversationLoop true 0))
    (set_nextAbortController 1
       (set_stt
          (Some (mkSTTEngine
                   (StartSignals [SttPartial "pi"; SttFinal "ping" None])
                   Resolved (mkAvailability true false)))
          boundState)).

(** ** The transcript store *)

(** The number of interim entries of a role. *)
Definition interimCount (r : Role) (t : list TranscriptEntry) : nat :=
  List.length (filter (isInterimOf r) t).

(** The view that [getTranscriptSnapshot] computes from a transcript. *)
Definition transcriptView (t : list TranscriptEntry) : TranscriptSnapshot :=
  mkTranscriptSnapshot (filter (fun e => final e) t)
    (lastText (filter (fun e => negb (final e)) t)).

(** The states of the module, as far as the transcript and its cached
    snapshot go: [transcript] is assigned by [addInterimTranscript],
    [addFinalTranscript] and [clearTranscript] only, the cache by
    [getTranscriptSnapshot] and [notifyTranscript] only; every other step
    of the module leaves both as they are. *)
Inductive TranscriptReachable : State -> Prop :=
| reach_loaded : forall s,
    transcript s = [] -> cachedTranscriptSnapshot s = None ->
    TranscriptReachable s
| reach_addInterim : forall s r txt,
    TranscriptReachable s ->
    TranscriptReachable (snd (addInterimTranscript r txt s))
| reach_addFinal : forall s r txt,
    TranscriptReachable s ->
    TranscriptReachable (snd (addFinalTranscript r txt s))
| reach_clear : forall s,
    TranscriptReachable s -> TranscriptReachable (snd (clearTranscript s))
| reach_getSnapshot : forall s,
    TranscriptReachable s ->
    TranscriptReachable (snd (getTranscriptSnapshot s))
| reach_notify : forall s,
    TranscriptReachable s -> TranscriptReachable (snd (notifyTranscript s))
| reach_elsewhere : forall s s',
    TranscriptReachable s ->
    transcript s' = transcript s ->
    cachedTranscriptSnapshot s' = cachedTranscriptSnapshot s ->
    TranscriptReachable s'.

(** The cached transcript snapshot, when there is one, is the view of the
    current transcript. *)
Definition cacheFresh (s : State) : Prop :=
  match cachedTranscriptSnapshot s with
  | Some snap => snap = transcriptView (transcript s)
  | None => True
  end.

(** The transcript that [addInterimTranscript] and [addFinalTranscript]
    leave, in closed form. *)
Definition interimTranscript (r : Role) (txt : string)
    (t : list TranscriptEntry) (now : Z) (random : nat)
    : list TranscriptEntry :=
  match findIndex (isInterimOf r) t with
  | Some i =>
      match nth_error t i with
      | Some old => setAt i (mkEntry (id old) r txt now false) t
      | None => t
      end
  | None => t ++ [mkEntry (now, random) r txt now false]
  end.

Definition finalTranscript (r : Role) (txt : string)
    (t : list TranscriptEntry) (now : Z) (random : nat)
    : list TranscriptEntry :=
  filter (fun e => negb (isInterimOf r e)) t
  ++ [mkEntry (now, random) r txt now true].

(** ** The error pipeline in closed form *)

(** What a guarded call of an [onError] callback adds to the events. *)
Definition onErrorTrace (global : bool) (cb : option ErrorCallback)
    (e : VoiceError) : list Event :=
  match cb with
  | Some c =>
      EvOnError global (callbackId c) e ::
      match callbackThrows c e with
      | Some v => [EvConsoleError (OnErrorFailure global v)]
      | None => []
      end
  | None => []
  end.

(** The state that [handleError] leaves, its events apart. *)
Definition recordError (e : VoiceError) (s : State) : State :=
  let aborted := code_eqb (code e) ABORTED in
  set_cachedQonvoSnapshot
    (if aborted then cachedQonvoSnapshot s else None)
    (set_lastError (if aborted then lastError s else Some e) s).

Definition handleTrace (e : VoiceError) (cb : option ErrorCallback)
    (listeners : list Listener) (global : option ErrorCallback)
    : list Event :=
  (if code_eqb (code e) ABORTED then []
   else guardedTrace QonvoDomain listeners)
  ++ onErrorTrace false cb e
  ++ onErrorTrace true global e.

(** What [logError] adds to the events. *)
Definition logTrace (error : Thrown) (context : option string)
    (enabled : bool) : list Event :=
  if enabled then
    match error with
    | ThrownVoiceError e =>
        if shouldLogError e
        then [EvConsoleError (LoggedVoiceError (logPrefix context) e)]
        else []
    | _ => [EvConsoleError (LoggedError (logPrefix context) error)]
    end
  else [].

(** An engine report of silence. *)
Definition noSpeechError : VoiceError :=
  createVoiceError NO_SPEECH "No speech detected" None.

(** The options with which [startSynthesis] calls [processVoiceError]. *)
Definition synthesisProcessOptions (onErr : option ErrorCallback)
    : ProcessOptions :=
  mkProcessOptions (Some TTS_FAILED) onErr (Some handleError) (Some true).

(** ** The stop calls in closed form *)

(** What the [catch] block of a stop call adds to the events when the
    engine's [stop] settles as [r]. *)
Definition stopFailureTrace (r : Settled) (defaultCode : VoiceErrorCode)
    (context : string) (enabled : bool) : list Event :=
  match r with
  | Resolved => []
  | Rejected v =>
      logTrace (ThrownVoiceError (toVoiceError v defaultCode))
        (Some context) enabled
  end.

(** The state after the session of a category was cleared. *)
Definition synthesisCleared (s : State) : State :=
  set_cachedSynthesisSnapshot None (set_activeSynthesisSession None s).

Definition recognitionCleared (s : State) : State :=
  set_cachedRecognitionSnapshot None (set_activeRecognitionSession None s).

(** An [AbortError], as the web synthesis engine rejects with. *)
Definition abortError : Thrown :=
  ThrownError (mkJsError "AbortError" "Speech was aborted").

(** A synthesis engine whose [stop] rejects with an [AbortError]. *)
Definition abortingTts : TTSEngine :=
  mkTTSEngine (fun _ => Resolved) Resolved Resolved (Rejected abortError)
    (mkAvailability false true).

(** A synthesis engine whose [stop] rejects with another error. *)
Definition failingTts : TTSEngine :=
  mkTTSEngine (fun _ => Resolved) Resolved Resolved
    (Rejected (ThrownError (mkJsError "Error" "device lost")))
    (mkAvailability false true).

(** A synthesis session that is speaking, and one that was paused at 5. *)
Definition speakingSession : SynthesisSession :=
  mkSynthesisSession "hello" 7 3 None.

Definition pausedSession : SynthesisSession :=
  mkSynthesisSession "hello" 7 3 (Some 5%Z).

(** The module with the engines bound, the [AbortController]s up to 7
    taken, the clock at 9 and a synthesis session active. *)
Definition speakingState (engine : TTSEngine) (session : SynthesisSession)
    : State :=
  set_activeSynthesisSession (Some session)
    (set_clock 9%Z
       (set_nextAbortController 8 (set_tts (Some engine) boundState))).

(** ** Pause and resume in closed form *)

(** The [catch] block of [pauseSynthesis] and [resumeSynthesis]: what it
    adds to the events and how the call ends, when the [try] block ended
    as [o]. *)
Definition failureLogTrace (o : Outcome unit) (context : string)
    (enabled : bool) : list Event :=
  match o with
  | Returned _ => []
  | Threw v =>
      logTrace (ThrownVoiceError (toVoiceError v TTS_FAILED)) (Some context)
        enabled
  end.

Definition loggedAndRethrown (o : Outcome unit) : Outcome unit :=
  match o with
  | Returned _ => Returned tt
  | Threw v =>
      if code_eqb (code (toVoiceError v TTS_FAILED)) ABORTED
      then Returned tt
      else Threw (ThrownVoiceError (toVoiceError v TTS_FAILED))
  end.

(** The state after [setActiveSynthesisSession(session)], its events
    apart. *)
Definition synthesisPublished (session : SynthesisSession) (s : State)
    : State :=
  set_cachedSynthesisSnapshot None
    (set_activeSynthesisSession (Some session) s).

(** ** A failed [startSynthesis] in closed form *)

(** The state that [startSynthesis] leaves when the engine's [start]
    fails with [e], its events apart. *)
Definition startFailureState (txt : string) (e : VoiceError) (s : State)
    : State :=
  synthesisCleared
    (recordError e
       (set_cachedTranscriptSnapshot None
          (set_transcript
             (finalTranscript assistant txt (transcript s) (clock s)
                (entropy s))
             (set_entropy (S (entropy s))
                (set_cachedQonvoSnapshot None
                   (set_lastError None
                      (set_nextAbortController (S (nextAbortController s))
                         s))))))).

(** The events of a [startSynthesis] that finds no session and whose
    engine call fails with [e]. *)
Definition startFailureTrace (txt : string) (options : SynthesizeOptions)
    (e : VoiceError) (s : State) : list Event :=
  unguardedTrace SynthesisDomain (synthesisListeners s)
  ++ guardedTrace QonvoDomain (qonvoListeners s)
  ++ guardedTrace TranscriptDomain (transcriptListeners s)
  ++ [EvTtsStart txt
        (orDefault (so_signal options) (nextAbortController s))]
  ++ handleTrace e (so_onError options) (qonvoListeners s) (globalOnError s)
  ++ logTrace (ThrownVoiceError e) (Some "startSynthesis")
       (errorLoggingEnabled s)
  ++ unguardedTrace SynthesisDomain (synthesisListeners s).

(** A synthesis engine whose [start] rejects. *)
Definition brokenTts : TTSEngine :=
  mkTTSEngine
    (fun _ => Rejected (ThrownError (mkJsError "Error" "synthesis-failed")))
    Resolved Resolved Resolved (mkAvailability false true).

(** ** Sessions started one after the other *)

(** The state after [startRecognition()] on the bound module, and after a
    second [startRecognition()] while the first session is active. *)
Definition listeningOnce : State :=
  snd (startRecognition noRecognizeOptions boundState).

Definition listeningTwice : State :=
  snd (startRecognition noRecognizeOptions listeningOnce).

(** A synthesis session active and two synthesis listeners subscribed, the
    first of which throws. *)
Definition observedState : State :=
  set_synthesisListeners [throwingListener; quietListener]
    (speakingState quietTts speakingSession).

(** ** Phrase triggers *)

(** The registered triggers whose phrase matches a text, in the order of
    the registry. *)
Definition matchingTriggers (txt : string)
    (registry : list (string * TriggerCallback))
    : list (string * TriggerCallback) :=
  filter (fun entry => Text.matchPhrase txt (fst entry)) registry.

(** The callbacks that a loop over [cbs] calls: all of them up to and
    including the first that throws. *)
Fixpoint firedUntilThrow (cbs : list TriggerCallback)
    : list TriggerCallback :=
  match cbs with
  | [] => []
  | cb :: rest =>
      cb ::
      match triggerThrows cb with
      | Some _ => []
      | None => firedUntilThrow rest
      end
  end.

Fixpoint triggersOutcome (cbs : list TriggerCallback) : Outcome unit :=
  match cbs with
  | [] => Returned tt
  | cb :: rest =>
      match triggerThrows cb with
      | Some v => Threw v
      | None => triggersOutcome rest
      end
  end.

Definition returns (cb : TriggerCallback) : bool :=
  negb (isSome (triggerThrows cb)).

(** A continuous controller on which "yes" and then "yes please" were
    registered; [first] and [second] are the two callbacks. *)
Definition yesController (first second : TriggerCallback) : Controller :=
  when_then "yes please" second
    (when_then "yes" first
       (mkController []
          (mkRecognitionSession continuous_session 4 (Some 4%nat) 0%Z)
          continuous noRecognizeOptions)).

(* ================================================================== *)
(** * Further functions of the module and of its callers *)
(* ================================================================== *)

(** ** Unsubscribing

    The function that [subscribeToX(listener)] returns:
    [() => listeners.delete(listener)]. *)

Definition unsubscribeFromSynthesis (l : Listener) : M unit :=
  modify (fun s =>
    set_synthesisListeners (setDelete l (synthesisListeners s)) s).

Definition unsubscribeFromRecognition (l : Listener) : M unit :=
  modify (fun s =>
    set_recognitionListeners (setDelete l (recognitionListeners s)) s).

Definition unsubscribeFromTranscript (l : Listener) : M unit :=
  modify (fun s =>
    set_transcriptListeners (setDelete l (transcriptListeners s)) s).

Definition unsubscribeFromQonvo (l : Listener) : M unit :=
  modify (fun s => set_qonvoListeners (setDelete l (qonvoListeners s)) s).

Definition unsubscribeFromConversation (l : Listener) : M unit :=
  modify (fun s =>
    set_conversationListeners (setDelete l (conversationListeners s)) s).

(** The identities of a list of listeners; a [Set] holds each once. *)
Definition listenerIds (ls : list Listener) : list nat := map listenerId ls.

(** ** [errors.ts]: [safeCleanup] and [createErrorMapper] *)

(** [safeCleanup(fn, context)], for a [fn] whose call settles as [fn]. *)
Definition safeCleanup (fn : Settled) (context : string) : M unit :=
  tryCatch (await fn)
    (fun error =>
       logError (ThrownVoiceError (toVoiceError error INVALID_STATE))
         (Some (context ++ " cleanup")%string)).










(** ** [platform.ts] and [context.tsx] *)

(** [initializePlatform(sttEngine, ttsEngine)] *)
Definition initializePlatform (sttEngine : option STTEngine)
    (ttsEngine : option TTSEngine) : M unit :=
  setEngines sttEngine ttsEngine ;;
  refreshAvailability.

(** The snapshots that [useQonvo] gives to [useSyncExternalStore] for the
    server. *)
Definition CONVERSATION_SERVER_SNAPSHOT : ConversationSnapshot :=
  mkConversationSnapshot false false.

Definition RECOGNITION_SERVER_SNAPSHOT : RecognitionSnapshot :=
  mkRecognitionSnapshot false false.

Definition SYNTHESIS_SERVER_SNAPSHOT : SynthesisSnapshot :=
  mkSynthesisSnapshot false false false.

Definition TRANSCRIPT_SERVER_SNAPSHOT : TranscriptSnapshot :=
  mkTranscriptSnapshot [] None.

Definition QONVO_SERVER_SNAPSHOT : QonvoSnapshot :=
  mkQonvoSnapshot false None.

(** A module on which nothing happened yet, whatever the engines bound
    and the listeners subscribed. *)
Definition pristine (s : State) : Prop :=
  transcript s = [] /\ isReady s = false
  /\ isRecognitionAvailable s = false /\ isSynthesisAvailable s = false
  /\ activeRecognitionSession s = None /\ activeSynthesisSession s = None
  /\ lastError s = None /\ activeConversationLoop s = None
  /\ cachedSynthesisSnapshot s = None /\ cachedRecognitionSnapshot s = None
  /\ cachedTranscriptSnapshot s = None /\ cachedQonvoSnapshot s = None
  /\ cachedConversationSnapshot s = None.

(** ** [listLanguages] and [getLanguageName] of [voice.ts] *)

(** An element of the result of [listVoices()]. *)
Record Voice : Type := mkVoice {
  voice_id : string;
  voice_name : string;
  voice_lang : string
}.

(** An element of the result of [listLanguages()]. *)
Record Language : Type := mkLanguage {
  lang_code : string;
  lang_name : string;
  lang_voiceCount : nat
}.

(** [Set.prototype.add] on a set of strings. *)
Definition setAddString (x : string) (xs : list string) : list string :=
  if existsb (String.eqb x) xs then xs else xs ++ [x].

(** [Map.prototype.has] and [Map.prototype.get]. *)
Definition mapHas {V : Type} (k : string) (m : list (string * V)) : bool :=
  existsb (fun entry => String.eqb (fst entry) k) m.

Fixpoint mapGet {V : Type} (k : string) (m : list (string * V))
    : option V :=
  match m with
  | [] => None
  | (k', v) :: rest => if String.eqb k' k then Some v else mapGet k rest
  end.

(** One step of [voices.forEach]:
    [if (!langMap.has(v.lang)) langMap.set(v.lang, new Set());
     langMap.get(v.lang)!.add(v.name)]. *)
Definition groupVoice (langMap : list (string * list string)) (v : Voice)
    : list (string * list string) :=
  let langMap1 :=
    if mapHas (voice_lang v) langMap then langMap
    else mapSet (voice_lang v) [] langMap in
  match mapGet (voice_lang v) langMap1 with
  | Some names =>
      mapSet (voice_lang v) (setAddString (voice_name v) names) langMap1
  | None => langMap1
  end.

Definition groupVoices (voices : list Voice) : list (string * list string) :=
  fold_left groupVoice voices [].

(** [Intl.DisplayNames] for English: the name of a language and of a
    region; a call of [of] returns a string or [undefined], or throws a
    [RangeError]. *)
Record DisplayNames : Type := mkDisplayNames {
  languageOf : string -> Outcome (option string);
  regionOf : string -> Outcome (option string)
}.

(** [code.split('-')]: the parts between the dashes. *)
Fixpoint splitDash (s : string) : list string :=
  match s with
  | EmptyString => [EmptyString]
  | String c rest =>
      if Ascii.eqb c "-"%char then EmptyString :: splitDash rest
      else
        match splitDash rest with
        | first :: others => String c first :: others
        | [] => [String c EmptyString]
        end
  end.

(** [value || fallback] for a string or [undefined]. *)
Definition orElse (value : option string) (fallback : string) : string :=
  match value with
  | Some (String c r) => String c r
  | _ => fallback
  end.

(** [getLanguageName(code)]; [intl] is [None] where [Intl.DisplayNames]
    does not exist. *)
Definition getLanguageName (intl : option DisplayNames) (code : string)
    : string :=
  match intl with
  | None => code
  | Some displayNames =>
      let parts := splitDash code in
      let lang := nth 0 parts EmptyString in
      match nth_error parts 1 with
      | Some (String c r) =>
          let region := String c r in
          match languageOf displayNames lang with
          | Threw _ => code
          | Returned l =>
              match regionOf displayNames region with
              | Threw _ => code
              | Returned g =>
                  (orElse l lang ++ " (" ++ orElse g region ++ ")")%string
              end
          end
      | _ =>
          match languageOf displayNames lang with
          | Threw _ => code
          | Returned l => orElse l code
          end
      end
  end.

(** [array.sort(compare)], for a consistent comparator: a stable sort. *)
Fixpoint insertSorted {A : Type} (compare : A -> A -> Z) (x : A)
    (sorted : list A) : list A :=
  match sorted with
  | [] => [x]
  | y :: rest =>
      if (compare x y <? 0)%Z then x :: y :: rest
      else y :: insertSorted compare x rest
  end.

Definition sortWith {A : Type} (compare : A -> A -> Z) (l : list A)
    : list A :=
  fold_left (fun sorted x => insertSorted compare x sorted) l [].

(** The body of [listLanguages()] after [const voices = await
    listVoices()]; [localeCompare] is [String.prototype.localeCompare]. *)
Definition listLanguages (intl : option DisplayNames)
    (localeCompare : string -> string -> Z) (voices : list Voice)
    : list Language :=
  sortWith (fun a b => localeCompare (lang_name a) (lang_name b))
    (map (fun entry =>
            mkLanguage (fst entry) (getLanguageName intl (fst entry))
              (List.length (snd entry)))
       (groupVoices voices)).

(** The number of distinct names among the voices of a language. *)
Definition distinctNames (code : string) (voices : list Voice) : nat :=
  List.length
    (nodup string_dec
       (map voice_name
          (filter (fun v => String.eqb (voice_lang v) code) voices))).

(** ** Further observations *)

(** The views that the snapshot functions compute from the state. *)
Definition synthesisView (s : State) : SynthesisSnapshot :=
  mkSynthesisSnapshot (isSome (activeSynthesisSession s))
    (match activeSynthesisSession s with
     | Some session => isSome (ss_pausedAt session)
     | None => false
     end)
    (isSynthesisAvailable s).

Definition recognitionView (s : State) : RecognitionSnapshot :=
  mkRecognitionSnapshot (isSome (activeRecognitionSession s))
    (isRecognitionAvailable s).

Definition qonvoView (s : State) : QonvoSnapshot :=
  mkQonvoSnapshot (isReady s) (lastError s).

Definition conversationView (s : State) : ConversationSnapshot :=
  mkConversationSnapshot (isSome (activeConversationLoop s))
    (isSynthesisAvailable s && isRecognitionAvailable s).

(** The registry functions of a domain. *)
Definition listenersOf (d : Domain) (s : State) : list Listener :=
  match d with
  | SynthesisDomain => synthesisListeners s
  | RecognitionDomain => recognitionListeners s
  | TranscriptDomain => transcriptListeners s
  | QonvoDomain => qonvoListeners s
  | ConversationDomain => conversationListeners s
  end.

Definition subscribeTo (d : Domain) : Listener -> M unit :=
  match d with
  | SynthesisDomain => subscribeToSynthesis
  | RecognitionDomain => subscribeToRecognition
  | TranscriptDomain => subscribeToTranscript
  | QonvoDomain => subscribeToQonvo
  | ConversationDomain => subscribeToConversation
  end.

Definition unsubscribeFrom (d : Domain) : Listener -> M unit :=
  match d with
  | SynthesisDomain => unsubscribeFromSynthesis
  | RecognitionDomain => unsubscribeFromRecognition
  | TranscriptDomain => unsubscribeFromTranscript
  | QonvoDomain => unsubscribeFromQonvo
  | ConversationDomain => unsubscribeFromConversation
  end.

Definition notify (d : Domain) : M unit :=
  match d with
  | SynthesisDomain => notifySynthesis
  | RecognitionDomain => notifyRecognition
  | TranscriptDomain => notifyTranscript
  | QonvoDomain => notifyQonvo
  | ConversationDomain => notifyConversation
  end.

Definition otherRole (r : Role) : Role :=
  match r with
  | user => assistant
  | assistant => user
  end.

(** The calls of [onError] callbacks: per-operation ([false]) or global
    ([true]), and the callback called. *)
Fixpoint onErrorCalls (evs : list Event) : list (bool * nat) :=
  match evs with
  | [] => []
  | EvOnError global cb _ :: rest => (global, cb) :: onErrorCalls rest
  | _ :: rest => onErrorCalls rest
  end.

(** The settlements of controller promises. *)
Fixpoint settlements (evs : list Event) : list (nat * ResultSettled) :=
  match evs with
  | [] => []
  | EvSettle ctl r :: rest => (ctl, r) :: settlements rest
  | _ :: rest => settlements rest
  end.

(** The abort signals and engine calls, in order. *)
Definition isEngineEvent (e : Event) : bool :=
  match e with
  | EvAbort _ | EvSttStart _ _ | EvSttStop | EvTtsStart _ _ | EvTtsPause
  | EvTtsResume | EvTtsStop => true
  | _ => false
  end.

Definition engineEvents (evs : list Event) : list Event :=
  filter isEngineEvent evs.


(** A signal that does not settle the promise of [recognizeOnce]: a
    partial result, or an error with the code [ABORTED] or [NO_SPEECH]. *)
Definition unsettling (signal : SttSignal) : bool :=
  match signal with
  | SttPartial _ => true
  | SttError e => negb (notSilentSignal e)
  | SttFinal _ _ => false
  end.


(** The module after the first render of [useQonvo] read the conversation
    snapshot, before the platform was initialized. *)
Definition renderedState : State :=
  snd (getConversationSnapshot boundState).

(** The error that [startRecognition] and [recognizeOnce] throw when no
    recognition engine is bound. *)
Definition sttNotAvailable : VoiceError :=
  createVoiceError STT_NOT_AVAILABLE "Speech recognition not available" None.

(** The user callbacks that were called, by the result they received. *)
Fixpoint userCalls (evs : list Event) : list RecognitionResult :=
  match evs with
  | [] => []
  | EvUserCallback r :: rest => r :: userCalls rest
  | _ :: rest => userCalls rest
  end.

(** ** A successful [startSynthesis] in closed form *)

(** The state that [startSynthesis] leaves when the engine's [start]
    resolves, its events apart, and the events of the call when it finds
    no session. *)
Definition startSuccessState (txt : string) (s : State) : State :=
  synthesisCleared
    (set_cachedTranscriptSnapshot None
       (set_transcript
          (finalTranscript assistant txt (transcript s) (clock s)
             (entropy s))
          (set_entropy (S (entropy s))
             (set_cachedQonvoSnapshot None
                (set_lastError None
                   (set_nextAbortController (S (nextAbortController s))
                      s)))))).

Definition startSuccessTrace (txt : string) (options : SynthesizeOptions)
    (s : State) : list Event :=
  unguardedTrace SynthesisDomain (synthesisListeners s)
  ++ guardedTrace QonvoDomain (qonvoListeners s)
  ++ guardedTrace TranscriptDomain (transcriptListeners s)
  ++ [EvTtsStart txt
        (orDefault (so_signal options) (nextAbortController s))]
  ++ unguardedTrace SynthesisDomain (synthesisListeners s).



(** A recognition engine that reports a partial result and then
    silence. *)
Definition mutedStt : STTEngine :=
  mkSTTEngine (StartSignals [SttPartial "um"; SttError noSpeechError])
    Resolved (mkAvailability true false).

(** The grouping of the voices seen so far. *)
Definition grouped (m : list (string * list string)) (vs : list Voice)
    : Prop :=
  NoDup (map fst m)
  /\ (forall code, In code (map fst m) <-> In code (map voice_lang vs))
  /\ (forall code names,
        In (code, names) m ->
        NoDup names
        /\ forall n,
             In n names
             <-> In n (map voice_name
                         (filter (fun v => String.eqb (voice_lang v) code)
                            vs))).

(* ================================================================== *)
(** * Proofs *)
(* ================================================================== *)

(* ================================================================== *)
(** * Error enrichment *)
(* ================================================================== *)

Lemma enrichErrorMetadata_idempotent (e : VoiceError) :
  enrichErrorMetadata (enrichErrorMetadata e) = enrichErrorMetadata e.
Proof. destruct e as [c n m ca cx ua np rc]; destruct c; reflexivity. Qed.

(** C4.  The flags of a constructed [VoiceError] are those of the
    enrichment table at its code, whatever the message and the options:
    [ABORTED] gives [userAction = true] and [recoverable = false],
    [NO_SPEECH] gives [userAction = false] and [recoverable = true], the
    permission and availability codes give [needsPermission = true] and
    [recoverable = true], [INVALID_STATE] gives [recoverable = false].
    Enriching a constructed error again changes nothing. *)
Theorem createVoiceError_enrichment :
  forall (msg : string) (options : option ErrorOptions),
    (forall c, enrichment (createVoiceError c msg options) = enrichmentTable c)
    /\ (forall c, code (createVoiceError c msg options) = c)
    /\ (userAction (createVoiceError ABORTED msg options) = Some true
        /\ recoverable (createVoiceError ABORTED msg options) = Some false)
    /\ (userAction (createVoiceError NO_SPEECH msg options) = Some false
        /\ recoverable (createVoiceError NO_SPEECH msg options) = Some true)
    /\ (needsPermission (createVoiceError PERMISSION_DENIED msg options)
          = Some true
        /\ recoverable (createVoiceError PERMISSION_DENIED msg options)
          = Some true)
    /\ (needsPermission (createVoiceError NOT_SUPPORTED msg options)
          = Some true
        /\ recoverable (createVoiceError NOT_SUPPORTED msg options)
          = Some true)
    /\ (needsPermission (createVoiceError TTS_NOT_AVAILABLE msg options)
          = Some true
        /\ recoverable (createVoiceError TTS_NOT_AVAILABLE msg options)
          = Some true)
    /\ (needsPermission (createVoiceError STT_NOT_AVAILABLE msg options)
          = Some true
        /\ recoverable (createVoiceError STT_NOT_AVAILABLE msg options)
          = Some true)
    /\ recoverable (createVoiceError INVALID_STATE msg options) = Some false
    /\ (forall c,
          enrichErrorMetadata (createVoiceError c msg options)
          = createVoiceError c msg options).
Proof.
  intros msg options.
  repeat split; try (intro c; destruct c; reflexivity).
Qed.

(* ================================================================== *)
(** * Conversation pacing *)
(* ================================================================== *)

Lemma effectivePause_floor (loopOptions : option LoopOptions) :
  (MIN_PAUSE_MS <= effectivePause loopOptions)%Z.
Proof. unfold effectivePause. apply Z.le_max_r. Qed.

(** The [catch] block never ends a pass the way the [try] block does. *)
Lemma conversationCatch_not_BodyEnd (error : Thrown) (s s' : State) :
  conversationCatch error s <> (Returned BodyEnd, s').
Proof.
  unfold conversationCatch, bind, gets, ret, sleep, emit, modify.
  destruct (thrownCodeIs ABORTED error || negb (loopRunning s));
    [discriminate|].
  destruct (thrownCodeIs NO_SPEECH error); [discriminate|].
  destruct (thrownIsSystemError error).
  - destruct (logLoopError error s) as [[[]|v] s1]; discriminate.
  - destruct (negb (thrownRecoverable error));
      destruct (logLoopError error s) as [[[]|v] s1]; discriminate.
Qed.

(** C5.  When a pass of the conversation loop runs its [try] block to the
    end (recognition, callback and synthesis succeeded) and the loop is
    still running, the last thing it did is wait
    [max(requestedPauseMs, 500)] milliseconds; the requested pause is
    1000 ms by default, a request of 100 ms gives 500 ms, and the pause is
    never below 500 ms.  A continuous loop goes on to its next pass, and so
    to its next recognition attempt, from the state that this wait
    leaves. *)
Theorem conversation_pause_floor :
  forall (loopOptions : option LoopOptions) (chain : ConversationChain)
         (callback : UserCallback) (i : Interleaving) (s s' : State),
    conversationBody chain (effectivePause loopOptions) callback i s
      = (Returned BodyEnd, s') ->
    loopRunning s' = true ->
    (exists before,
        events s'
        = before ++ [EvSetTimeout (Z.max (requestedPause loopOptions) 500)])
    /\ (500 <= effectivePause loopOptions)%Z
    /\ requestedPause None = 1000%Z
    /\ requestedPause (Some (mkLoopOptions None)) = 1000%Z
    /\ effectivePause (Some (mkLoopOptions (Some 100%Z))) = 500%Z
    /\ (forall rest,
          cc_method chain = continuous ->
          onRecognition chain loopOptions ((callback, i) :: rest) s
          = conversationLoop chain (effectivePause loopOptions) rest s').
Proof.
  intros loopOptions chain callback i s s' Hbody Hrun.
  split;
    [|split; [apply effectivePause_floor|];
      split; [reflexivity|]; split; [reflexivity|]; split; [reflexivity|];
      intros rest Hm; unfold onRecognition; cbn [conversationLoop];
      unfold bind at 1; rewrite Hbody; unfold bind at 1, gets at 1;
      unfold loopContinues; rewrite Hm, Hrun; reflexivity].
  unfold conversationBody, tryCatch in Hbody.
  match type of Hbody with
  | context [match ?m s with _ => _ end] =>
      destruct (m s) as [[exit|v] s1] eqn:Htry
  end.
  2:{ exfalso. eapply conversationCatch_not_BodyEnd; eassumption. }
  inversion Hbody; subst exit s1; clear Hbody.
  unfold bind in Htry.
  destruct (recognizeOnce _ _ s) as [[[result|]|v] s1]; try discriminate.
  destruct (when_ (stopWhileListening i) stopConversation s1)
    as [[[]|v] s2]; try discriminate.
  unfold gets at 1 in Htry.
  destruct (negb (loopRunning s2)); [discriminate|].
  destruct (callUser callback result s2) as [[response|v] s3];
    try discriminate.
  destruct (when_ (stopWhileResponding i) stopConversation s3)
    as [[[]|v] s4]; try discriminate.
  unfold gets at 1 in Htry.
  destruct (negb (loopRunning s4)); [discriminate|].
  destruct (startSynthesis response noSynthesizeOptions s4)
    as [[[]|v] s5]; try discriminate.
  destruct (when_ (stopWhileSpeaking i) stopConversation s5)
    as [[[]|v] s6]; try discriminate.
  unfold gets, when_, sleep, emit, modify, ret in Htry.
  destruct (loopRunning s6) eqn:Hr6.
  - inversion Htry; subst s'. exists (events s6). reflexivity.
  - inversion Htry; subst s'. congruence.
Qed.

(** A pass that hears "ping", answers "echo: ping" and was asked for a
    pause of 100 ms. *)
Lemma conversation_pause_floor_witness :
  exists before,
    events
      (snd (conversationBody (mkConversationChain continuous true 0)
              (effectivePause (Some (mkLoopOptions (Some 100%Z))))
              (fun r => Returned ("echo: " ++ rr_text r)%string)
              undisturbed pingState))
    = before ++ [EvSetTimeout 500].
Proof.
  refine (proj1 (conversation_pause_floor (Some (mkLoopOptions (Some 100%Z)))
            (mkConversationChain continuous true 0)
            (fun r => Returned ("echo: " ++ rr_text r)%string)
            undisturbed pingState _ _ _)).
  - vm_compute. reflexivity.
  - vm_compute. reflexivity.
Defined.

(* ================================================================== *)
(** * Running the listener loops *)
(* ================================================================== *)

(** Projections of assigned states. *)
Ltac simpl_state :=
  cbn [stt tts transcript isReady isRecognitionAvailable isSynthesisAvailable
       activeRecognitionSession activeSynthesisSession lastError globalOnError
       synthesisListeners cachedSynthesisSnapshot recognitionListeners
       cachedRecognitionSnapshot transcriptListeners cachedTranscriptSnapshot
       qonvoListeners cachedQonvoSnapshot conversationListeners
       cachedConversationSnapshot activeConversationLoop errorLoggingEnabled
       clock entropy nextAbortController events
       set_stt set_tts set_transcript set_isReady set_isRecognitionAvailable
       set_isSynthesisAvailable set_activeRecognitionSession
       set_activeSynthesisSession set_lastError set_globalOnError
       set_synthesisListeners set_cachedSynthesisSnapshot
       set_recognitionListeners set_cachedRecognitionSnapshot
       set_transcriptListeners set_cachedTranscriptSnapshot set_qonvoListeners
       set_cachedQonvoSnapshot set_conversationListeners
       set_cachedConversationSnapshot set_activeConversationLoop
       set_errorLoggingEnabled set_clock set_entropy set_nextAbortController
       set_events recordError synthesisCleared recognitionCleared
       synthesisPublished fst snd].

Ltac simpl_state_in H :=
  cbn [stt tts transcript isReady isRecognitionAvailable isSynthesisAvailable
       activeRecognitionSession activeSynthesisSession lastError globalOnError
       synthesisListeners cachedSynthesisSnapshot recognitionListeners
       cachedRecognitionSnapshot transcriptListeners cachedTranscriptSnapshot
       qonvoListeners cachedQonvoSnapshot conversationListeners
       cachedConversationSnapshot activeConversationLoop errorLoggingEnabled
       clock entropy nextAbortController events
       set_stt set_tts set_transcript set_isReady set_isRecognitionAvailable
       set_isSynthesisAvailable set_activeRecognitionSession
       set_activeSynthesisSession set_lastError set_globalOnError
       set_synthesisListeners set_cachedSynthesisSnapshot
       set_recognitionListeners set_cachedRecognitionSnapshot
       set_transcriptListeners set_cachedTranscriptSnapshot set_qonvoListeners
       set_cachedQonvoSnapshot set_conversationListeners
       set_cachedConversationSnapshot set_activeConversationLoop
       set_errorLoggingEnabled set_clock set_entropy set_nextAbortController
       set_events recordError synthesisCleared recognitionCleared
       synthesisPublished fst snd] in H.

Lemma set_events_same (s : State) : set_events (events s ++ []) s = s.
Proof. destruct s; unfold set_events; simpl. now rewrite app_nil_r. Qed.

Lemma forEach_guarded (d : Domain) (ls : list Listener) : forall s,
  forEach (callListenerGuarded d) ls s
  = (Returned tt, set_events (events s ++ guardedTrace d ls) s).
Proof.
  induction ls as [|l ls IH]; intro s.
  - simpl. now rewrite set_events_same.
  - cbn [forEach]. unfold bind at 1.
    unfold callListenerGuarded at 1, tryCatch, callListener, bind,
      consoleError, emit, modify.
    destruct (listenerThrows l) as [v|] eqn:E; cbn;
      rewrite IH; cbn; unfold listenerTrace; rewrite E; cbn;
      rewrite <- !app_assoc; reflexivity.
Qed.

Lemma forEach_unguarded (d : Domain) (ls : list Listener) : forall s,
  forEach (callListener d) ls s
  = (unguardedOutcome ls,
     set_events (events s ++ unguardedTrace d ls) s).
Proof.
  induction ls as [|l ls IH]; intro s.
  - simpl. now rewrite set_events_same.
  - cbn [forEach unguardedOutcome unguardedTrace]. unfold bind at 1.
    unfold callListener at 1, bind, emit, modify.
    destruct (listenerThrows l) as [v|] eqn:E; cbn.
    + reflexivity.
    + rewrite IH. cbn. rewrite <- !app_assoc. reflexivity.
Qed.

Lemma notifySynthesis_run (s : State) :
  notifySynthesis s
  = (Returned tt,
     set_events
       (events s ++ guardedTrace SynthesisDomain (synthesisListeners s))
       (set_cachedSynthesisSnapshot None s)).
Proof.
  unfold notifySynthesis, bind, modify, gets.
  rewrite forEach_guarded. reflexivity.
Qed.

Lemma notifyRecognition_run (s : State) :
  notifyRecognition s
  = (Returned tt,
     set_events
       (events s ++ guardedTrace RecognitionDomain (recognitionListeners s))
       (set_cachedRecognitionSnapshot None s)).
Proof.
  unfold notifyRecognition, bind, modify, gets.
  rewrite forEach_guarded. reflexivity.
Qed.

Lemma notifyTranscript_run (s : State) :
  notifyTranscript s
  = (Returned tt,
     set_events
       (events s ++ guardedTrace TranscriptDomain (transcriptListeners s))
       (set_cachedTranscriptSnapshot None s)).
Proof.
  unfold notifyTranscript, bind, modify, gets.
  rewrite forEach_guarded. reflexivity.
Qed.

Lemma notifyQonvo_run (s : State) :
  notifyQonvo s
  = (Returned tt,
     set_events (events s ++ guardedTrace QonvoDomain (qonvoListeners s))
       (set_cachedQonvoSnapshot None s)).
Proof.
  unfold notifyQonvo, bind, modify, gets.
  rewrite forEach_guarded. reflexivity.
Qed.

Lemma notifyConversation_run (s : State) :
  notifyConversation s
  = (Returned tt,
     set_events
       (events s
        ++ guardedTrace ConversationDomain (conversationListeners s))
       (set_cachedConversationSnapshot None s)).
Proof.
  unfold notifyConversation, bind, modify, gets.
  rewrite forEach_guarded. reflexivity.
Qed.

Lemma setActiveSynthesisSession_run (x : option SynthesisSession)
    (s : State) :
  setActiveSynthesisSession x s
  = (unguardedOutcome (synthesisListeners s),
     set_events
       (events s ++ unguardedTrace SynthesisDomain (synthesisListeners s))
       (set_cachedSynthesisSnapshot None (set_activeSynthesisSession x s))).
Proof.
  unfold setActiveSynthesisSession, bind, modify, gets.
  rewrite forEach_unguarded. reflexivity.
Qed.

Lemma setActiveRecognitionSession_run (x : option RecognitionSession)
    (s : State) :
  setActiveRecognitionSession x s
  = (unguardedOutcome (recognitionListeners s),
     set_events
       (events s
        ++ unguardedTrace RecognitionDomain (recognitionListeners s))
       (set_cachedRecognitionSnapshot None
          (set_activeRecognitionSession x s))).
Proof.
  unfold setActiveRecognitionSession, bind, modify, gets.
  rewrite forEach_unguarded. reflexivity.
Qed.

Lemma setError_run (e : option VoiceError) (s : State) :
  setError e s
  = (Returned tt,
     set_events (events s ++ guardedTrace QonvoDomain (qonvoListeners s))
       (set_cachedQonvoSnapshot None (set_lastError e s))).
Proof.
  unfold setError, bind, modify. rewrite notifyQonvo_run. reflexivity.
Qed.

(* ================================================================== *)
(** * Transcript store *)
(* ================================================================== *)

Lemma findIndex_None {A : Type} (p : A -> bool) (l : list A) :
  findIndex p l = None -> filter p l = [].
Proof.
  induction l as [|x l IH]; simpl; [reflexivity|].
  destruct (p x); [discriminate|].
  destruct (findIndex p l); [discriminate|]. auto.
Qed.

Lemma findIndex_Some {A : Type} (p : A -> bool) (l : list A) (i : nat) :
  findIndex p l = Some i -> exists x, nth_error l i = Some x /\ p x = true.
Proof.
  revert i. induction l as [|x l IH]; simpl; intros i H; [discriminate|].
  destruct (p x) eqn:Hp.
  - inversion H; subst. exists x. split; [reflexivity|assumption].
  - destruct (findIndex p l) as [j|]; [|discriminate].
    inversion H; subst. simpl. apply IH. reflexivity.
Qed.

Lemma filter_setAt {A : Type} (p : A -> bool) (l : list A) (i : nat)
    (old v : A) :
  nth_error l i = Some old -> p v = p old ->
  List.length (filter p (setAt i v l)) = List.length (filter p l).
Proof.
  revert i. induction l as [|x l IH]; intros i Hn Hp;
    [destruct i; discriminate|].
  destruct i as [|i]; simpl in *.
  - inversion Hn; subst. rewrite Hp. destruct (p old); reflexivity.
  - destruct (p x); simpl; rewrite (IH i Hn Hp); reflexivity.
Qed.

Lemma filter_length_le {A : Type} (p q : A -> bool) (l : list A) :
  List.length (filter p (filter q l)) <= List.length (filter p l).
Proof.
  induction l as [|x l IH]; simpl; [lia|].
  destruct (q x); simpl; destruct (p x); simpl; lia.
Qed.

Lemma role_eqb_eq (a b : Role) : role_eqb a b = true <-> a = b.
Proof. destruct a, b; simpl; split; congruence. Qed.


Lemma addFinalTranscript_run (r : Role) (txt : string) (s : State) :
  addFinalTranscript r txt s
  = (Returned tt,
     set_events
       (events s ++ guardedTrace TranscriptDomain (transcriptListeners s))
       (set_cachedTranscriptSnapshot None
          (set_transcript
             (finalTranscript r txt (transcript s) (clock s) (entropy s))
             (set_entropy (S (entropy s)) s)))).
Proof.
  unfold addFinalTranscript, generateId, dateNow, mathRandom, bind, modify,
    gets, ret.
  rewrite notifyTranscript_run. reflexivity.
Qed.

Lemma addInterimTranscript_run (r : Role) (txt : string) (s : State) :
  addInterimTranscript r txt s
  = (Returned tt,
     set_events
       (events s ++ guardedTrace TranscriptDomain (transcriptListeners s))
       (set_cachedTranscriptSnapshot None
          (set_transcript
             (interimTranscript r txt (transcript s) (clock s) (entropy s))
             (set_entropy
                (match findIndex (isInterimOf r) (transcript s) with
                 | Some _ => entropy s
                 | None => S (entropy s)
                 end) s)))).
Proof.
  unfold addInterimTranscript, interimTranscript, generateId, dateNow,
    mathRandom, bind, modify, gets, ret.
  destruct (findIndex (isInterimOf r) (transcript s)) as [i|].
  - destruct (nth_error (transcript s) i) as [old|];
      rewrite notifyTranscript_run; reflexivity.
  - rewrite notifyTranscript_run. reflexivity.
Qed.

Lemma clearTranscript_run (s : State) :
  clearTranscript s
  = (Returned tt,
     set_events
       (events s ++ guardedTrace TranscriptDomain (transcriptListeners s))
       (set_cachedTranscriptSnapshot None (set_transcript [] s))).
Proof.
  unfold clearTranscript, bind, modify.
  rewrite notifyTranscript_run. reflexivity.
Qed.

Lemma getTranscriptSnapshot_run (s : State) :
  getTranscriptSnapshot s
  = match cachedTranscriptSnapshot s with
    | Some snap => (Returned snap, s)
    | None =>
        (Returned (transcriptView (transcript s)),
         set_cachedTranscriptSnapshot
           (Some (transcriptView (transcript s))) s)
    end.
Proof.
  unfold getTranscriptSnapshot, bind, gets, modify, ret.
  destruct (cachedTranscriptSnapshot s); reflexivity.
Qed.

Lemma interimTranscript_count (r r' : Role) (txt : string) (s : State) :
  interimCount r' (transcript s) <= 1 ->
  interimCount r'
    (interimTranscript r txt (transcript s) (clock s) (entropy s)) <= 1.
Proof.
  unfold interimCount, interimTranscript. intros H.
  destruct (findIndex (isInterimOf r) (transcript s)) as [i|] eqn:Hf.
  - destruct (findIndex_Some _ _ _ Hf) as [old [Hn Hp]]. rewrite Hn.
    rewrite (filter_setAt (isInterimOf r') (transcript s) i old); auto.
    unfold isInterimOf in *. simpl.
    apply andb_true_iff in Hp. destruct Hp as [Hr Hfin].
    apply role_eqb_eq in Hr. rewrite Hr.
    apply negb_true_iff in Hfin. rewrite Hfin. reflexivity.
  - rewrite filter_app, length_app. simpl.
    destruct (isInterimOf r' (mkEntry (clock s, entropy s) r txt (clock s)
                                false)) eqn:Hnew; simpl; [|lia].
    unfold isInterimOf in Hnew. simpl in Hnew.
    rewrite andb_true_r in Hnew. apply role_eqb_eq in Hnew. subst r'.
    rewrite (findIndex_None _ _ Hf). simpl. lia.
Qed.

Lemma finalTranscript_count_other (r r' : Role) (txt : string) (s : State) :
  interimCount r' (finalTranscript r txt (transcript s) (clock s) (entropy s))
  <= interimCount r' (transcript s).
Proof.
  unfold interimCount, finalTranscript.
  rewrite filter_app, length_app.
  replace (filter (isInterimOf r')
             [mkEntry (clock s, entropy s) r txt (clock s) true])
    with (@nil TranscriptEntry)
    by (unfold isInterimOf; simpl; now rewrite andb_false_r).
  simpl. rewrite Nat.add_0_r. apply filter_length_le.
Qed.

Lemma finalTranscript_count_same (r : Role) (txt : string) (s : State) :
  interimCount r
    (finalTranscript r txt (transcript s) (clock s) (entropy s)) = 0.
Proof.
  unfold interimCount, finalTranscript.
  rewrite filter_app, length_app.
  replace (filter (isInterimOf r)
             [mkEntry (clock s, entropy s) r txt (clock s) true])
    with (@nil TranscriptEntry)
    by (unfold isInterimOf; simpl; now rewrite andb_false_r).
  simpl. rewrite Nat.add_0_r.
  induction (transcript s) as [|x l IH]; simpl; [reflexivity|].
  destruct (isInterimOf r x) eqn:E; simpl; [assumption|].
  rewrite E. assumption.
Qed.

Lemma transcriptView_final (t : list TranscriptEntry) :
  forallb final (entries (transcriptView t)) = true.
Proof.
  unfold transcriptView. simpl.
  induction t as [|x t IH]; simpl; [reflexivity|].
  destruct (final x) eqn:E; simpl; [rewrite E|]; assumption.
Qed.

(** What holds in every reachable state of the transcript store. *)
Lemma reachable_invariant (s : State) :
  TranscriptReachable s ->
  (forall r, interimCount r (transcript s) <= 1) /\ cacheFresh s.
Proof.
  unfold cacheFresh.
  induction 1 as [s Ht Hc | s r txt _ [IHc IHf] | s r txt _ [IHc IHf]
                  | s _ [IHc IHf] | s _ [IHc IHf] | s _ [IHc IHf]
                  | s s' _ [IHc IHf] Ht Hc].
  - rewrite Ht, Hc. split; [intro r; unfold interimCount; simpl; lia|exact I].
  - rewrite addInterimTranscript_run. simpl. split; [|exact I].
    intro r'. apply interimTranscript_count. apply IHc.
  - rewrite addFinalTranscript_run. simpl. split; [|exact I].
    intro r'. eapply Nat.le_trans; [apply finalTranscript_count_other|].
    apply IHc.
  - rewrite clearTranscript_run. simpl. split; [|exact I].
    intro r; unfold interimCount; simpl; lia.
  - rewrite getTranscriptSnapshot_run.
    destruct (cachedTranscriptSnapshot s) as [snap|] eqn:E; simpl.
    + rewrite E. split; assumption.
    + split; [assumption|reflexivity].
  - rewrite notifyTranscript_run. simpl. split; [assumption|exact I].
  - rewrite Ht, Hc. split; assumption.
Qed.

(** C3.  In every reachable state each role has at most one interim
    entry; [addFinalTranscript] returns, leaves no interim entry of the
    role, and the transcript it leaves is the previous one without the
    interim entries of the role followed by one final entry with the role
    and the text; the entries of the snapshot handed to consumers are
    exactly the final entries of the transcript, in order, and none of them
    is interim. *)
Theorem transcript_store_invariant :
  forall s : State,
    TranscriptReachable s ->
    (forall r, interimCount r (transcript s) <= 1)
    /\ (forall r txt,
          fst (addFinalTranscript r txt s) = Returned tt
          /\ interimCount r (transcript (snd (addFinalTranscript r txt s)))
             = 0
          /\ exists e,
               transcript (snd (addFinalTranscript r txt s))
               = filter (fun t => negb (isInterimOf r t)) (transcript s)
                 ++ [e]
               /\ role e = r /\ text e = txt /\ final e = true)
    /\ (exists snap s',
          getTranscriptSnapshot s = (Returned snap, s')
          /\ entries snap = filter (fun e => final e) (transcript s)
          /\ forallb final (entries snap) = true).
Proof.
  intros s Hreach.
  destruct (reachable_invariant s Hreach) as [Hcount Hfresh].
  split; [exact Hcount|]. split.
  - intros r txt. rewrite addFinalTranscript_run. simpl.
    split; [reflexivity|]. split; [apply finalTranscript_count_same|].
    eexists. split; [reflexivity|]. simpl. auto.
  - rewrite getTranscriptSnapshot_run. unfold cacheFresh in Hfresh.
    destruct (cachedTranscriptSnapshot s) as [snap|].
    + exists snap, s. subst snap. split; [reflexivity|].
      split; [reflexivity|apply transcriptView_final].
    + eexists. eexists. split; [reflexivity|].
      split; [reflexivity|apply transcriptView_final].
Qed.

(** A state reached by a partial result, a final result and a read of the
    snapshot. *)
Lemma transcript_store_invariant_witness :
  interimCount user
    (transcript
       (snd (getTranscriptSnapshot
               (snd (addFinalTranscript user "hello world"
                       (snd (addInterimTranscript user "hello"
                               initialState))))))) <= 1.
Proof.
  refine (proj1 (transcript_store_invariant _ _) user).
  apply reach_getSnapshot, reach_addFinal, reach_addInterim, reach_loaded;
    reflexivity.
Defined.

(* ================================================================== *)
(** * Error pipeline *)
(* ================================================================== *)

Lemma logError_run (error : Thrown) (context : option string) (s : State) :
  logError error context s
  = (Returned tt,
     set_events
       (events s ++ logTrace error context (errorLoggingEnabled s)) s).
Proof.
  unfold logError, logTrace, bind, gets, ret, consoleError, emit, modify.
  destruct (errorLoggingEnabled s); cbn.
  - destruct error as [e|e|v]; cbn; try reflexivity.
    destruct (shouldLogError e); cbn; [reflexivity|].
    now rewrite set_events_same.
  - now rewrite set_events_same.
Qed.

Lemma handleError_run (e : VoiceError) (cb : option ErrorCallback)
    (s : State) :
  handleError e cb s
  = (Returned tt,
     set_events
       (events s ++ handleTrace e cb (qonvoListeners s) (globalOnError s))
       (recordError e s)).
Proof.
  unfold handleError, handleTrace, recordError, onErrorTrace.
  destruct (code_eqb (code e) ABORTED); cbn [negb when_].
  - unfold bind, ret, gets, tryCatch, callOnError, bind, consoleError, emit,
      modify.
    destruct cb as [c|]; cbn;
      [destruct (callbackThrows c e); cbn|];
      (destruct (globalOnError s) as [g|]; cbn;
       [destruct (callbackThrows g e); cbn|]);
      rewrite <- ?app_assoc; cbn; try reflexivity.
    rewrite app_nil_r. destruct s; reflexivity.
  - unfold bind at 1. rewrite setError_run.
    unfold bind, ret, gets, tryCatch, callOnError, bind, consoleError, emit,
      modify.
    destruct cb as [c|]; cbn;
      [destruct (callbackThrows c e); cbn|];
      (destruct (globalOnError s) as [g|]; cbn;
       [destruct (callbackThrows g e); cbn|]);
      rewrite <- ?app_assoc; cbn; try reflexivity.
    now rewrite app_nil_r.
Qed.

Lemma processVoiceError_run (error : Thrown) (context : string)
    (options : ProcessOptions) (s : State) :
  let e :=
    toVoiceError error (orDefault (po_defaultCode options) TTS_FAILED) in
  po_handleError options = Some handleError ->
  processVoiceError error context options s
  = (if orDefault (po_shouldThrow options) true
        && negb (code_eqb (code e) ABORTED)
     then Threw (ThrownVoiceError e) else Returned e,
     set_events
       (events s
        ++ handleTrace e (po_onError options) (qonvoListeners s)
             (globalOnError s)
        ++ logTrace (ThrownVoiceError e) (Some context)
             (errorLoggingEnabled s))
       (recordError e s)).
Proof.
  intros e Hh. unfold processVoiceError. fold e. rewrite Hh.
  unfold bind at 1. rewrite handleError_run.
  unfold bind at 1, when_ at 1, logTrace.
  destruct (shouldLogError e) eqn:Hs.
  - rewrite logError_run. unfold logTrace. rewrite Hs. simpl_state.
    unfold bind, when_, throwVoiceError, ret.
    destruct (orDefault (po_shouldThrow options) true); cbn [andb];
      [destruct (code_eqb (code e) ABORTED)|];
      cbn [negb]; rewrite <- !app_assoc; reflexivity.
  - unfold bind, when_, throwVoiceError, ret.
    destruct (orDefault (po_shouldThrow options) true); cbn [andb];
      [destruct (code_eqb (code e) ABORTED)|];
      cbn [negb]; destruct (errorLoggingEnabled s);
      rewrite ?app_nil_r; reflexivity.
Qed.

Lemma processVoiceError_run_bare (error : Thrown) (context : string)
    (options : ProcessOptions) (s : State) :
  let e :=
    toVoiceError error (orDefault (po_defaultCode options) TTS_FAILED) in
  po_handleError options = None ->
  snd (processVoiceError error context options s)
  = set_events
      (events s
       ++ logTrace (ThrownVoiceError e) (Some context)
            (errorLoggingEnabled s))
      s.
Proof.
  intros e Hh. unfold processVoiceError. fold e. rewrite Hh.
  unfold bind at 1. unfold ret at 1. unfold bind at 1.
  unfold when_ at 1, logTrace.
  destruct (shouldLogError e) eqn:Hs.
  - rewrite logError_run. unfold logTrace. rewrite Hs.
    unfold bind, when_, throwVoiceError, ret.
    destruct (orDefault (po_shouldThrow options) true); cbn;
      [destruct (code_eqb (code e) ABORTED); reflexivity|reflexivity].
  - unfold bind, when_, throwVoiceError, ret.
    destruct (orDefault (po_shouldThrow options) true); cbn [snd];
      [destruct (code_eqb (code e) ABORTED)|]; cbn [snd];
      destruct (errorLoggingEnabled s); now rewrite set_events_same.
Qed.

Lemma loggedErrors_app (a b : list Event) :
  loggedErrors (a ++ b) = loggedErrors a ++ loggedErrors b.
Proof.
  induction a as [|x a IH]; [reflexivity|].
  destruct x as [[]| | | | | | | | | | | | |]; simpl; rewrite ?IH; reflexivity.
Qed.

Lemma loggedErrors_guardedTrace (d : Domain) (ls : list Listener) :
  loggedErrors (guardedTrace d ls) = [].
Proof.
  induction ls as [|l ls IH]; [reflexivity|].
  unfold guardedTrace in *. simpl.
  destruct (listenerThrows l); simpl; assumption.
Qed.

Lemma loggedErrors_onErrorTrace (g : bool) (cb : option ErrorCallback)
    (e : VoiceError) :
  loggedErrors (onErrorTrace g cb e) = [].
Proof.
  destruct cb as [c|]; [|reflexivity]. simpl.
  destruct (callbackThrows c e); reflexivity.
Qed.

Lemma loggedErrors_handleTrace (e : VoiceError) (cb : option ErrorCallback)
    (s : State) :
  loggedErrors (handleTrace e cb (qonvoListeners s) (globalOnError s)) = [].
Proof.
  unfold handleTrace. rewrite !loggedErrors_app, !loggedErrors_onErrorTrace.
  destruct (code_eqb (code e) ABORTED); simpl;
    [reflexivity|now rewrite loggedErrors_guardedTrace].
Qed.

Lemma logTrace_silent (e : VoiceError) (context : option string)
    (enabled : bool) :
  shouldLogError e = false ->
  logTrace (ThrownVoiceError e) context enabled = [].
Proof.
  intros H. unfold logTrace. rewrite H. destruct enabled; reflexivity.
Qed.

Lemma silent_codes (e : VoiceError) :
  code e = ABORTED \/ code e = NO_SPEECH <-> shouldLogError e = false.
Proof.
  unfold shouldLogError. simpl. split.
  - intros [H|H]; rewrite H; reflexivity.
  - destruct (code e); simpl; intros H; try discriminate; auto.
Qed.

(** C2, as stated, fails: a [NO_SPEECH] error that goes through
    [processVoiceError] with [handleError], as in [startSynthesis], becomes
    the last error and shows in the readiness snapshot. *)
Lemma silent_NO_SPEECH_is_recorded :
  code noSpeechError = NO_SPEECH
  /\ lastError
       (snd (processVoiceError (ThrownVoiceError noSpeechError)
               "startSynthesis" (synthesisProcessOptions None) boundState))
     = Some noSpeechError
  /\ fst (getQonvoSnapshot
            (snd (processVoiceError (ThrownVoiceError noSpeechError)
                    "startSynthesis" (synthesisProcessOptions None)
                    boundState)))
     = Returned (mkQonvoSnapshot false (Some noSpeechError))
  /\ lastError (snd (handleError noSpeechError None boundState))
     = Some noSpeechError.
Proof. repeat split. Qed.

(** C2, amended.  An error whose code is [ABORTED] or [NO_SPEECH] and that
    goes through [processVoiceError] (with [handleError] as its handler, or
    with none) is never given to [console.error] by [logError]; with the
    code [ABORTED] the last error and the cached readiness snapshot stay as
    they were; with the code [NO_SPEECH] and [handleError] as the handler
    the error becomes the last error and shows in the readiness
    snapshot. *)
Theorem silent_errors_pipeline :
  forall (error : Thrown) (context : string) (options : ProcessOptions)
         (s : State),
    code (toVoiceError error (orDefault (po_defaultCode options) TTS_FAILED))
      = ABORTED
    \/ code (toVoiceError error (orDefault (po_defaultCode options) TTS_FAILED))
       = NO_SPEECH ->
    po_handleError options = None
    \/ po_handleError options = Some handleError ->
    let e :=
      toVoiceError error (orDefault (po_defaultCode options) TTS_FAILED) in
    let s' := snd (processVoiceError error context options s) in
    loggedErrors (events s') = loggedErrors (events s)
    /\ logError (ThrownVoiceError e) (Some context) s = (Returned tt, s)
    /\ (code e = ABORTED ->
        lastError s' = lastError s
        /\ cachedQonvoSnapshot s' = cachedQonvoSnapshot s
        /\ isReady s' = isReady s)
    /\ (code e = NO_SPEECH ->
        po_handleError options = Some handleError ->
        lastError s' = Some e
        /\ fst (getQonvoSnapshot s')
           = Returned (mkQonvoSnapshot (isReady s) (Some e))).
Proof.
  intros error context options s Hcode Hh e s'.
  assert (Hsilent : shouldLogError e = false)
    by (apply silent_codes; exact Hcode).
  split; [|split; [|split]].
  - subst s'. destruct Hh as [Hh|Hh].
    + rewrite (processVoiceError_run_bare error context options s Hh).
      fold e. cbn. rewrite logTrace_silent by exact Hsilent.
      now rewrite app_nil_r.
    + rewrite (processVoiceError_run error context options s Hh).
      fold e. cbn.
      rewrite logTrace_silent by exact Hsilent.
      rewrite loggedErrors_app, app_nil_r, loggedErrors_handleTrace.
      now rewrite app_nil_r.
  - rewrite logError_run, logTrace_silent by exact Hsilent.
    now rewrite set_events_same.
  - intros Ha. subst s'. destruct Hh as [Hh|Hh].
    + rewrite (processVoiceError_run_bare error context options s Hh).
      repeat split.
    + rewrite (processVoiceError_run error context options s Hh).
      fold e. cbn. unfold recordError. rewrite Ha. repeat split.
  - intros Hn Hh'. subst s'.
    rewrite (processVoiceError_run error context options s Hh').
    fold e. cbn. unfold recordError. rewrite Hn. cbn. split; reflexivity.
Qed.

(** The [NO_SPEECH] error of the counterexample is not logged. *)
Lemma silent_errors_pipeline_witness :
  loggedErrors
    (events
       (snd (processVoiceError (ThrownVoiceError noSpeechError)
               "startSynthesis" (synthesisProcessOptions None) boundState)))
  = loggedErrors (events boundState).
Proof.
  refine (proj1 (silent_errors_pipeline (ThrownVoiceError noSpeechError)
                   "startSynthesis" (synthesisProcessOptions None)
                   boundState _ _)).
  - right. reflexivity.
  - right. reflexivity.
Defined.

(* ================================================================== *)
(** * Stopping a session *)
(* ================================================================== *)

Lemma stopSynthesis_idle (s : State) :
  tts s = None \/ activeSynthesisSession s = None ->
  stopSynthesis s = (Returned tt, s).
Proof.
  unfold stopSynthesis, bind, gets, ret.
  intros [H|H]; rewrite H; [reflexivity|].
  destruct (tts s); reflexivity.
Qed.

Lemma stopRecognition_idle (s : State) :
  stt s = None \/ activeRecognitionSession s = None ->
  stopRecognition s = (Returned tt, s).
Proof.
  unfold stopRecognition, bind, gets, ret.
  intros [H|H]; rewrite H; [reflexivity|].
  destruct (stt s); reflexivity.
Qed.

Lemma stopSynthesis_run (engine : TTSEngine) (session : SynthesisSession)
    (s : State) :
  tts s = Some engine ->
  activeSynthesisSession s = Some session ->
  stopSynthesis s
  = match unguardedOutcome (synthesisListeners s) with
    | Threw v =>
        (Threw v,
         set_events
           (events s
            ++ unguardedTrace SynthesisDomain (synthesisListeners s))
           (synthesisCleared s))
    | Returned _ =>
        (Returned tt,
         set_events
           (events s
            ++ unguardedTrace SynthesisDomain (synthesisListeners s)
            ++ [EvAbort (ss_abortController session); EvTtsStop]
            ++ stopFailureTrace (tts_stop engine) TTS_FAILED "stopSynthesis"
                 (errorLoggingEnabled s))
           (synthesisCleared s))
    end.
Proof.
  intros Ht Ha. unfold stopSynthesis, bind, gets. rewrite Ht, Ha.
  rewrite setActiveSynthesisSession_run.
  destruct (unguardedOutcome (synthesisListeners s)) as [[]|v];
    [|reflexivity].
  unfold abort, emit, modify, tryCatch, callTts, bind, gets. cbn.
  rewrite Ht. unfold emit, modify, await, stopFailureTrace. cbn.
  destruct (tts_stop engine) as [|v]; cbn.
  - unfold ret, synthesisCleared. rewrite <- !app_assoc. reflexivity.
  - unfold throw, when_, logTrace.
    destruct (shouldLogError (toVoiceError v TTS_FAILED)) eqn:Hs.
    + rewrite logError_run. unfold logTrace. rewrite Hs. cbn.
      unfold synthesisCleared. rewrite <- !app_assoc. reflexivity.
    + unfold ret, synthesisCleared.
      destruct (errorLoggingEnabled s); rewrite <- !app_assoc; reflexivity.
Qed.

Lemma stopRecognition_run (engine : STTEngine) (session : RecognitionSession)
    (s : State) :
  stt s = Some engine ->
  activeRecognitionSession s = Some session ->
  stopRecognition s
  = match unguardedOutcome (recognitionListeners s) with
    | Threw v =>
        (Threw v,
         set_events
           (events s
            ++ unguardedTrace RecognitionDomain (recognitionListeners s))
           (recognitionCleared s))
    | Returned _ =>
        (Returned tt,
         set_events
           (events s
            ++ unguardedTrace RecognitionDomain (recognitionListeners s)
            ++ [EvAbort (rs_abortController session); EvSttStop]
            ++ stopFailureTrace (stt_stop engine) STT_FAILED
                 "stopRecognition" (errorLoggingEnabled s))
           (recognitionCleared s))
    end.
Proof.
  intros Ht Ha. unfold stopRecognition, bind, gets. rewrite Ht, Ha.
  rewrite setActiveRecognitionSession_run.
  destruct (unguardedOutcome (recognitionListeners s)) as [[]|v];
    [|reflexivity].
  unfold abort, emit, modify, tryCatch, callSttStop, bind, gets. cbn.
  rewrite Ht. unfold emit, modify, await, stopFailureTrace. cbn.
  destruct (stt_stop engine) as [|v]; cbn.
  - unfold ret, recognitionCleared. rewrite <- !app_assoc. reflexivity.
  - unfold throw, when_, logTrace.
    destruct (shouldLogError (toVoiceError v STT_FAILED)) eqn:Hs.
    + rewrite logError_run. unfold logTrace. rewrite Hs. cbn.
      unfold recognitionCleared. rewrite <- !app_assoc. reflexivity.
    + unfold ret, recognitionCleared.
      destruct (errorLoggingEnabled s); rewrite <- !app_assoc; reflexivity.
Qed.

Lemma newEvents_appended (s x : State) (l : list Event) :
  newEvents s (set_events (events s ++ l) x) = l.
Proof.
  unfold newEvents. cbn.
  rewrite skipn_app, skipn_all, Nat.sub_diag. reflexivity.
Qed.

Lemma newEvents_of_events (s s' : State) (l : list Event) :
  events s' = events s ++ l -> newEvents s s' = l.
Proof.
  intros H. unfold newEvents. rewrite H.
  rewrite skipn_app, skipn_all, Nat.sub_diag. reflexivity.
Qed.

Lemma abortedControllers_app (a b : list Event) :
  abortedControllers (a ++ b) = abortedControllers a ++ abortedControllers b.
Proof.
  induction a as [|x a IH]; [reflexivity|].
  destruct x; simpl; rewrite ?IH; reflexivity.
Qed.

Lemma signaled_appended (c : AbortController) (s x : State)
    (a b : list Event) :
  signaled c (set_events (events s ++ a ++ EvAbort c :: b) x) = true.
Proof.
  unfold signaled. cbn [events set_events].
  rewrite !abortedControllers_app. cbn [abortedControllers].
  rewrite !existsb_app. cbn [existsb]. rewrite Nat.eqb_refl.
  rewrite orb_true_l. now rewrite !orb_true_r.
Qed.

Lemma loggedErrors_unguardedTrace (d : Domain) (ls : list Listener) :
  loggedErrors (unguardedTrace d ls) = [].
Proof.
  induction ls as [|l ls IH]; [reflexivity|]. simpl.
  destruct (listenerThrows l); [reflexivity|assumption].
Qed.

Lemma loggedErrors_stopFailureTrace (r : Settled) (c : VoiceErrorCode)
    (context : string) (s : State) :
  loggedErrors (stopFailureTrace r c context (errorLoggingEnabled s))
  = match r with
    | Resolved => []
    | Rejected v =>
        if errorLoggingEnabled s && shouldLogError (toVoiceError v c)
        then [ThrownVoiceError (toVoiceError v c)]
        else []
    end.
Proof.
  destruct r as [|v]; [reflexivity|]. unfold stopFailureTrace, logTrace.
  destruct (errorLoggingEnabled s); [|reflexivity].
  destruct (shouldLogError (toVoiceError v c)); reflexivity.
Qed.

(** C7, as stated, fails: with a synthesis session active, the engine's
    [stop] rejects with an [AbortError]; [stopSynthesis] returns and gives
    nothing to [console.error]. *)
Lemma stop_failure_not_logged :
  activeSynthesisSession (speakingState abortingTts speakingSession)
  = Some speakingSession
  /\ errorLoggingEnabled (speakingState abortingTts speakingSession) = true
  /\ tts_stop abortingTts = Rejected abortError
  /\ fst (stopSynthesis (speakingState abortingTts speakingSession))
     = Returned tt
  /\ events (snd (stopSynthesis (speakingState abortingTts speakingSession)))
     = [EvAbort 7; EvTtsStop].
Proof. repeat split. Qed.

(** C7, amended.  For both session categories: a stop call with no engine
    bound or no session active returns and leaves the whole state as it
    is, the snapshot caches included; with a session active and listeners
    that return, it returns whatever the engine's [stop] does, the session
    is cleared, its abort controller is signaled, and a failure of the
    engine's [stop] is logged exactly when logging is enabled and the code
    of the failure is neither [ABORTED] nor [NO_SPEECH]. *)
Theorem stop_never_reraises :
  forall s : State,
    (tts s = None \/ activeSynthesisSession s = None ->
     stopSynthesis s = (Returned tt, s))
    /\ (stt s = None \/ activeRecognitionSession s = None ->
        stopRecognition s = (Returned tt, s))
    /\ (forall engine session,
          tts s = Some engine ->
          activeSynthesisSession s = Some session ->
          unguardedOutcome (synthesisListeners s) = Returned tt ->
          fst (stopSynthesis s) = Returned tt
          /\ activeSynthesisSession (snd (stopSynthesis s)) = None
          /\ signaled (ss_abortController session) (snd (stopSynthesis s))
             = true
          /\ loggedErrors (newEvents s (snd (stopSynthesis s)))
             = match tts_stop engine with
               | Resolved => []
               | Rejected v =>
                   if errorLoggingEnabled s
                      && shouldLogError (toVoiceError v TTS_FAILED)
                   then [ThrownVoiceError (toVoiceError v TTS_FAILED)]
                   else []
               end)
    /\ (forall engine session,
          stt s = Some engine ->
          activeRecognitionSession s = Some session ->
          unguardedOutcome (recognitionListeners s) = Returned tt ->
          fst (stopRecognition s) = Returned tt
          /\ activeRecognitionSession (snd (stopRecognition s)) = None
          /\ signaled (rs_abortController session) (snd (stopRecognition s))
             = true
          /\ loggedErrors (newEvents s (snd (stopRecognition s)))
             = match stt_stop engine with
               | Resolved => []
               | Rejected v =>
                   if errorLoggingEnabled s
                      && shouldLogError (toVoiceError v STT_FAILED)
                   then [ThrownVoiceError (toVoiceError v STT_FAILED)]
                   else []
               end).
Proof.
  intro s.
  split; [apply stopSynthesis_idle|].
  split; [apply stopRecognition_idle|].
  split.
  - intros engine session Ht Ha Hl.
    rewrite (stopSynthesis_run engine session s Ht Ha), Hl.
    cbn [fst snd]. split; [reflexivity|]. split; [reflexivity|].
    split; [apply signaled_appended|].
    rewrite newEvents_appended, !loggedErrors_app,
      loggedErrors_unguardedTrace, loggedErrors_stopFailureTrace.
    reflexivity.
  - intros engine session Ht Ha Hl.
    rewrite (stopRecognition_run engine session s Ht Ha), Hl.
    cbn [fst snd]. split; [reflexivity|]. split; [reflexivity|].
    split; [apply signaled_appended|].
    rewrite newEvents_appended, !loggedErrors_app,
      loggedErrors_unguardedTrace, loggedErrors_stopFailureTrace.
    reflexivity.
Qed.

(** An engine whose [stop] fails with a device error: the stop call
    returns and the failure is logged. *)
Lemma stop_never_reraises_witness :
  fst (stopSynthesis (speakingState failingTts speakingSession)) = Returned tt
  /\ loggedErrors
       (newEvents (speakingState failingTts speakingSession)
          (snd (stopSynthesis (speakingState failingTts speakingSession))))
     = [ThrownVoiceError
          (toVoiceError (ThrownError (mkJsError "Error" "device lost"))
             TTS_FAILED)].
Proof.
  destruct (proj1 (proj2 (proj2
              (stop_never_reraises (speakingState failingTts speakingSession))))
              failingTts speakingSession eq_refl eq_refl eq_refl)
    as [H1 [_ [_ H4]]].
  split; [exact H1|exact H4].
Defined.

(* ================================================================== *)
(** * Pausing and resuming synthesis *)
(* ================================================================== *)

Lemma catch_log_rethrow (v : Thrown) (context : string) (s x : State)
    (l : list Event) :
  errorLoggingEnabled x = errorLoggingEnabled s ->
  (logError (ThrownVoiceError (toVoiceError v TTS_FAILED)) (Some context) ;;
   throwVoiceError (toVoiceError v TTS_FAILED))
    (set_events (events s ++ l) x)
  = (loggedAndRethrown (Threw v),
     set_events
       (events s ++ l
        ++ failureLogTrace (Threw v) context (errorLoggingEnabled s))
       x).
Proof.
  intros He. unfold bind. rewrite logError_run.
  unfold throwVoiceError, loggedAndRethrown, failureLogTrace, logTrace.
  cbn [events set_events errorLoggingEnabled]. rewrite He.
  rewrite <- app_assoc.
  destruct (code_eqb (code (toVoiceError v TTS_FAILED)) ABORTED);
    reflexivity.
Qed.

Lemma pauseSynthesis_idle (s : State) :
  tts s = None \/ activeSynthesisSession s = None ->
  pauseSynthesis s = (Returned tt, s).
Proof.
  unfold pauseSynthesis, bind, gets, ret.
  intros [H|H]; rewrite H; [reflexivity|].
  destruct (tts s); reflexivity.
Qed.

Lemma pauseSynthesis_run (engine : TTSEngine) (session : SynthesisSession)
    (s : State) :
  tts s = Some engine ->
  activeSynthesisSession s = Some session ->
  pauseSynthesis s
  = match tts_pause engine with
    | Rejected v =>
        (loggedAndRethrown (Threw v),
         set_events
           (events s ++ [EvTtsPause]
            ++ failureLogTrace (Threw v) "pause" (errorLoggingEnabled s))
           s)
    | Resolved =>
        (loggedAndRethrown (unguardedOutcome (synthesisListeners s)),
         set_events
           (events s ++ [EvTtsPause]
            ++ unguardedTrace SynthesisDomain (synthesisListeners s)
            ++ failureLogTrace (unguardedOutcome (synthesisListeners s))
                 "pause" (errorLoggingEnabled s))
           (synthesisPublished (withPausedAt (Some (clock s)) session) s))
    end.
Proof.
  intros Ht Ha. unfold pauseSynthesis. unfold bind at 1 2, gets at 1 2.
  rewrite Ht, Ha. unfold tryCatch, callTts. unfold bind at 1 2 3, gets at 1.
  rewrite Ht. unfold emit at 1, modify at 1, await.
  destruct (tts_pause engine) as [|v].
  - unfold ret at 1. unfold bind at 1, gets at 1.
    cbn [activeSynthesisSession set_events]. rewrite Ha.
    unfold bind at 1, dateNow, gets at 1. cbn [clock set_events].
    rewrite setActiveSynthesisSession_run.
    cbn [synthesisListeners set_events events].
    destruct (unguardedOutcome (synthesisListeners s)) as [[]|v] eqn:Ho.
    + cbn. unfold synthesisPublished. rewrite app_nil_r, <- app_assoc.
      reflexivity.
    + match goal with
      | |- context [set_events (?a ++ ?b) ?x] =>
          replace (set_events (a ++ b) x)
            with (set_events
                    (events s ++ [EvTtsPause]
                     ++ unguardedTrace SynthesisDomain (synthesisListeners s))
                    (synthesisPublished
                       (withPausedAt (Some (clock s)) session) s))
            by (unfold synthesisPublished; cbn; rewrite <- app_assoc;
                reflexivity)
      end.
      rewrite catch_log_rethrow by reflexivity.
      rewrite <- app_assoc. reflexivity.
  - unfold throw.
    rewrite (catch_log_rethrow v "pause" s s [EvTtsPause] eq_refl).
    reflexivity.
Qed.

Lemma resumeSynthesis_idle (s : State) :
  tts s = None \/ pausedAtTruthy (activeSynthesisSession s) = false ->
  resumeSynthesis s = (Returned tt, s).
Proof.
  unfold resumeSynthesis, bind, gets, ret.
  intros [H|H]; rewrite H; [reflexivity|].
  now rewrite orb_true_r.
Qed.

Lemma resumeSynthesis_run (engine : TTSEngine) (session : SynthesisSession)
    (s : State) :
  tts s = Some engine ->
  activeSynthesisSession s = Some session ->
  pausedAtTruthy (Some session) = true ->
  resumeSynthesis s
  = match tts_resume engine with
    | Rejected v =>
        (loggedAndRethrown (Threw v),
         set_events
           (events s ++ [EvTtsResume]
            ++ failureLogTrace (Threw v) "resume" (errorLoggingEnabled s))
           s)
    | Resolved =>
        (loggedAndRethrown (unguardedOutcome (synthesisListeners s)),
         set_events
           (events s ++ [EvTtsResume]
            ++ unguardedTrace SynthesisDomain (synthesisListeners s)
            ++ failureLogTrace (unguardedOutcome (synthesisListeners s))
                 "resume" (errorLoggingEnabled s))
           (synthesisPublished (withPausedAt None session) s))
    end.
Proof.
  intros Ht Ha Hp. unfold resumeSynthesis. unfold bind at 1 2, gets at 1 2.
  rewrite Ht, Ha, Hp. cbn [isSome negb orb].
  unfold tryCatch, callTts. unfold bind at 1 2 3, gets at 1.
  rewrite Ht. unfold emit at 1, modify at 1, await.
  destruct (tts_resume engine) as [|v].
  - unfold ret at 1. unfold bind at 1, gets at 1.
    cbn [activeSynthesisSession set_events]. rewrite Ha.
    rewrite setActiveSynthesisSession_run.
    cbn [synthesisListeners set_events events].
    destruct (unguardedOutcome (synthesisListeners s)) as [[]|v] eqn:Ho.
    + cbn. unfold synthesisPublished. rewrite app_nil_r, <- app_assoc.
      reflexivity.
    + match goal with
      | |- context [set_events (?a ++ ?b) ?x] =>
          replace (set_events (a ++ b) x)
            with (set_events
                    (events s ++ [EvTtsResume]
                     ++ unguardedTrace SynthesisDomain (synthesisListeners s))
                    (synthesisPublished (withPausedAt None session) s))
            by (unfold synthesisPublished; cbn; rewrite <- app_assoc;
                reflexivity)
      end.
      rewrite catch_log_rethrow by reflexivity.
      rewrite <- app_assoc. reflexivity.
  - unfold throw.
    rewrite (catch_log_rethrow v "resume" s s [EvTtsResume] eq_refl).
    reflexivity.
Qed.

(** C9, as stated, fails: with a session that was paused at 5, a second
    [pauseSynthesis] at 9 calls the engine's [pause] again and overwrites
    [pausedAt]. *)
Lemma pause_acts_on_paused_session :
  activeSynthesisSession (speakingState quietTts pausedSession)
  = Some pausedSession
  /\ ss_pausedAt pausedSession = Some 5%Z
  /\ events (speakingState quietTts pausedSession) = []
  /\ events (snd (pauseSynthesis (speakingState quietTts pausedSession)))
     = [EvTtsPause]
  /\ activeSynthesisSession
       (snd (pauseSynthesis (speakingState quietTts pausedSession)))
     = Some (withPausedAt (Some 9%Z) pausedSession).
Proof. repeat split. Qed.

(** C9, amended.  [pauseSynthesis] does nothing without an engine or
    without a session, and acts whenever a session exists, paused or not:
    it calls the engine's [pause] and, when that resolves, sets [pausedAt]
    of the existing session to the current time and republishes it.
    [resumeSynthesis] does nothing without an engine or without a session
    whose [pausedAt] is set (and not 0), and otherwise calls the engine's
    [resume] and, when that resolves, clears [pausedAt] of the existing
    session and republishes it.  When the engine call rejects the session
    is left as it is.  Neither creates a session: the record keeps its
    text, abort controller and start time, and no abort controller is
    made. *)
Theorem pause_resume_existing_session :
  forall s : State,
    (tts s = None \/ activeSynthesisSession s = None ->
     pauseSynthesis s = (Returned tt, s))
    /\ (tts s = None \/ pausedAtTruthy (activeSynthesisSession s) = false ->
        resumeSynthesis s = (Returned tt, s))
    /\ (forall engine session,
          tts s = Some engine ->
          activeSynthesisSession s = Some session ->
          nextAbortController (snd (pauseSynthesis s))
          = nextAbortController s
          /\ (exists rest,
                newEvents s (snd (pauseSynthesis s)) = EvTtsPause :: rest)
          /\ (tts_pause engine = Resolved ->
              activeSynthesisSession (snd (pauseSynthesis s))
              = Some (mkSynthesisSession (ss_text session)
                        (ss_abortController session) (ss_startedAt session)
                        (Some (clock s)))
              /\ cachedSynthesisSnapshot (snd (pauseSynthesis s)) = None
              /\ exists rest,
                   newEvents s (snd (pauseSynthesis s))
                   = EvTtsPause
                     :: unguardedTrace SynthesisDomain (synthesisListeners s)
                     ++ rest)
          /\ (forall v,
                tts_pause engine = Rejected v ->
                activeSynthesisSession (snd (pauseSynthesis s))
                = Some session))
    /\ (forall engine session,
          tts s = Some engine ->
          activeSynthesisSession s = Some session ->
          pausedAtTruthy (Some session) = true ->
          nextAbortController (snd (resumeSynthesis s))
          = nextAbortController s
          /\ (exists rest,
                newEvents s (snd (resumeSynthesis s)) = EvTtsResume :: rest)
          /\ (tts_resume engine = Resolved ->
              activeSynthesisSession (snd (resumeSynthesis s))
              = Some (mkSynthesisSession (ss_text session)
                        (ss_abortController session) (ss_startedAt session)
                        None)
              /\ cachedSynthesisSnapshot (snd (resumeSynthesis s)) = None
              /\ exists rest,
                   newEvents s (snd (resumeSynthesis s))
                   = EvTtsResume
                     :: unguardedTrace SynthesisDomain (synthesisListeners s)
                     ++ rest)
          /\ (forall v,
                tts_resume engine = Rejected v ->
                activeSynthesisSession (snd (resumeSynthesis s))
                = Some session)).
Proof.
  intro s.
  split; [apply pauseSynthesis_idle|].
  split; [apply resumeSynthesis_idle|].
  split.
  - intros engine session Ht Ha.
    rewrite (pauseSynthesis_run engine session s Ht Ha).
    destruct (tts_pause engine) as [|v]; cbn [snd];
      rewrite newEvents_appended.
    + split; [reflexivity|]. split; [eexists; reflexivity|].
      split; [|discriminate]. intros _.
      split; [reflexivity|]. split; [reflexivity|].
      eexists; reflexivity.
    + split; [reflexivity|]. split; [eexists; reflexivity|].
      split; [discriminate|]. intros v' _. exact Ha.
  - intros engine session Ht Ha Hp.
    rewrite (resumeSynthesis_run engine session s Ht Ha Hp).
    destruct (tts_resume engine) as [|v]; cbn [snd];
      rewrite newEvents_appended.
    + split; [reflexivity|]. split; [eexists; reflexivity|].
      split; [|discriminate]. intros _.
      split; [reflexivity|]. split; [reflexivity|].
      eexists; reflexivity.
    + split; [reflexivity|]. split; [eexists; reflexivity|].
      split; [discriminate|]. intros v' _. exact Ha.
Qed.

(** Resuming the paused session of the counterexample clears its
    [pausedAt]. *)
Lemma pause_resume_existing_session_witness :
  activeSynthesisSession
    (snd (resumeSynthesis (speakingState quietTts pausedSession)))
  = Some speakingSession.
Proof.
  destruct (proj2 (proj2 (proj2
              (pause_resume_existing_session
                 (speakingState quietTts pausedSession))))
              quietTts pausedSession eq_refl eq_refl eq_refl)
    as [_ [_ [H _]]].
  exact (proj1 (H eq_refl)).
Defined.

(* ================================================================== *)
(** * A failing engine start in [startSynthesis] *)
(* ================================================================== *)

(** The steps of [startSynthesis] from [new AbortController()] on, when
    the listeners return and the engine's [start] rejects. *)
Ltac run_failing_start Ht Hr Hl :=
  unfold bind at 1, newAbortController at 1; unfold bind at 1, gets at 1;
  unfold bind at 1, modify at 1, ret at 1;
  unfold bind at 1, dateNow at 1, gets at 1;
  unfold bind at 1; rewrite setActiveSynthesisSession_run; simpl_state;
  rewrite Hl;
  unfold bind at 1; rewrite setError_run; simpl_state;
  unfold bind at 1; rewrite addFinalTranscript_run; simpl_state;
  unfold tryFinally, tryCatch, callTts; unfold bind at 1 2 3, gets at 1;
  simpl_state;
  rewrite Ht; unfold emit at 1, modify at 1; rewrite Hr; unfold await, throw;
  simpl_state;
  rewrite processVoiceError_run by reflexivity;
  cbn [orDefault po_defaultCode po_shouldThrow po_onError andb];
  simpl_state;
  unfold loggedAndRethrown, startFailureTrace, startFailureState;
  match goal with
  | |- context [code_eqb (code ?e) ABORTED] =>
      destruct (code_eqb (code e) ABORTED)
  end;
  cbn [negb]; [unfold ret at 1|];
  unfold bind at 1, gets at 1; simpl_state;
  cbn [sameSynthesisSession ss_abortController]; rewrite Nat.eqb_refl;
  cbn [when_]; rewrite setActiveSynthesisSession_run; simpl_state;
  rewrite Hl; rewrite <- !app_assoc; reflexivity.

Lemma startSynthesis_fails_fresh (txt : string) (options : SynthesizeOptions)
    (engine : TTSEngine) (v : Thrown) (s : State) :
  tts s = Some engine ->
  activeSynthesisSession s = None ->
  tts_start engine txt = Rejected v ->
  unguardedOutcome (synthesisListeners s) = Returned tt ->
  startSynthesis txt options s
  = (loggedAndRethrown (Threw v),
     set_events
       (events s
        ++ startFailureTrace txt options (toVoiceError v TTS_FAILED) s)
       (startFailureState txt (toVoiceError v TTS_FAILED) s)).
Proof.
  intros Ht Ha Hr Hl.
  unfold startSynthesis. unfold bind at 1, gets at 1. rewrite Ht.
  unfold bind at 1, gets at 1. rewrite Ha. cbn [isSome when_].
  unfold bind at 1, ret at 1.
  run_failing_start Ht Hr Hl.
Qed.

Lemma startSynthesis_fails_restart (txt : string)
    (options : SynthesizeOptions) (engine : TTSEngine) (v : Thrown)
    (old : SynthesisSession) (s : State) :
  tts s = Some engine ->
  activeSynthesisSession s = Some old ->
  tts_start engine txt = Rejected v ->
  unguardedOutcome (synthesisListeners s) = Returned tt ->
  startSynthesis txt options s
  = (loggedAndRethrown (Threw v),
     set_events
       (events (snd (stopSynthesis s))
        ++ startFailureTrace txt options (toVoiceError v TTS_FAILED)
             (snd (stopSynthesis s)))
       (startFailureState txt (toVoiceError v TTS_FAILED)
          (snd (stopSynthesis s)))).
Proof.
  intros Ht Ha Hr Hl.
  rewrite (stopSynthesis_run engine old s Ht Ha), Hl.
  unfold startSynthesis. unfold bind at 1, gets at 1. rewrite Ht.
  unfold bind at 1, gets at 1. rewrite Ha. cbn [isSome when_].
  unfold bind at 1. rewrite (stopSynthesis_run engine old s Ht Ha), Hl.
  run_failing_start Ht Hr Hl.
Qed.

Lemma startSynthesis_listener_throws (txt : string)
    (options : SynthesizeOptions) (engine : TTSEngine) (w : Thrown)
    (s : State) :
  tts s = Some engine ->
  unguardedOutcome (synthesisListeners s) = Threw w ->
  newEvents s (snd (startSynthesis txt options s))
  = unguardedTrace SynthesisDomain (synthesisListeners s).
Proof.
  intros Ht Hl.
  unfold startSynthesis. unfold bind at 1, gets at 1. rewrite Ht.
  unfold bind at 1, gets at 1.
  destruct (activeSynthesisSession s) as [old|] eqn:Ha; cbn [isSome when_].
  - unfold bind at 1. rewrite (stopSynthesis_run engine old s Ht Ha), Hl.
    cbn [snd]. apply newEvents_appended.
  - unfold bind at 1, ret at 1.
    unfold bind at 1, newAbortController at 1. unfold bind at 1, gets at 1.
    unfold bind at 1, modify at 1, ret at 1.
    unfold bind at 1, dateNow at 1, gets at 1.
    unfold bind at 1. rewrite setActiveSynthesisSession_run. simpl_state.
    rewrite Hl. cbn [snd]. apply newEvents_appended.
Qed.

Lemma unguardedTrace_listeners (d : Domain) (ls : list Listener)
    (ev : Event) :
  In ev (unguardedTrace d ls) -> exists l, ev = EvListener d l.
Proof.
  induction ls as [|l ls IH]; simpl; [tauto|].
  intros [H|H]; [eauto|].
  destruct (listenerThrows l); [destruct H|auto].
Qed.

Lemma finalTranscript_shape (r : Role) (txt : string)
    (t : list TranscriptEntry) (now : Z) (random : nat) :
  exists e,
    finalTranscript r txt t now random
    = filter (fun x => negb (isInterimOf r x)) t ++ [e]
    /\ role e = r /\ text e = txt /\ final e = true.
Proof. eexists. split; [reflexivity|]. simpl. auto. Qed.

(** C10.  When [startSynthesis] issued the engine's [start] call and the
    call rejects, the synthesis session is cleared and the transcript is
    the one from before without interim assistant entries followed by the
    final assistant entry for the text: the entry written before the
    engine call stays.  The call ends with the failure, or returns when
    the failure is an abort. *)
Theorem startSynthesis_failure_keeps_entry :
  forall (txt : string) (options : SynthesizeOptions) (engine : TTSEngine)
         (v : Thrown) (s : State),
    tts s = Some engine ->
    tts_start engine txt = Rejected v ->
    (exists signal,
        In (EvTtsStart txt signal)
          (newEvents s (snd (startSynthesis txt options s)))) ->
    activeSynthesisSession (snd (startSynthesis txt options s)) = None
    /\ (exists e,
          transcript (snd (startSynthesis txt options s))
          = filter (fun t => negb (isInterimOf assistant t)) (transcript s)
            ++ [e]
          /\ role e = assistant /\ text e = txt /\ final e = true)
    /\ fst (startSynthesis txt options s)
       = if code_eqb (code (toVoiceError v TTS_FAILED)) ABORTED
         then Returned tt
         else Threw (ThrownVoiceError (toVoiceError v TTS_FAILED)).
Proof.
  intros txt options engine v s Ht Hr [signal Hcall].
  destruct (unguardedOutcome (synthesisListeners s)) as [[]|w] eqn:Hl.
  2:{ rewrite (startSynthesis_listener_throws txt options engine w s Ht Hl)
        in Hcall.
      apply unguardedTrace_listeners in Hcall.
      destruct Hcall as [l Hcall]. discriminate. }
  clear Hcall.
  destruct (activeSynthesisSession s) as [old|] eqn:Ha.
  - rewrite (startSynthesis_fails_restart txt options engine v old s
               Ht Ha Hr Hl).
    rewrite (stopSynthesis_run engine old s Ht Ha), Hl.
    cbn [fst snd]. unfold startFailureState. simpl_state.
    split; [reflexivity|]. split; [apply finalTranscript_shape|reflexivity].
  - rewrite (startSynthesis_fails_fresh txt options engine v s Ht Ha Hr Hl).
    cbn [fst snd]. unfold startFailureState. simpl_state.
    split; [reflexivity|]. split; [apply finalTranscript_shape|reflexivity].
Qed.

(** An engine whose [start] rejects while a session of an earlier call is
    still active. *)
Lemma startSynthesis_failure_keeps_entry_witness :
  activeSynthesisSession
    (snd (startSynthesis "hi" noSynthesizeOptions
            (speakingState brokenTts speakingSession)))
  = None
  /\ List.length
       (transcript
          (snd (startSynthesis "hi" noSynthesizeOptions
                  (speakingState brokenTts speakingSession))))
     = 1.
Proof.
  destruct (startSynthesis_failure_keeps_entry "hi" noSynthesizeOptions
              brokenTts (ThrownError (mkJsError "Error" "synthesis-failed"))
              (speakingState brokenTts speakingSession) eq_refl eq_refl)
    as [H1 [[e [H2 _]] _]].
  - exists 8. vm_compute. auto 10.
  - split; [exact H1|]. rewrite H2. reflexivity.
Defined.

(* ================================================================== *)
(** * Superseding a session *)
(* ================================================================== *)

Lemma retiresNothing_app (a b : list Event) :
  retiresNothing (a ++ b) = retiresNothing a && retiresNothing b.
Proof. apply forallb_app. Qed.

Lemma retiresNothing_guardedTrace (d : Domain) (ls : list Listener) :
  retiresNothing (guardedTrace d ls) = true.
Proof.
  induction ls as [|l ls IH]; [reflexivity|].
  unfold retiresNothing, guardedTrace in *. simpl.
  destruct (listenerThrows l); simpl; assumption.
Qed.

Lemma retiresNothing_unguardedTrace (d : Domain) (ls : list Listener) :
  retiresNothing (unguardedTrace d ls) = true.
Proof.
  induction ls as [|l ls IH]; [reflexivity|].
  unfold retiresNothing in *. simpl.
  destruct (listenerThrows l); [reflexivity|assumption].
Qed.

(** The constructor of the controller signals no abort controller and
    calls no engine [stop]. *)
Lemma newController_retires_nothing (method : Method)
    (options : RecognizeOptions) (s x : State) (l : list Event) :
  retiresNothing l = true ->
  retiresNothing
    (newEvents s
       (snd (newUnifiedRecognitionController method options
               (set_events (events s ++ l) x))))
  = true.
Proof.
  intros Hl. unfold newUnifiedRecognitionController.
  unfold bind at 1, newAbortController at 1. unfold bind at 1, gets at 1.
  unfold bind at 1, modify at 1, ret at 1.
  unfold bind at 1, dateNow at 1, gets at 1.
  unfold bind at 1. rewrite setActiveRecognitionSession_run. simpl_state.
  destruct (unguardedOutcome (recognitionListeners x)) as [[]|v].
  - unfold bind at 1. rewrite setError_run. simpl_state.
    unfold bind at 1.
    destruct method;
      unfold startOnceMode, startContinuousMode, callSttStart, bind, gets;
      simpl_state;
      destruct (stt x); unfold emit, modify, ret, throw; cbn [snd];
      (erewrite newEvents_of_events
         by (simpl_state; rewrite <- !app_assoc; reflexivity));
      rewrite !retiresNothing_app, Hl, retiresNothing_unguardedTrace,
        retiresNothing_guardedTrace; reflexivity.
  - cbn [snd].
    erewrite newEvents_of_events
      by (simpl_state; rewrite <- !app_assoc; reflexivity).
    rewrite !retiresNothing_app, Hl, retiresNothing_unguardedTrace.
    reflexivity.
Qed.

(** [startRecognition] never signals an abort controller and never calls
    the engine's [stop], whatever the state it starts from. *)
Lemma startRecognition_retires_nothing (options : RecognizeOptions)
    (s : State) :
  retiresNothing (newEvents s (snd (startRecognition options s))) = true.
Proof.
  remember (startRecognition options s) as result eqn:Hrun.
  unfold startRecognition in Hrun. unfold bind at 1, gets at 1 in Hrun.
  destruct (stt s) as [engine|] eqn:Ht.
  2:{ subst result. cbn [snd throw]. unfold newEvents.
      now rewrite skipn_all. }
  unfold bind at 1, gets at 1 in Hrun.
  destruct (activeRecognitionSession s) as [old|] eqn:Ha;
    cbn [isSome when_] in Hrun.
  - unfold bind at 1 2 in Hrun.
    rewrite setActiveRecognitionSession_run in Hrun.
    destruct (unguardedOutcome (recognitionListeners s)) as [[]|v].
    + unfold swallow, tryCatch in Hrun.
      rewrite stopRecognition_idle in Hrun by (right; reflexivity).
      subst result. apply newController_retires_nothing.
      apply retiresNothing_unguardedTrace.
    + subst result. cbn [snd]. rewrite newEvents_appended.
      apply retiresNothing_unguardedTrace.
  - unfold bind at 1, ret at 1 in Hrun. subst result.
    rewrite <- (set_events_same s) at 2.
    apply newController_retires_nothing. reflexivity.
Qed.

(** C1.  A second [startRecognition] while a recognition session is
    active clears the record of the first session but never signals its
    abort controller and never calls the engine's [stop]: the
    [stopRecognition] that follows [setActiveRecognitionSession(null)]
    finds no session and returns at once.  [startSynthesis] in the same
    situation signals the abort controller of the prior session and calls
    the engine's [stop] before it calls the engine's [start]. *)
Theorem startRecognition_leaks_prior_session :
  option_map rs_abortController (activeRecognitionSession listeningOnce)
  = Some 0
  /\ option_map rs_abortController (activeRecognitionSession listeningTwice)
     = Some 1
  /\ events listeningTwice = [EvSttStart 0 false; EvSttStart 1 false]
  /\ signaled 0 listeningTwice = false
  /\ retiresNothing (events listeningTwice) = true
  /\ events
       (snd (startSynthesis "next" noSynthesizeOptions
               (speakingState quietTts speakingSession)))
     = [EvAbort 7; EvTtsStop; EvTtsStart "next" 8].
Proof. repeat split. Qed.

(* ================================================================== *)
(** * Listener isolation *)
(* ================================================================== *)

Lemma calledListeners_guardedTrace (d : Domain) (ls : list Listener) :
  calledListeners d (guardedTrace d ls) = map listenerId ls.
Proof.
  induction ls as [|l ls IH]; [reflexivity|].
  unfold guardedTrace in *. cbn [flat_map listenerTrace app].
  destruct (listenerThrows l); destruct d; cbn; rewrite IH; reflexivity.
Qed.

(** The guarded notifications call every listener and return, whatever
    the listeners do. *)
Lemma notify_isolates_listeners (s : State) :
  (fst (notifySynthesis s) = Returned tt
   /\ calledListeners SynthesisDomain (newEvents s (snd (notifySynthesis s)))
      = map listenerId (synthesisListeners s))
  /\ (fst (notifyRecognition s) = Returned tt
      /\ calledListeners RecognitionDomain
           (newEvents s (snd (notifyRecognition s)))
         = map listenerId (recognitionListeners s))
  /\ (fst (notifyTranscript s) = Returned tt
      /\ calledListeners TranscriptDomain
           (newEvents s (snd (notifyTranscript s)))
         = map listenerId (transcriptListeners s))
  /\ (fst (notifyQonvo s) = Returned tt
      /\ calledListeners QonvoDomain (newEvents s (snd (notifyQonvo s)))
         = map listenerId (qonvoListeners s))
  /\ (fst (notifyConversation s) = Returned tt
      /\ calledListeners ConversationDomain
           (newEvents s (snd (notifyConversation s)))
         = map listenerId (conversationListeners s)).
Proof.
  rewrite notifySynthesis_run, notifyRecognition_run, notifyTranscript_run,
    notifyQonvo_run, notifyConversation_run.
  cbn [fst snd]. rewrite !newEvents_appended, !calledListeners_guardedTrace.
  repeat split.
Qed.

(** C6.  With two synthesis listeners of which the first throws, the
    guarded [notifySynthesis] calls both and returns, but
    [setActiveSynthesisSession] calls only the first and throws, and so
    does [stopSynthesis], which then never signals the abort controller of
    the session nor calls the engine's [stop]. *)
Theorem setActiveSession_listener_not_isolated :
  map listenerId (synthesisListeners observedState) = [1; 2]
  /\ fst (notifySynthesis observedState) = Returned tt
  /\ calledListeners SynthesisDomain
       (events (snd (notifySynthesis observedState)))
     = [1; 2]
  /\ fst (setActiveSynthesisSession None observedState)
     = Threw (ThrownValue "boom")
  /\ calledListeners SynthesisDomain
       (events (snd (setActiveSynthesisSession None observedState)))
     = [1]
  /\ fst (stopSynthesis observedState) = Threw (ThrownValue "boom")
  /\ events (snd (stopSynthesis observedState))
     = [EvListener SynthesisDomain 1]
  /\ signaled 7 (snd (stopSynthesis observedState)) = false.
Proof. repeat split. Qed.

(* ================================================================== *)
(** * Phrase matching *)
(* ================================================================== *)

Lemma startsWith_spec (s p : string) :
  Text.startsWith s p = true <-> exists b, s = (p ++ b)%string.
Proof.
  revert s. induction p as [|a p IH]; intro s.
  - split; [intros _; exists s; reflexivity|destruct s; reflexivity].
  - destruct s as [|c s]; simpl.
    + split; [discriminate|intros [b Hb]; discriminate].
    + rewrite andb_true_iff, IH. split.
      * intros [Hc [b Hb]]. apply Ascii.eqb_eq in Hc. subst.
        exists b. reflexivity.
      * intros [b Hb]. inversion Hb; subst.
        split; [apply Ascii.eqb_refl|exists b; reflexivity].
Qed.

Lemma includes_spec (s p : string) :
  Text.includes s p = true <-> Text.contains s p.
Proof.
  unfold Text.contains. induction s as [|c s IH].
  - change (Text.includes EmptyString p)
      with (Text.startsWith EmptyString p || false).
    rewrite orb_false_r, startsWith_spec. split.
    + intros [b Hb]. exists EmptyString, b. exact Hb.
    + intros [a [b Hab]]. destruct a as [|x a]; [|discriminate].
      exists b. exact Hab.
  - change (Text.includes (String c s) p)
      with (Text.startsWith (String c s) p || Text.includes s p).
    rewrite orb_true_iff, startsWith_spec, IH. split.
    + intros [[b Hb]|[a [b Hab]]].
      * exists EmptyString, b. exact Hb.
      * exists (String c a), b. simpl. now rewrite Hab.
    + intros [a [b Hab]]. destruct a as [|x a]; simpl in Hab.
      * left. exists b. exact Hab.
      * inversion Hab; subst. right. exists a, b. reflexivity.
Qed.

Lemma isWhiteSpace_toLowerCaseChar (c : ascii) :
  Text.isWhiteSpace (Text.toLowerCaseChar c) = Text.isWhiteSpace c.
Proof. destruct c as [[] [] [] [] [] [] [] []]; reflexivity. Qed.

Lemma toLowerCaseChar_idempotent (c : ascii) :
  Text.toLowerCaseChar (Text.toLowerCaseChar c) = Text.toLowerCaseChar c.
Proof. destruct c as [[] [] [] [] [] [] [] []]; reflexivity. Qed.

Lemma toLowerCase_idempotent (s : string) :
  Text.toLowerCase (Text.toLowerCase s) = Text.toLowerCase s.
Proof.
  induction s as [|c s IH]; simpl; [reflexivity|].
  now rewrite toLowerCaseChar_idempotent, IH.
Qed.

Lemma trimStart_toLowerCase (s : string) :
  Text.trimStart (Text.toLowerCase s) = Text.toLowerCase (Text.trimStart s).
Proof.
  induction s as [|c s IH]; simpl; [reflexivity|].
  rewrite isWhiteSpace_toLowerCaseChar.
  destruct (Text.isWhiteSpace c); [exact IH|reflexivity].
Qed.

Lemma isEmpty_toLowerCase (s : string) :
  Text.isEmpty (Text.toLowerCase s) = Text.isEmpty s.
Proof. destruct s; reflexivity. Qed.

Lemma trimEnd_toLowerCase (s : string) :
  Text.trimEnd (Text.toLowerCase s) = Text.toLowerCase (Text.trimEnd s).
Proof.
  induction s as [|c s IH]; simpl; [reflexivity|].
  rewrite isWhiteSpace_toLowerCaseChar, IH, isEmpty_toLowerCase.
  destruct (Text.isWhiteSpace c && Text.isEmpty (Text.trimEnd s));
    reflexivity.
Qed.

(** Texts that differ by case only are normalized to the same string. *)
Lemma normalize_toLowerCase (s : string) :
  Text.normalize (Text.toLowerCase s) = Text.normalize s.
Proof.
  unfold Text.normalize, Text.trim.
  now rewrite trimStart_toLowerCase, trimEnd_toLowerCase,
    toLowerCase_idempotent.
Qed.

Lemma matchPhrase_case_insensitive (t1 t2 p1 p2 : string) :
  Text.toLowerCase t1 = Text.toLowerCase t2 ->
  Text.toLowerCase p1 = Text.toLowerCase p2 ->
  Text.matchPhrase t1 p1 = Text.matchPhrase t2 p2.
Proof.
  intros Ht Hp. unfold Text.matchPhrase.
  rewrite <- (normalize_toLowerCase t1), <- (normalize_toLowerCase p1), Ht, Hp.
  now rewrite !normalize_toLowerCase.
Qed.

(* ================================================================== *)
(** * Phrase triggers *)
(* ================================================================== *)

Lemma checkTriggers_loop (this : Controller) (txt : string)
    (registry : list (string * TriggerCallback)) : forall s,
  forEach
    (fun entry : string * TriggerCallback =>
       when_ (Text.matchPhrase txt (fst entry)) (callTrigger (snd entry) this))
    registry s
  = (triggersOutcome (map snd (matchingTriggers txt registry)),
     set_events
       (events s
        ++ map (fun cb => EvTrigger (triggerId cb) (controllerId this))
             (firedUntilThrow (map snd (matchingTriggers txt registry))))
       s).
Proof.
  induction registry as [|[phrase cb] registry IH]; intro s.
  - simpl. now rewrite set_events_same.
  - cbn [forEach matchingTriggers filter fst snd]. unfold bind at 1.
    fold (matchingTriggers txt registry).
    destruct (Text.matchPhrase txt phrase); cbn [when_].
    + unfold callTrigger, bind, emit, modify.
      cbn [map firedUntilThrow triggersOutcome snd].
      destruct (triggerThrows cb) as [v|]; cbn.
      * reflexivity.
      * rewrite IH. cbn. rewrite <- app_assoc. reflexivity.
    + unfold ret. apply IH.
Qed.

Lemma checkTriggers_run (this : Controller) (txt : string) (s : State) :
  checkTriggers this txt s
  = (triggersOutcome (map snd (matchingTriggers txt (triggers this))),
     set_events
       (events s
        ++ map (fun cb => EvTrigger (triggerId cb) (controllerId this))
             (firedUntilThrow
                (map snd (matchingTriggers txt (triggers this)))))
       s).
Proof. unfold checkTriggers. apply checkTriggers_loop. Qed.

Lemma firedTriggers_app (a b : list Event) :
  firedTriggers (a ++ b) = firedTriggers a ++ firedTriggers b.
Proof.
  induction a as [|x a IH]; [reflexivity|].
  destruct x; simpl; rewrite ?IH; reflexivity.
Qed.

Lemma firedTriggers_guardedTrace (d : Domain) (ls : list Listener) :
  firedTriggers (guardedTrace d ls) = [].
Proof.
  induction ls as [|l ls IH]; [reflexivity|].
  unfold guardedTrace in *. simpl.
  destruct (listenerThrows l); simpl; assumption.
Qed.

Lemma firedTriggers_unguardedTrace (d : Domain) (ls : list Listener) :
  firedTriggers (unguardedTrace d ls) = [].
Proof.
  induction ls as [|l ls IH]; [reflexivity|]. simpl.
  destruct (listenerThrows l); [reflexivity|assumption].
Qed.

Lemma firedTriggers_stopFailureTrace (r : Settled) (c : VoiceErrorCode)
    (context : string) (enabled : bool) :
  firedTriggers (stopFailureTrace r c context enabled) = [].
Proof.
  destruct r as [|v]; [reflexivity|]. unfold stopFailureTrace, logTrace.
  destruct enabled; [|reflexivity].
  destruct (shouldLogError (toVoiceError v c)); reflexivity.
Qed.

Lemma firedTriggers_fired (this : nat) (cbs : list TriggerCallback) :
  firedTriggers (map (fun cb => EvTrigger (triggerId cb) this) cbs)
  = map (fun cb => (triggerId cb, this)) cbs.
Proof.
  induction cbs as [|cb cbs IH]; [reflexivity|]. simpl. now rewrite IH.
Qed.

(** The [stop] that ends a one-shot recognition calls no trigger. *)
Lemma swallow_stop_events (s : State) :
  fst (swallow stop s) = Returned tt
  /\ exists l,
       events (snd (swallow stop s)) = events s ++ l
       /\ firedTriggers l = [].
Proof.
  unfold swallow, stop, tryCatch.
  destruct (stt s) as [engine|] eqn:Ht.
  - destruct (activeRecognitionSession s) as [session|] eqn:Ha.
    + rewrite (stopRecognition_run engine session s Ht Ha).
      destruct (unguardedOutcome (recognitionListeners s)) as [[]|v].
      * split; [reflexivity|]. eexists. split; [reflexivity|].
        rewrite !firedTriggers_app, firedTriggers_unguardedTrace,
          firedTriggers_stopFailureTrace. reflexivity.
      * split; [reflexivity|]. eexists. split; [reflexivity|].
        apply firedTriggers_unguardedTrace.
    + rewrite stopRecognition_idle by (right; exact Ha).
      split; [reflexivity|]. exists []. now rewrite app_nil_r.
  - rewrite stopRecognition_idle by (left; exact Ht).
    split; [reflexivity|]. exists []. now rewrite app_nil_r.
Qed.

(** What [onFinal] adds to the trigger calls, in both modes. *)
Lemma bind_returned {A B : Type} (m : M A) (k : A -> M B) (a : A)
    (s s1 : State) :
  m s = (Returned a, s1) -> bind m k s = k a s1.
Proof. intros H. unfold bind. now rewrite H. Qed.

Lemma bind_threw {A B : Type} (m : M A) (k : A -> M B) (v : Thrown)
    (s s1 : State) :
  m s = (Threw v, s1) -> bind m k s = (Threw v, s1).
Proof. intros H. unfold bind. now rewrite H. Qed.

Lemma onFinal_fired (this : Controller) (txt : string)
    (confidence : option QArith_base.Q) (s : State) :
  firedTriggers (newEvents s (snd (onFinal this txt confidence s)))
  = map (fun cb => (triggerId cb, controllerId this))
      (firedUntilThrow (map snd (matchingTriggers txt (triggers this))))
  /\ fst (onFinal this txt confidence s)
     = triggersOutcome (map snd (matchingTriggers txt (triggers this))).
Proof.
  destruct (addFinalTranscript user txt s) as [o1 s1] eqn:E1.
  assert (H1 : o1 = Returned tt
               /\ exists l1, events s1 = events s ++ l1
                             /\ firedTriggers l1 = []).
  { rewrite addFinalTranscript_run in E1.
    injection E1 as <- <-. split; [reflexivity|].
    eexists. split; [simpl_state; reflexivity|].
    apply firedTriggers_guardedTrace. }
  destruct H1 as [-> [l1 [Ev1 Hl1]]].
  pose proof (checkTriggers_run this txt s1) as E2.
  set (fired := firedUntilThrow
                  (map snd (matchingTriggers txt (triggers this)))) in *.
  destruct (triggersOutcome
              (map snd (matchingTriggers txt (triggers this))))
    as [[]|v] eqn:Hout.
  - assert (Hcont : (addFinalTranscript user txt ;;
                     checkTriggers this txt) s
                    = (Returned tt,
                       set_events
                         (events s1
                          ++ map (fun cb =>
                                    EvTrigger (triggerId cb)
                                      (controllerId this)) fired) s1)).
    { rewrite (bind_returned _ _ _ _ _ E1). exact E2. }
    unfold onFinal. destruct (ctl_method this).
    + rewrite (bind_returned _ _ _ _ _ E1), (bind_returned _ _ _ _ _ E2).
      unfold bind, dateNow, gets, settle, emit, modify. cbn [fst snd].
      match goal with
      | |- context [swallow stop ?x] =>
          destruct (swallow_stop_events x) as [Hr [l [Hev Hl]]];
          revert Hr Hev; generalize (swallow stop x)
      end.
      intros [o3 s3]. cbn [fst snd]. simpl_state. intros -> Hev.
      split; [|reflexivity].
      erewrite newEvents_of_events
        by (rewrite Hev, Ev1, <- !app_assoc; reflexivity).
      rewrite !firedTriggers_app, Hl1, firedTriggers_fired, Hl.
      cbn. now rewrite app_nil_r.
    + rewrite Hcont. cbn [fst snd]. split; [|reflexivity].
      erewrite newEvents_of_events
        by (simpl_state; rewrite Ev1, <- !app_assoc; reflexivity).
      rewrite !firedTriggers_app, Hl1, firedTriggers_fired. reflexivity.
  - assert (Hcont : (addFinalTranscript user txt ;;
                     checkTriggers this txt) s
                    = (Threw v,
                       set_events
                         (events s1
                          ++ map (fun cb =>
                                    EvTrigger (triggerId cb)
                                      (controllerId this)) fired) s1)).
    { rewrite (bind_returned _ _ _ _ _ E1). exact E2. }
    unfold onFinal. destruct (ctl_method this).
    + rewrite (bind_returned _ _ _ _ _ E1), (bind_threw _ _ _ _ _ E2).
      cbn [fst snd]. split; [|reflexivity].
      erewrite newEvents_of_events
        by (simpl_state; rewrite Ev1, <- !app_assoc; reflexivity).
      rewrite !firedTriggers_app, Hl1, firedTriggers_fired. reflexivity.
    + rewrite Hcont. cbn [fst snd]. split; [|reflexivity].
      erewrite newEvents_of_events
        by (simpl_state; rewrite Ev1, <- !app_assoc; reflexivity).
      rewrite !firedTriggers_app, Hl1, firedTriggers_fired. reflexivity.
Qed.

Lemma firedUntilThrow_all (cbs : list TriggerCallback) :
  forallb returns cbs = true ->
  firedUntilThrow cbs = cbs /\ triggersOutcome cbs = Returned tt.
Proof.
  induction cbs as [|cb cbs IH]; simpl; [auto|].
  unfold returns at 1. destruct (triggerThrows cb); simpl; [discriminate|].
  intros H. destruct (IH H) as [H1 H2]. now rewrite H1, H2.
Qed.

Lemma mapSet_fresh {V : Type} (k : string) (v : V)
    (m : list (string * V)) :
  existsb (String.eqb k) (map fst m) = false -> mapSet k v m = m ++ [(k, v)].
Proof.
  induction m as [|[k' v'] m IH]; simpl; [reflexivity|].
  rewrite orb_false_iff. intros [Hk Hm].
  rewrite String.eqb_sym, Hk. now rewrite IH.
Qed.

Example matchPhrase_normalizes :
  Text.normalize "  Oh  YES" = "oh yes"
  /\ Text.matchPhrase "  Oh YES   please " "Yes  Please" = true
  /\ Text.matchPhrase "yes" "yes please" = false.
Proof. repeat split. Qed.

(** C8, as stated, fails: "yes" and "yes please" are registered in this
    order, both match the final result "yes please", and the callback of
    "yes" throws; the callback of "yes please" is never called. *)
Lemma throwing_trigger_stops_dispatch :
  map fst
    (triggers
       (yesController (mkTriggerCallback 10 (Some (ThrownValue "boom")))
          (mkTriggerCallback 11 None)))
  = ["yes"; "yes please"]
  /\ Text.matchPhrase "yes please" "yes" = true
  /\ Text.matchPhrase "yes please" "yes please" = true
  /\ firedTriggers
       (events
          (snd (onFinal
                  (yesController
                     (mkTriggerCallback 10 (Some (ThrownValue "boom")))
                     (mkTriggerCallback 11 None))
                  "yes please" None boundState)))
     = [(10, 4)]
  /\ fst (onFinal
            (yesController (mkTriggerCallback 10 (Some (ThrownValue "boom")))
               (mkTriggerCallback 11 None))
            "yes please" None boundState)
     = Threw (ThrownValue "boom").
Proof. repeat split. Qed.

(** C8, amended.  On every final result delivered to a controller, in
    either mode, the triggers of its registry are tested in registration
    order with [matchPhrase], which holds exactly when the normalized text
    contains the normalized phrase and does not depend on case; the
    callback of each matching trigger is called with the controller itself,
    up to and including the first callback that throws, which ends the
    dispatch.  When no matching callback throws, all matching callbacks are
    called, in registration order.  A phrase that is not yet registered is
    registered after the others. *)
Theorem phrase_triggers_dispatch :
  forall (this : Controller) (txt : string)
         (confidence : option QArith_base.Q) (s : State),
    (forall phrase,
        Text.matchPhrase txt phrase = true
        <-> Text.contains (Text.normalize txt) (Text.normalize phrase))
    /\ (forall txt' phrase phrase',
          Text.toLowerCase txt = Text.toLowerCase txt' ->
          Text.toLowerCase phrase = Text.toLowerCase phrase' ->
          Text.matchPhrase txt phrase = Text.matchPhrase txt' phrase')
    /\ firedTriggers (newEvents s (snd (onFinal this txt confidence s)))
       = map (fun cb => (triggerId cb, controllerId this))
           (firedUntilThrow (map snd (matchingTriggers txt (triggers this))))
    /\ (forallb returns (map snd (matchingTriggers txt (triggers this)))
        = true ->
        firedTriggers (newEvents s (snd (onFinal this txt confidence s)))
        = map (fun cb => (triggerId cb, controllerId this))
            (map snd (matchingTriggers txt (triggers this)))
        /\ fst (onFinal this txt confidence s) = Returned tt)
    /\ (forall phrase cb,
          existsb (String.eqb phrase) (map fst (triggers this)) = false ->
          triggers (when_then phrase cb this)
          = triggers this ++ [(phrase, cb)]).
Proof.
  intros this txt confidence s.
  destruct (onFinal_fired this txt confidence s) as [Hfired Hout].
  split; [intro phrase; apply includes_spec|].
  split; [intros txt' phrase phrase'; apply matchPhrase_case_insensitive|].
  split; [exact Hfired|]. split.
  - intros Hall. destruct (firedUntilThrow_all _ Hall) as [H1 H2].
    rewrite Hfired, Hout, H1, H2. split; reflexivity.
  - intros phrase cb Hnew. unfold when_then. cbn [triggers].
    apply mapSet_fresh. exact Hnew.
Qed.

(** "yes" and "yes please" with callbacks that return: the final result
    "yes please" calls both, in registration order, with the
    controller. *)
Lemma phrase_triggers_dispatch_witness :
  firedTriggers
    (newEvents boundState
       (snd (onFinal
               (yesController (mkTriggerCallback 10 None)
                  (mkTriggerCallback 11 None))
               "yes please" None boundState)))
  = [(10, 4); (11, 4)].
Proof.
  exact (proj1 (proj1 (proj2 (proj2 (proj2
           (phrase_triggers_dispatch
              (yesController (mkTriggerCallback 10 None)
                 (mkTriggerCallback 11 None))
              "yes please" None boundState)))) eq_refl)).
Defined.

(* ================================================================== *)
(** * Further properties: the error module *)
(* ================================================================== *)

Lemma onErrorCalls_app (a b : list Event) :
  onErrorCalls (a ++ b) = onErrorCalls a ++ onErrorCalls b.
Proof.
  induction a as [|x a IH]; [reflexivity|].
  destruct x; simpl; rewrite ?IH; reflexivity.
Qed.

Lemma onErrorCalls_guardedTrace (d : Domain) (ls : list Listener) :
  onErrorCalls (guardedTrace d ls) = [].
Proof.
  induction ls as [|l ls IH]; [reflexivity|].
  unfold guardedTrace in *. simpl.
  destruct (listenerThrows l); simpl; assumption.
Qed.

Lemma onErrorCalls_onErrorTrace (g : bool) (cb : option ErrorCallback)
    (e : VoiceError) :
  onErrorCalls (onErrorTrace g cb e)
  = match cb with
    | Some c => [(g, callbackId c)]
    | None => []
    end.
Proof.
  destruct cb as [c|]; [|reflexivity]. simpl.
  destruct (callbackThrows c e); reflexivity.
Qed.

Lemma onErrorCalls_handleTrace (e : VoiceError) (cb : option ErrorCallback)
    (ls : list Listener) (g : option ErrorCallback) :
  onErrorCalls (handleTrace e cb ls g)
  = match cb with
    | Some c => [(false, callbackId c)]
    | None => []
    end
    ++ match g with
       | Some c => [(true, callbackId c)]
       | None => []
       end.
Proof.
  unfold handleTrace.
  rewrite !onErrorCalls_app, !onErrorCalls_onErrorTrace.
  destruct (code_eqb (code e) ABORTED); simpl;
    [reflexivity|now rewrite onErrorCalls_guardedTrace].
Qed.

Lemma onErrorCalls_logTrace (error : Thrown) (context : option string)
    (enabled : bool) :
  onErrorCalls (logTrace error context enabled) = [].
Proof.
  unfold logTrace. destruct enabled; [|reflexivity].
  destruct error as [e| |]; try reflexivity.
  destruct (shouldLogError e); reflexivity.
Qed.

Lemma loggedErrors_logTrace (e : VoiceError) (context : option string)
    (enabled : bool) :
  shouldLogError e = true ->
  loggedErrors (logTrace (ThrownVoiceError e) context enabled)
  = if enabled then [ThrownVoiceError e] else [].
Proof.
  intros H. unfold logTrace. rewrite H. destruct enabled; reflexivity.
Qed.

(** X1.  [handleError] always returns.  It calls the per-operation
    callback, when there is one, and then the global callback, when there
    is one, each exactly once, also for an [ABORTED] error and also when
    the first callback throws; it gives nothing to [logError]; the error
    becomes the last error unless its code is [ABORTED]. *)
Theorem handleError_calls_every_callback :
  forall (e : VoiceError) (cb : option ErrorCallback) (s : State),
    fst (handleError e cb s) = Returned tt
    /\ onErrorCalls (newEvents s (snd (handleError e cb s)))
       = match cb with
         | Some c => [(false, callbackId c)]
         | None => []
         end
         ++ match globalOnError s with
            | Some c => [(true, callbackId c)]
            | None => []
            end
    /\ loggedErrors (newEvents s (snd (handleError e cb s))) = []
    /\ lastError (snd (handleError e cb s))
       = if code_eqb (code e) ABORTED then lastError s else Some e.
Proof.
  intros e cb s. rewrite handleError_run. cbn [fst snd].
  rewrite newEvents_appended, onErrorCalls_handleTrace,
    loggedErrors_handleTrace.
  repeat split.
Qed.

(** X2.  [processVoiceError] with [handleError] as its handler, on a
    failure whose normalized code is neither [ABORTED] nor [NO_SPEECH]:
    the normalized error becomes the last error and the cached readiness
    snapshot is dropped, both callbacks are called once, [logError]
    reports the error exactly once when logging is enabled and not at all
    when it is disabled, and the call throws the normalized error unless
    [shouldThrow] is [false], in which case it returns it. *)
Theorem processVoiceError_reports_failure :
  forall (error : Thrown) (context : string) (options : ProcessOptions)
         (s : State),
    po_handleError options = Some handleError ->
    shouldLogError
      (toVoiceError error (orDefault (po_defaultCode options) TTS_FAILED))
    = true ->
    let e :=
      toVoiceError error (orDefault (po_defaultCode options) TTS_FAILED) in
    let s' := snd (processVoiceError error context options s) in
    fst (processVoiceError error context options s)
    = (if orDefault (po_shouldThrow options) true
       then Threw (ThrownVoiceError e) else Returned e)
    /\ lastError s' = Some e
    /\ cachedQonvoSnapshot s' = None
    /\ loggedErrors (newEvents s s')
       = (if errorLoggingEnabled s then [ThrownVoiceError e] else [])
    /\ onErrorCalls (newEvents s s')
       = match po_onError options with
         | Some c => [(false, callbackId c)]
         | None => []
         end
         ++ match globalOnError s with
            | Some c => [(true, callbackId c)]
            | None => []
            end.
Proof.
  intros error context options s Hh Hlog e s'. subst s'.
  rewrite (processVoiceError_run error context options s Hh). fold e.
  assert (Hab : code_eqb (code e) ABORTED = false).
  { fold e in Hlog. unfold shouldLogError in Hlog. simpl in Hlog.
    destruct (code_eqb (code e) ABORTED); [discriminate|reflexivity]. }
  cbn [fst snd]. rewrite Hab, andb_true_r. simpl_state. rewrite Hab.
  rewrite newEvents_appended, loggedErrors_app, onErrorCalls_app,
    loggedErrors_handleTrace, onErrorCalls_handleTrace,
    onErrorCalls_logTrace, (loggedErrors_logTrace e _ _ Hlog), app_nil_r.
  repeat split.
Qed.

(** A device failure of a synthesis engine, with logging enabled. *)
Lemma processVoiceError_reports_failure_witness :
  loggedErrors
    (newEvents boundState
       (snd (processVoiceError
               (ThrownError (mkJsError "Error" "device lost"))
               "startSynthesis" (synthesisProcessOptions None) boundState)))
  = [ThrownVoiceError
       (toVoiceError (ThrownError (mkJsError "Error" "device lost"))
          TTS_FAILED)].
Proof.
  exact (proj1 (proj2 (proj2 (proj2
           (processVoiceError_reports_failure
              (ThrownError (mkJsError "Error" "device lost"))
              "startSynthesis" (synthesisProcessOptions None) boundState
              eq_refl eq_refl))))).
Defined.

(** X3.  For a constructed error the three classifications of the code
    agree: it is system-level exactly when it is enriched with
    [needsPermission]; a system-level error is never silent and is always
    recoverable; a silent error is never system-level; the errors that are
    not recoverable are exactly [ABORTED] and [INVALID_STATE]. *)
Theorem error_classifications_agree :
  forall (c : VoiceErrorCode) (msg : string) (options : option ErrorOptions),
    (isSystemError (createVoiceError c msg options) = true
     <-> needsPermission (createVoiceError c msg options) = Some true)
    /\ (isSystemError (createVoiceError c msg options) = true ->
        shouldLogError (createVoiceError c msg options) = true
        /\ recoverable (createVoiceError c msg options) = Some true)
    /\ (shouldLogError (createVoiceError c msg options) = false ->
        isSystemError (createVoiceError c msg options) = false)
    /\ (recoverable (createVoiceError c msg options) = Some false
        <-> c = ABORTED \/ c = INVALID_STATE).
Proof.
  intros c msg options.
  destruct c; cbn; repeat split; intros; try discriminate; auto;
    try (destruct H; discriminate).
Qed.

(** X4.  [safeCleanup] never throws, whatever the cleanup function does,
    and changes nothing but the console: a failure of the cleanup is
    reported once by [logError] as an [INVALID_STATE] error (or with its
    own code when it is a [VoiceError]) when logging is enabled, and not
    at all when the failure is an [AbortError] or a silent
    [VoiceError]. *)
Theorem safeCleanup_never_throws :
  forall (fn : Settled) (context : string) (s : State),
    fst (safeCleanup fn context s) = Returned tt
    /\ set_events (events s) (snd (safeCleanup fn context s)) = s
    /\ loggedErrors (newEvents s (snd (safeCleanup fn context s)))
       = match fn with
         | Resolved => []
         | Rejected v =>
             if errorLoggingEnabled s
                && shouldLogError (toVoiceError v INVALID_STATE)
             then [ThrownVoiceError (toVoiceError v INVALID_STATE)]
             else []
         end.
Proof.
  intros fn context s. unfold safeCleanup, tryCatch, await.
  destruct fn as [|v].
  - unfold ret. cbn [fst snd]. split; [reflexivity|].
    split; [destruct s; reflexivity|].
    unfold newEvents. now rewrite skipn_all.
  - unfold throw. rewrite logError_run. cbn [fst snd].
    split; [reflexivity|]. split; [destruct s; reflexivity|].
    rewrite newEvents_appended. unfold logTrace.
    destruct (errorLoggingEnabled s); [|reflexivity].
    destruct (shouldLogError (toVoiceError v INVALID_STATE)); reflexivity.
Qed.







(* ================================================================== *)
(** * Further properties: snapshots and registries *)
(* ================================================================== *)

Lemma getSynthesisSnapshot_run (s : State) :
  getSynthesisSnapshot s
  = match cachedSynthesisSnapshot s with
    | Some snap => (Returned snap, s)
    | None =>
        (Returned (synthesisView s),
         set_cachedSynthesisSnapshot (Some (synthesisView s)) s)
    end.
Proof.
  unfold getSynthesisSnapshot, bind, gets, modify, ret, synthesisView.
  destruct (cachedSynthesisSnapshot s); reflexivity.
Qed.

Lemma getRecognitionSnapshot_run (s : State) :
  getRecognitionSnapshot s
  = match cachedRecognitionSnapshot s with
    | Some snap => (Returned snap, s)
    | None =>
        (Returned (recognitionView s),
         set_cachedRecognitionSnapshot (Some (recognitionView s)) s)
    end.
Proof.
  unfold getRecognitionSnapshot, bind, gets, modify, ret, recognitionView.
  destruct (cachedRecognitionSnapshot s); reflexivity.
Qed.

Lemma getQonvoSnapshot_run (s : State) :
  getQonvoSnapshot s
  = match cachedQonvoSnapshot s with
    | Some snap => (Returned snap, s)
    | None =>
        (Returned (qonvoView s),
         set_cachedQonvoSnapshot (Some (qonvoView s)) s)
    end.
Proof.
  unfold getQonvoSnapshot, bind, gets, modify, ret, qonvoView.
  destruct (cachedQonvoSnapshot s); reflexivity.
Qed.

Lemma getConversationSnapshot_run (s : State) :
  getConversationSnapshot s
  = match cachedConversationSnapshot s with
    | Some snap => (Returned snap, s)
    | None =>
        (Returned (conversationView s),
         set_cachedConversationSnapshot (Some (conversationView s)) s)
    end.
Proof.
  unfold getConversationSnapshot, bind, gets, modify, ret, conversationView.
  destruct (cachedConversationSnapshot s); reflexivity.
Qed.

(** X6.  Each of the five snapshot functions returns the same snapshot,
    and leaves the module as it is, when called again; it calls no
    listener.  After the notification of a domain, and after a session
    was published even when a listener threw, the next snapshot is
    computed from the current state. *)
Theorem snapshots_cached_until_notified :
  forall s : State,
    (getSynthesisSnapshot (snd (getSynthesisSnapshot s))
     = getSynthesisSnapshot s
     /\ events (snd (getSynthesisSnapshot s)) = events s
     /\ fst (getSynthesisSnapshot (snd (notifySynthesis s)))
        = Returned (synthesisView s)
     /\ forall x,
          fst (getSynthesisSnapshot (snd (setActiveSynthesisSession x s)))
          = Returned (synthesisView (set_activeSynthesisSession x s)))
    /\ (getRecognitionSnapshot (snd (getRecognitionSnapshot s))
        = getRecognitionSnapshot s
        /\ events (snd (getRecognitionSnapshot s)) = events s
        /\ fst (getRecognitionSnapshot (snd (notifyRecognition s)))
           = Returned (recognitionView s)
        /\ forall x,
             fst (getRecognitionSnapshot
                    (snd (setActiveRecognitionSession x s)))
             = Returned (recognitionView (set_activeRecognitionSession x s)))
    /\ (getTranscriptSnapshot (snd (getTranscriptSnapshot s))
        = getTranscriptSnapshot s
        /\ events (snd (getTranscriptSnapshot s)) = events s
        /\ fst (getTranscriptSnapshot (snd (notifyTranscript s)))
           = Returned (transcriptView (transcript s)))
    /\ (getQonvoSnapshot (snd (getQonvoSnapshot s)) = getQonvoSnapshot s
        /\ events (snd (getQonvoSnapshot s)) = events s
        /\ fst (getQonvoSnapshot (snd (notifyQonvo s)))
           = Returned (qonvoView s)
        /\ forall e,
             fst (getQonvoSnapshot (snd (setError e s)))
             = Returned (mkQonvoSnapshot (isReady s) e))
    /\ (getConversationSnapshot (snd (getConversationSnapshot s))
        = getConversationSnapshot s
        /\ events (snd (getConversationSnapshot s)) = events s
        /\ fst (getConversationSnapshot (snd (notifyConversation s)))
           = Returned (conversationView s)).
Proof.
  intros s.
  rewrite notifySynthesis_run, notifyRecognition_run, notifyTranscript_run,
    notifyQonvo_run, notifyConversation_run.
  repeat split; intros;
    rewrite ?setActiveSynthesisSession_run, ?setActiveRecognitionSession_run,
      ?setError_run;
    rewrite ?getSynthesisSnapshot_run, ?getRecognitionSnapshot_run,
      ?getTranscriptSnapshot_run, ?getQonvoSnapshot_run,
      ?getConversationSnapshot_run;
    try reflexivity.
  all: match goal with
       | |- context [cachedSynthesisSnapshot _] =>
           destruct (cachedSynthesisSnapshot s) eqn:Hc
       | |- context [cachedRecognitionSnapshot _] =>
           destruct (cachedRecognitionSnapshot s) eqn:Hc
       | |- context [cachedTranscriptSnapshot _] =>
           destruct (cachedTranscriptSnapshot s) eqn:Hc
       | |- context [cachedQonvoSnapshot _] =>
           destruct (cachedQonvoSnapshot s) eqn:Hc
       | |- context [cachedConversationSnapshot _] =>
           destruct (cachedConversationSnapshot s) eqn:Hc
       end;
    cbn [snd];
    rewrite ?getSynthesisSnapshot_run, ?getRecognitionSnapshot_run,
      ?getTranscriptSnapshot_run, ?getQonvoSnapshot_run,
      ?getConversationSnapshot_run;
    simpl_state; rewrite ?Hc; reflexivity.
Qed.

Lemma refreshAvailability_run (s : State) :
  refreshAvailability s
  = (Returned tt,
     set_events
       (events s
        ++ guardedTrace SynthesisDomain (synthesisListeners s)
        ++ guardedTrace RecognitionDomain (recognitionListeners s)
        ++ guardedTrace QonvoDomain (qonvoListeners s))
       (set_cachedQonvoSnapshot None
          (set_cachedRecognitionSnapshot None
             (set_cachedSynthesisSnapshot None
                (set_isSynthesisAvailable
                   (av_tts match tts s with
                           | Some e => tts_availability e
                           | None => noAvailability
                           end)
                   (set_isRecognitionAvailable
                      (av_stt match stt s with
                              | Some e => stt_availability e
                              | None => noAvailability
                              end)
                      (set_isReady true s))))))).
Proof.
  unfold refreshAvailability.
  unfold bind at 1, gets at 1. unfold bind at 1, gets at 1.
  unfold bind at 1, modify at 1. unfold bind at 1, modify at 1.
  unfold bind at 1, modify at 1.
  unfold bind at 1. rewrite notifySynthesis_run.
  unfold bind at 1. rewrite notifyRecognition_run.
  rewrite notifyQonvo_run. simpl_state. rewrite <- !app_assoc.
  reflexivity.
Qed.

Lemma calledListeners_app (d : Domain) (a b : list Event) :
  calledListeners d (a ++ b) = calledListeners d a ++ calledListeners d b.
Proof.
  induction a as [|x a IH]; [reflexivity|].
  destruct x; cbn [app calledListeners]; try exact IH.
  destruct d, d0; cbn; rewrite ?IH; reflexivity.
Qed.

Lemma calledListeners_other (d d' : Domain) (ls : list Listener) :
  d <> d' -> calledListeners d (guardedTrace d' ls) = [].
Proof.
  intros Hd. induction ls as [|l ls IH]; [reflexivity|].
  unfold guardedTrace in *. cbn [flat_map]. rewrite calledListeners_app, IH.
  unfold listenerTrace.
  destruct (listenerThrows l); destruct d, d'; try reflexivity;
    now contradiction Hd.
Qed.

(** X7.  [refreshAvailability] returns with the module ready and the
    availability flags as the engines report them (not available for an
    engine that is not bound), and the synthesis, recognition and
    readiness snapshots read afterwards show it.  It calls no conversation
    listener and leaves a cached conversation snapshot in place: the
    conversation snapshot read afterwards is the one cached before. *)
Theorem refreshAvailability_keeps_conversation_snapshot :
  forall (s : State) (snap : ConversationSnapshot),
    cachedConversationSnapshot s = Some snap ->
    let s' := snd (refreshAvailability s) in
    fst (refreshAvailability s) = Returned tt
    /\ isReady s' = true
    /\ isSynthesisAvailable s'
       = match tts s with
         | Some e => av_tts (tts_availability e)
         | None => false
         end
    /\ isRecognitionAvailable s'
       = match stt s with
         | Some e => av_stt (stt_availability e)
         | None => false
         end
    /\ fst (getSynthesisSnapshot s') = Returned (synthesisView s')
    /\ fst (getRecognitionSnapshot s') = Returned (recognitionView s')
    /\ fst (getQonvoSnapshot s')
       = Returned (mkQonvoSnapshot true (lastError s))
    /\ calledListeners ConversationDomain (newEvents s s') = []
    /\ fst (getConversationSnapshot s') = Returned snap.
Proof.
  intros s snap Hc s'. subst s'. rewrite refreshAvailability_run.
  cbn [fst snd].
  rewrite getSynthesisSnapshot_run, getRecognitionSnapshot_run,
    getQonvoSnapshot_run, getConversationSnapshot_run, newEvents_appended.
  rewrite !calledListeners_app, !calledListeners_other by discriminate.
  simpl_state. rewrite Hc.
  repeat split; try reflexivity.
  - destruct (tts s); reflexivity.
  - destruct (stt s); reflexivity.
Qed.

(** A component read the conversation snapshot before the engines were
    asked: both engines are available afterwards, and the conversation
    snapshot still says that conversation is not. *)
Lemma refreshAvailability_keeps_conversation_snapshot_witness :
  cachedConversationSnapshot renderedState
  = Some (mkConversationSnapshot false false)
  /\ fst (getConversationSnapshot (snd (refreshAvailability renderedState)))
     = Returned (mkConversationSnapshot false false)
  /\ conversationView (snd (refreshAvailability renderedState))
     = mkConversationSnapshot false true.
Proof.
  split; [reflexivity|]. split; [|reflexivity].
  apply (refreshAvailability_keeps_conversation_snapshot renderedState
           (mkConversationSnapshot false false) eq_refl).
Defined.

Lemma setEngines_run (sttEngine : option STTEngine)
    (ttsEngine : option TTSEngine) (s : State) :
  setEngines sttEngine ttsEngine s
  = (Returned tt,
     set_events
       (events s
        ++ guardedTrace SynthesisDomain (synthesisListeners s)
        ++ guardedTrace RecognitionDomain (recognitionListeners s)
        ++ guardedTrace TranscriptDomain (transcriptListeners s)
        ++ guardedTrace QonvoDomain (qonvoListeners s))
       (set_cachedQonvoSnapshot None
          (set_cachedTranscriptSnapshot None
             (set_cachedRecognitionSnapshot None
                (set_cachedSynthesisSnapshot None
                   (set_tts ttsEngine (set_stt sttEngine s))))))).
Proof.
  unfold setEngines, notifyAll.
  unfold bind at 1, modify at 1. unfold bind at 1, modify at 1.
  unfold bind at 1. rewrite notifySynthesis_run.
  unfold bind at 1. rewrite notifyRecognition_run.
  unfold bind at 1. rewrite notifyTranscript_run.
  rewrite notifyQonvo_run. simpl_state. rewrite <- !app_assoc.
  reflexivity.
Qed.

Lemma engineEvents_app (a b : list Event) :
  engineEvents (a ++ b) = engineEvents a ++ engineEvents b.
Proof. apply filter_app. Qed.

Lemma engineEvents_guardedTrace (d : Domain) (ls : list Listener) :
  engineEvents (guardedTrace d ls) = [].
Proof.
  induction ls as [|l ls IH]; [reflexivity|].
  unfold guardedTrace in *. cbn [flat_map]. rewrite engineEvents_app, IH.
  unfold listenerTrace. destruct (listenerThrows l); reflexivity.
Qed.

Lemma engineEvents_unguardedTrace (d : Domain) (ls : list Listener) :
  engineEvents (unguardedTrace d ls) = [].
Proof.
  induction ls as [|l ls IH]; [reflexivity|]. cbn.
  destruct (listenerThrows l); [reflexivity|exact IH].
Qed.

(** X8.  [initializePlatform] binds the two engines it is given; once
    the availability check that it starts has run, the module is ready
    and the availability flags are as these engines report them.  Every synthesis, recognition and readiness
    listener is called twice and every transcript listener once, whatever
    the listeners do; no conversation listener is called.  The sessions
    that are active stay active, and nothing is asked of an engine: a
    session of an engine that is replaced is not stopped. *)
Theorem initializePlatform_binds_engines :
  forall (sttEngine : option STTEngine) (ttsEngine : option TTSEngine)
         (s : State),
    let s' := snd (initializePlatform sttEngine ttsEngine s) in
    fst (initializePlatform sttEngine ttsEngine s) = Returned tt
    /\ stt s' = sttEngine /\ tts s' = ttsEngine /\ isReady s' = true
    /\ isRecognitionAvailable s'
       = match sttEngine with
         | Some e => av_stt (stt_availability e)
         | None => false
         end
    /\ isSynthesisAvailable s'
       = match ttsEngine with
         | Some e => av_tts (tts_availability e)
         | None => false
         end
    /\ calledListeners SynthesisDomain (newEvents s s')
       = listenerIds (synthesisListeners s)
         ++ listenerIds (synthesisListeners s)
    /\ calledListeners RecognitionDomain (newEvents s s')
       = listenerIds (recognitionListeners s)
         ++ listenerIds (recognitionListeners s)
    /\ calledListeners QonvoDomain (newEvents s s')
       = listenerIds (qonvoListeners s) ++ listenerIds (qonvoListeners s)
    /\ calledListeners TranscriptDomain (newEvents s s')
       = listenerIds (transcriptListeners s)
    /\ calledListeners ConversationDomain (newEvents s s') = []
    /\ activeSynthesisSession s' = activeSynthesisSession s
    /\ activeRecognitionSession s' = activeRecognitionSession s
    /\ engineEvents (newEvents s s') = [].
Proof.
  intros sttEngine ttsEngine s s'. subst s'.
  unfold initializePlatform, bind.
  rewrite setEngines_run, refreshAvailability_run. simpl_state.
  erewrite newEvents_of_events
    by (simpl_state; rewrite <- !app_assoc; reflexivity).
  rewrite !calledListeners_app, !engineEvents_app,
    !engineEvents_guardedTrace.
  repeat split.
  - destruct sttEngine; reflexivity.
  - destruct ttsEngine; reflexivity.
  - rewrite !calledListeners_guardedTrace,
      !calledListeners_other by discriminate.
    now rewrite !app_nil_r.
  - rewrite !calledListeners_guardedTrace,
      !calledListeners_other by discriminate.
    cbn [app]. now rewrite !app_nil_r.
  - rewrite !calledListeners_guardedTrace,
      !calledListeners_other by discriminate.
    reflexivity.
  - rewrite !calledListeners_guardedTrace,
      !calledListeners_other by discriminate.
    cbn [app]. now rewrite !app_nil_r.
  - rewrite !calledListeners_other by discriminate. reflexivity.
Qed.

(** ** The listener registries *)

Lemma setAdd_In (l : Listener) (ls : list Listener) :
  In (listenerId l) (listenerIds (setAdd l ls)).
Proof.
  unfold setAdd, listenerIds.
  destruct (existsb (fun x => (listenerId x =? listenerId l)%nat) ls)
    eqn:He.
  - apply existsb_exists in He. destruct He as [x [Hx Hid]].
    apply Nat.eqb_eq in Hid. rewrite <- Hid. now apply in_map.
  - rewrite map_app. apply in_or_app. right. now left.
Qed.

Lemma setAdd_present (l : Listener) (ls : list Listener) :
  In (listenerId l) (listenerIds ls) -> setAdd l ls = ls.
Proof.
  intros H. unfold setAdd.
  replace (existsb (fun x => (listenerId x =? listenerId l)%nat) ls)
    with true; [reflexivity|].
  symmetry. apply existsb_exists. unfold listenerIds in H.
  apply in_map_iff in H. destruct H as [x [Hid Hx]].
  exists x. split; [exact Hx|]. now apply Nat.eqb_eq.
Qed.

Lemma setAdd_absent (l : Listener) (ls : list Listener) :
  ~ In (listenerId l) (listenerIds ls) -> setAdd l ls = ls ++ [l].
Proof.
  intros H. unfold setAdd.
  destruct (existsb (fun x => (listenerId x =? listenerId l)%nat) ls)
    eqn:He; [|reflexivity].
  exfalso. apply H. apply existsb_exists in He.
  destruct He as [x [Hx Hid]]. apply Nat.eqb_eq in Hid.
  rewrite <- Hid. unfold listenerIds. now apply in_map.
Qed.

Lemma setAdd_NoDup (l : Listener) (ls : list Listener) :
  NoDup (listenerIds ls) -> NoDup (listenerIds (setAdd l ls)).
Proof.
  intros Hn.
  destruct (in_dec Nat.eq_dec (listenerId l) (listenerIds ls)) as [Hi|Hi].
  - now rewrite setAdd_present.
  - rewrite setAdd_absent by exact Hi. unfold listenerIds in *.
    rewrite map_app. cbn [map].
    apply NoDup_app; [exact Hn|repeat constructor; auto|].
    intros x Hx [Hl|[]]. subst x. contradiction.
Qed.

Lemma setDelete_ids (l : Listener) (ls : list Listener) :
  listenerIds (setDelete l ls)
  = filter (fun i => negb (i =? listenerId l)%nat) (listenerIds ls).
Proof.
  unfold setDelete, listenerIds.
  induction ls as [|x ls IH]; [reflexivity|]. cbn [filter map].
  destruct (listenerId x =? listenerId l)%nat; cbn [negb map];
    now rewrite IH.
Qed.

Lemma setDelete_absent (l : Listener) (ls : list Listener) :
  ~ In (listenerId l) (listenerIds ls) -> setDelete l ls = ls.
Proof.
  unfold setDelete, listenerIds.
  induction ls as [|x ls IH]; [reflexivity|]. cbn [map filter In].
  intros H. destruct (Nat.eqb_spec (listenerId x) (listenerId l)) as [E|E].
  - exfalso. auto.
  - cbn [negb]. rewrite IH; [reflexivity|]. auto.
Qed.

Lemma setDelete_setAdd (l : Listener) (ls : list Listener) :
  setDelete l (setAdd l ls) = setDelete l ls.
Proof.
  unfold setAdd.
  destruct (existsb (fun x => (listenerId x =? listenerId l)%nat) ls);
    [reflexivity|].
  unfold setDelete. rewrite filter_app. cbn [filter].
  rewrite Nat.eqb_refl. cbn [negb]. now rewrite app_nil_r.
Qed.

Lemma subscribeTo_run (d : Domain) (l : Listener) (s : State) :
  fst (subscribeTo d l s) = Returned tt
  /\ listenersOf d (snd (subscribeTo d l s)) = setAdd l (listenersOf d s)
  /\ events (snd (subscribeTo d l s)) = events s
  /\ forall d', d' <> d ->
       listenersOf d' (snd (subscribeTo d l s)) = listenersOf d' s.
Proof.
  destruct d; repeat split; intros d' Hd; destruct d'; try reflexivity;
    now contradiction Hd.
Qed.

Lemma unsubscribeFrom_run (d : Domain) (l : Listener) (s : State) :
  fst (unsubscribeFrom d l s) = Returned tt
  /\ listenersOf d (snd (unsubscribeFrom d l s))
     = setDelete l (listenersOf d s)
  /\ events (snd (unsubscribeFrom d l s)) = events s
  /\ forall d', d' <> d ->
       listenersOf d' (snd (unsubscribeFrom d l s)) = listenersOf d' s.
Proof.
  destruct d; repeat split; intros d' Hd; destruct d'; try reflexivity;
    now contradiction Hd.
Qed.

Lemma notify_calls (d : Domain) (s : State) :
  calledListeners d (newEvents s (snd (notify d s)))
  = listenerIds (listenersOf d s).
Proof.
  destruct d; cbn [notify listenersOf];
    rewrite ?notifySynthesis_run, ?notifyRecognition_run,
      ?notifyTranscript_run, ?notifyQonvo_run, ?notifyConversation_run;
    cbn [snd]; rewrite newEvents_appended;
    apply calledListeners_guardedTrace.
Qed.

Lemma subscribe_unsubscribe_fresh (d : Domain) (l : Listener) (s : State) :
  ~ In (listenerId l) (listenerIds (listenersOf d s)) ->
  snd (unsubscribeFrom d l (snd (subscribeTo d l s))) = s.
Proof.
  intros H.
  assert (E : setDelete l (setAdd l (listenersOf d s)) = listenersOf d s)
    by (rewrite setDelete_setAdd; now apply setDelete_absent).
  destruct d; cbn [listenersOf] in E;
    cbn [subscribeTo unsubscribeFrom];
    unfold subscribeToSynthesis, subscribeToRecognition,
      subscribeToTranscript, subscribeToQonvo, subscribeToConversation,
      unsubscribeFromSynthesis, unsubscribeFromRecognition,
      unsubscribeFromTranscript, unsubscribeFromQonvo,
      unsubscribeFromConversation, modify;
    simpl_state; rewrite E; destruct s; reflexivity.
Qed.

(** X9.  The registry of each of the five domains is a set of listeners.
    After [subscribeToX(listener)] a notification of the domain calls the
    listener, and exactly once; subscribing it again changes nothing.
    After the returned unsubscribe function ran no notification of the
    domain calls it, the other listeners of the domain stay in their
    order, and for a listener that was not subscribed before the module
    is back where it was.  Neither touches the registry of another
    domain or calls anything. *)
Theorem subscription_is_a_set :
  forall (d : Domain) (l : Listener) (s : State),
    let subscribed := snd (subscribeTo d l s) in
    let unsubscribed := snd (unsubscribeFrom d l subscribed) in
    In (listenerId l)
      (calledListeners d (newEvents subscribed (snd (notify d subscribed))))
    /\ (NoDup (listenerIds (listenersOf d s)) ->
        NoDup
          (calledListeners d
             (newEvents subscribed (snd (notify d subscribed)))))
    /\ subscribeTo d l subscribed = (Returned tt, subscribed)
    /\ ~ In (listenerId l)
           (calledListeners d
              (newEvents unsubscribed (snd (notify d unsubscribed))))
    /\ listenersOf d unsubscribed = setDelete l (listenersOf d s)
    /\ (~ In (listenerId l) (listenerIds (listenersOf d s)) ->
        unsubscribed = s)
    /\ (forall d', d' <> d ->
          listenersOf d' subscribed = listenersOf d' s
          /\ listenersOf d' unsubscribed = listenersOf d' s)
    /\ events unsubscribed = events s.
Proof.
  intros d l s subscribed unsubscribed.
  destruct (subscribeTo_run d l s) as [_ [Hs [Hes Hso]]].
  destruct (unsubscribeFrom_run d l subscribed) as [_ [Hu [Heu Huo]]].
  fold subscribed in Hs, Hes, Hso. fold unsubscribed in Hu, Heu, Huo.
  rewrite !notify_calls, Hu, Hs, setDelete_setAdd.
  repeat split.
  - apply setAdd_In.
  - apply setAdd_NoDup.
  - assert (E : setAdd l (listenersOf d subscribed)
                = listenersOf d subscribed)
      by (rewrite Hs; apply setAdd_present, setAdd_In).
    clear - E. subst subscribed.
    destruct d; cbn [listenersOf subscribeTo] in *;
      unfold subscribeToSynthesis, subscribeToRecognition,
        subscribeToTranscript, subscribeToQonvo, subscribeToConversation,
        modify in *;
      cbn [snd] in *; rewrite E; f_equal;
      destruct s; reflexivity.
  - rewrite setDelete_ids. intros Hin. apply filter_In in Hin.
    destruct Hin as [_ Hn]. now rewrite Nat.eqb_refl in Hn.
  - intros Hf. apply (subscribe_unsubscribe_fresh d l s Hf).
  - now apply Hso.
  - rewrite Huo by assumption. now apply Hso.
  - now rewrite Heu.
Qed.

(* ================================================================== *)
(** * Further properties: the transcript *)
(* ================================================================== *)

Lemma map_setAt {A B : Type} (f : A -> B) (l : list A) (i : nat)
    (old v : A) :
  nth_error l i = Some old -> f v = f old -> map f (setAt i v l) = map f l.
Proof.
  revert i. induction l as [|x l IH]; intros [|i] H Hf; try discriminate.
  - injection H as ->. cbn. now rewrite Hf.
  - cbn. f_equal. now apply IH.
Qed.

Lemma filter_setAt_out {A : Type} (p : A -> bool) (l : list A) (i : nat)
    (old v : A) :
  nth_error l i = Some old -> p old = false -> p v = false ->
  filter p (setAt i v l) = filter p l.
Proof.
  revert i. induction l as [|x l IH]; intros [|i] H Ho Hv; try discriminate.
  - injection H as ->. cbn. now rewrite Ho, Hv.
  - cbn. rewrite (IH i H Ho Hv). reflexivity.
Qed.

Lemma filter_setAt_first {A : Type} (p : A -> bool) (l : list A) (i : nat)
    (v : A) :
  findIndex p l = Some i -> p v = true -> List.length (filter p l) <= 1 ->
  filter p (setAt i v l) = [v].
Proof.
  revert i. induction l as [|x l IH]; intros i H Hv Hn; [discriminate|].
  cbn in H, Hn. destruct (p x) eqn:Hx.
  - injection H as <-. cbn. rewrite Hv. f_equal.
    cbn in Hn. destruct (filter p l); [reflexivity|cbn in Hn; lia].
  - destruct (findIndex p l) as [j|]; [|discriminate].
    injection H as <-. cbn. rewrite Hx. now apply IH.
Qed.

Lemma isInterimOf_otherRole (r : Role) (e : TranscriptEntry) :
  negb (final e) = isInterimOf r e || isInterimOf (otherRole r) e.
Proof.
  unfold isInterimOf. destruct r, (role e), (final e); reflexivity.
Qed.

Lemma nonFinal_of_role (r : Role) (t : list TranscriptEntry) :
  interimCount (otherRole r) t = 0 ->
  filter (fun e => negb (final e)) t = filter (isInterimOf r) t.
Proof.
  unfold interimCount. induction t as [|e t IH]; [reflexivity|].
  cbn [filter]. rewrite (isInterimOf_otherRole r e).
  destruct (isInterimOf (otherRole r) e); [discriminate|].
  intros H. rewrite orb_false_r, (IH H). reflexivity.
Qed.

Lemma findIndex_filter {A : Type} (p : A -> bool) (l : list A) :
  findIndex p l = None <-> filter p l = [].
Proof.
  split; [apply findIndex_None|].
  induction l as [|x l IH]; [reflexivity|]. cbn.
  destruct (p x); [discriminate|]. intros H. now rewrite (IH H).
Qed.

Lemma lastText_last (l : list TranscriptEntry) (e : TranscriptEntry) :
  lastText (l ++ [e]) = Some (text e).
Proof. unfold lastText. now rewrite rev_app_distr. Qed.

Lemma addInterimTranscript_keeps (r : Role) (txt : string) (s : State) :
  filter (fun e => final e) (transcript (snd (addInterimTranscript r txt s)))
  = filter (fun e => final e) (transcript s)
  /\ filter (isInterimOf (otherRole r))
       (transcript (snd (addInterimTranscript r txt s)))
     = filter (isInterimOf (otherRole r)) (transcript s).
Proof.
  rewrite addInterimTranscript_run. simpl_state. unfold interimTranscript.
  destruct (findIndex (isInterimOf r) (transcript s)) as [i|] eqn:Hf.
  - destruct (findIndex_Some _ _ _ Hf) as [old [Hn Hp]]. rewrite Hn.
    unfold isInterimOf in Hp. apply andb_prop in Hp.
    destruct Hp as [Hr Hfin]. apply role_eqb_eq in Hr.
    destruct (final old) eqn:Hfo; [discriminate|].
    split; apply (filter_setAt_out _ _ _ old); auto;
      unfold isInterimOf; cbn [role final]; rewrite ?Hr, ?Hfo;
      destruct r; reflexivity.
  - split; rewrite filter_app; cbn [filter];
      unfold isInterimOf; cbn [role final];
      destruct r; cbn; now rewrite app_nil_r.
Qed.

(** X10.  [addInterimTranscript] never touches a final entry or an
    interim entry of the other role.  Where the role has an interim entry
    the first of them takes the new text in its place: the identifiers of
    the entries and their order stay as they are and no new identifier is
    drawn; where it has none an interim entry with a new identifier is
    added at the end. *)
Theorem interim_entry_updated_in_place :
  forall (r : Role) (txt : string) (s : State),
    let s' := snd (addInterimTranscript r txt s) in
    filter (fun e => final e) (transcript s')
    = filter (fun e => final e) (transcript s)
    /\ filter (isInterimOf (otherRole r)) (transcript s')
       = filter (isInterimOf (otherRole r)) (transcript s)
    /\ (interimCount r (transcript s) <> 0 ->
        map id (transcript s') = map id (transcript s)
        /\ entropy s' = entropy s
        /\ exists i old,
             findIndex (isInterimOf r) (transcript s) = Some i
             /\ nth_error (transcript s) i = Some old
             /\ nth_error (transcript s') i
                = Some (mkEntry (id old) r txt (clock s) false))
    /\ (interimCount r (transcript s) = 0 ->
        transcript s'
        = transcript s
          ++ [mkEntry (clock s, entropy s) r txt (clock s) false]
        /\ entropy s' = S (entropy s)).
Proof.
  intros r txt s s'. subst s'.
  destruct (addInterimTranscript_keeps r txt s) as [Hfin Hoth].
  split; [exact Hfin|]. split; [exact Hoth|]. clear Hfin Hoth.
  rewrite addInterimTranscript_run.
  simpl_state. unfold interimTranscript, interimCount.
  destruct (findIndex (isInterimOf r) (transcript s)) as [i|] eqn:Hf.
  - destruct (findIndex_Some _ _ _ Hf) as [old [Hn Hp]]. rewrite Hn.
    assert (Hold : final old = false /\ role old = r).
    { unfold isInterimOf in Hp. apply andb_prop in Hp.
      destruct Hp as [Hr Hfin]. apply role_eqb_eq in Hr.
      destruct (final old); [discriminate|]. auto. }
    destruct Hold as [Hfin Hrole].
    split.
    + intros _. split; [apply (map_setAt _ _ _ old); auto|].
      split; [reflexivity|].
      exists i, old. repeat split; auto.
      clear Hf Hp Hfin Hrole. revert i Hn.
      induction (transcript s) as [|x l IH]; intros [|j] Hn;
        try discriminate; cbn; auto.
    + intros H0. apply length_zero_iff_nil in H0.
      apply findIndex_filter in H0. congruence.
  - apply findIndex_None in Hf. rewrite Hf.
    split; [intros H; now contradiction H|]. intros _. split; reflexivity.
Qed.

Lemma final_without_interims (r : Role) (t : list TranscriptEntry) :
  filter (fun e => final e) (filter (fun e => negb (isInterimOf r e)) t)
  = filter (fun e => final e) t.
Proof.
  induction t as [|e t IH]; [reflexivity|]. cbn [filter].
  unfold isInterimOf at 1.
  destruct (final e) eqn:He; cbn [negb andb].
  - rewrite andb_false_r. cbn [negb filter]. rewrite He. now f_equal.
  - destruct (role_eqb (role e) r); cbn [negb filter andb]; rewrite ?He;
      exact IH.
Qed.

Lemma nonFinal_without_interims (r : Role) (t : list TranscriptEntry) :
  interimCount (otherRole r) t = 0 ->
  filter (fun e => negb (final e))
    (filter (fun e => negb (isInterimOf r e)) t) = [].
Proof.
  unfold interimCount. induction t as [|e t IH]; [reflexivity|].
  cbn [filter]. pose proof (isInterimOf_otherRole r e) as Hs.
  destruct (isInterimOf (otherRole r) e); [discriminate|].
  rewrite orb_false_r in Hs. intros H.
  destruct (isInterimOf r e); cbn [negb filter]; rewrite ?Hs;
    cbn [negb]; exact (IH H).
Qed.

(** X11.  Where the other role has no interim entry and the role at most
    one (the module writes interim entries for the user only), the
    snapshot read after [addInterimTranscript] has the new text as its
    caption and the final entries as before, and the snapshot read after
    [addFinalTranscript] has no caption and the new final entry as its
    last entry. *)
Theorem caption_is_latest_partial :
  forall (r : Role) (txt : string) (s : State),
    interimCount (otherRole r) (transcript s) = 0 ->
    interimCount r (transcript s) <= 1 ->
    fst (getTranscriptSnapshot (snd (addInterimTranscript r txt s)))
    = Returned
        (mkTranscriptSnapshot (filter (fun e => final e) (transcript s))
           (Some txt))
    /\ fst (getTranscriptSnapshot (snd (addFinalTranscript r txt s)))
       = Returned
           (mkTranscriptSnapshot
              (filter (fun e => final e) (transcript s)
               ++ [mkEntry (clock s, entropy s) r txt (clock s) true])
              None).
Proof.
  intros r txt s Ho Hr. split.
  - destruct (addInterimTranscript_keeps r txt s) as [Hfin Hoth].
    rewrite getTranscriptSnapshot_run.
    rewrite addInterimTranscript_run in *. simpl_state.
    simpl_state_in Hfin. simpl_state_in Hoth.
    unfold transcriptView. rewrite Hfin. do 2 f_equal.
    rewrite (nonFinal_of_role r)
      by (unfold interimCount; rewrite Hoth; exact Ho).
    unfold interimTranscript.
    destruct (findIndex (isInterimOf r) (transcript s)) as [i|] eqn:Hf.
    + destruct (findIndex_Some _ _ _ Hf) as [old [Hn Hp]]. rewrite Hn.
      rewrite (filter_setAt_first _ _ _ _ Hf);
        [reflexivity| |exact Hr].
      unfold isInterimOf. cbn [role final]. destruct r; reflexivity.
    + apply findIndex_None in Hf. rewrite filter_app, Hf. cbn [filter app].
      unfold isInterimOf. cbn [role final].
      destruct r; reflexivity.
  - rewrite getTranscriptSnapshot_run, addFinalTranscript_run. simpl_state.
    unfold transcriptView, finalTranscript. rewrite !filter_app.
    rewrite final_without_interims, (nonFinal_without_interims r _ Ho).
    reflexivity.
Qed.

(** The first partial result and the final result of a first utterance. *)
Lemma caption_is_latest_partial_witness :
  fst (getTranscriptSnapshot
         (snd (addInterimTranscript user "hel" initialState)))
  = Returned (mkTranscriptSnapshot [] (Some "hel"))
  /\ fst (getTranscriptSnapshot
            (snd (addFinalTranscript user "hello" initialState)))
     = Returned
         (mkTranscriptSnapshot [mkEntry (0%Z, 0%nat) user "hello" 0%Z true]
            None).
Proof.
  split;
    [apply (caption_is_latest_partial user "hel" initialState)
    |apply (caption_is_latest_partial user "hello" initialState)];
    solve [reflexivity | cbn; lia].
Defined.

(* ================================================================== *)
(** * Further properties: a conversation without an engine *)
(* ================================================================== *)

Lemma userCalls_app (a b : list Event) :
  userCalls (a ++ b) = userCalls a ++ userCalls b.
Proof.
  induction a as [|x a IH]; [reflexivity|].
  destruct x; cbn; rewrite ?IH; reflexivity.
Qed.

Lemma userCalls_guardedTrace (d : Domain) (ls : list Listener) :
  userCalls (guardedTrace d ls) = [].
Proof.
  induction ls as [|l ls IH]; [reflexivity|].
  unfold guardedTrace in *. cbn [flat_map]. rewrite userCalls_app, IH.
  unfold listenerTrace. destruct (listenerThrows l); reflexivity.
Qed.

Lemma userCalls_logTrace (error : Thrown) (context : option string)
    (enabled : bool) :
  userCalls (logTrace error context enabled) = [].
Proof.
  unfold logTrace. destruct enabled; [|reflexivity].
  destruct error as [e| |]; try reflexivity.
  destruct (shouldLogError e); reflexivity.
Qed.

Lemma loopCleanup_run (s : State) :
  loopCleanup s
  = (Returned tt,
     set_events
       (events s
        ++ guardedTrace ConversationDomain (conversationListeners s))
       (set_cachedConversationSnapshot None
          (set_activeConversationLoop None s))).
Proof.
  unfold loopCleanup, bind, modify. rewrite notifyConversation_run.
  reflexivity.
Qed.

(** X12.  A conversation without a recognition engine ends in its first
    pass, whatever its method: the loop reports [STT_NOT_AVAILABLE] to
    [logError] (once, when logging is enabled), clears the conversation
    and notifies the conversation listeners.  The user callback is never
    called, no [onError] callback is called, and the error does not
    become the last error. *)
Theorem conversation_without_recognition_engine :
  forall (chain : ConversationChain) (loopOptions : option LoopOptions)
         (callback : UserCallback) (i : Interleaving)
         (rest : list (UserCallback * Interleaving)) (s : State),
    stt s = None ->
    loopRunning s = true ->
    let s' := snd (onRecognition chain loopOptions ((callback, i) :: rest) s)
    in
    fst (onRecognition chain loopOptions ((callback, i) :: rest) s)
    = Returned LoopCleanedUp
    /\ activeConversationLoop s' = None
    /\ loggedErrors (newEvents s s')
       = (if errorLoggingEnabled s
          then [ThrownVoiceError sttNotAvailable] else [])
    /\ calledListeners ConversationDomain (newEvents s s')
       = listenerIds (conversationListeners s)
    /\ userCalls (newEvents s s') = []
    /\ onErrorCalls (newEvents s s') = []
    /\ lastError s' = lastError s.
Proof.
  intros chain loopOptions callback i rest s Hs Hrun s'. subst s'.
  assert (Hbody :
    conversationBody chain (effectivePause loopOptions) callback i s
    = (Returned BodyBreak,
       set_events
         (events s
          ++ logTrace (ThrownVoiceError sttNotAvailable)
               (Some "Conversation loop") (errorLoggingEnabled s)) s)).
  { unfold conversationBody, tryCatch. unfold bind at 1.
    unfold recognizeOnce, bind at 1, gets at 1. rewrite Hs.
    unfold throw. fold sttNotAvailable.
    unfold conversationCatch, bind at 1, gets at 1. rewrite Hrun.
    cbn [thrownCodeIs thrownCode thrownIsSystemError orb negb code
         code_eqb sttNotAvailable createVoiceError enrichErrorMetadata
         isSystemError existsb].
    unfold bind, logLoopError.
    cbn [thrownShouldLog shouldLogError existsb SILENT_ERROR_CODES code
         code_eqb orb negb when_ sttNotAvailable createVoiceError
         enrichErrorMetadata].
    rewrite logError_run. reflexivity. }
  unfold onRecognition. cbn [conversationLoop].
  rewrite (bind_returned _ _ _ _ _ Hbody).
  rewrite (bind_returned _ _ _ _ _ (loopCleanup_run _)).
  unfold ret. simpl_state.
  erewrite newEvents_of_events
    by (simpl_state; rewrite <- ?app_assoc; reflexivity).
  rewrite loggedErrors_app, calledListeners_app, userCalls_app,
    onErrorCalls_app, loggedErrors_guardedTrace,
    calledListeners_guardedTrace, userCalls_guardedTrace,
    onErrorCalls_guardedTrace, userCalls_logTrace, onErrorCalls_logTrace,
    app_nil_r.
  repeat split.
  - now rewrite loggedErrors_logTrace by reflexivity.
  - unfold logTrace. destruct (errorLoggingEnabled s); reflexivity.
Qed.

(** [startConversation()] on the module as it is loaded. *)
Lemma conversation_without_recognition_engine_witness :
  fst (onRecognition (mkConversationChain continuous true 0) None
         [(fun r => Returned (rr_text r), undisturbed)]
         (snd (startConversation None initialState)))
  = Returned LoopCleanedUp.
Proof.
  apply (conversation_without_recognition_engine
           (mkConversationChain continuous true 0) None
           (fun r => Returned (rr_text r)) undisturbed []
           (snd (startConversation None initialState)));
    reflexivity.
Defined.

(* ================================================================== *)
(** * Further properties: a synthesis call from start to end *)
(* ================================================================== *)

(** The steps of [startSynthesis] from [new AbortController()] on, when
    the listeners return and the engine's [start] resolves. *)
Ltac run_successful_start Ht Hr Hl :=
  unfold bind at 1, newAbortController at 1; unfold bind at 1, gets at 1;
  unfold bind at 1, modify at 1, ret at 1;
  unfold bind at 1, dateNow at 1, gets at 1;
  unfold bind at 1; rewrite setActiveSynthesisSession_run; simpl_state;
  rewrite Hl;
  unfold bind at 1; rewrite setError_run; simpl_state;
  unfold bind at 1; rewrite addFinalTranscript_run; simpl_state;
  unfold tryFinally, tryCatch, callTts; unfold bind at 1 2 3, gets at 1;
  simpl_state;
  rewrite Ht; unfold emit at 1, modify at 1; rewrite Hr; unfold await, ret;
  simpl_state;
  unfold startSuccessTrace, startSuccessState;
  unfold bind at 1, gets at 1; simpl_state;
  cbn [sameSynthesisSession ss_abortController]; rewrite Nat.eqb_refl;
  cbn [when_]; rewrite setActiveSynthesisSession_run; simpl_state;
  rewrite Hl; rewrite <- !app_assoc; reflexivity.

Lemma startSynthesis_succeeds_fresh (txt : string)
    (options : SynthesizeOptions) (engine : TTSEngine) (s : State) :
  tts s = Some engine ->
  activeSynthesisSession s = None ->
  tts_start engine txt = Resolved ->
  unguardedOutcome (synthesisListeners s) = Returned tt ->
  startSynthesis txt options s
  = (Returned tt,
     set_events (events s ++ startSuccessTrace txt options s)
       (startSuccessState txt s)).
Proof.
  intros Ht Ha Hr Hl.
  unfold startSynthesis. unfold bind at 1, gets at 1. rewrite Ht.
  unfold bind at 1, gets at 1. rewrite Ha. cbn [isSome when_].
  unfold bind at 1, ret at 1.
  run_successful_start Ht Hr Hl.
Qed.

Lemma startSynthesis_succeeds_restart (txt : string)
    (options : SynthesizeOptions) (engine : TTSEngine)
    (old : SynthesisSession) (s : State) :
  tts s = Some engine ->
  activeSynthesisSession s = Some old ->
  tts_start engine txt = Resolved ->
  unguardedOutcome (synthesisListeners s) = Returned tt ->
  startSynthesis txt options s
  = (Returned tt,
     set_events
       (events (snd (stopSynthesis s))
        ++ startSuccessTrace txt options (snd (stopSynthesis s)))
       (startSuccessState txt (snd (stopSynthesis s)))).
Proof.
  intros Ht Ha Hr Hl.
  rewrite (stopSynthesis_run engine old s Ht Ha), Hl.
  unfold startSynthesis. unfold bind at 1, gets at 1. rewrite Ht.
  unfold bind at 1, gets at 1. rewrite Ha. cbn [isSome when_].
  unfold bind at 1. rewrite (stopSynthesis_run engine old s Ht Ha), Hl.
  run_successful_start Ht Hr Hl.
Qed.

Lemma engineEvents_logTrace (error : Thrown) (context : option string)
    (enabled : bool) :
  engineEvents (logTrace error context enabled) = [].
Proof.
  unfold logTrace. destruct enabled; [|reflexivity].
  destruct error as [e| |]; try reflexivity.
  destruct (shouldLogError e); reflexivity.
Qed.

Lemma engineEvents_stopFailureTrace (r : Settled) (c : VoiceErrorCode)
    (context : string) (enabled : bool) :
  engineEvents (stopFailureTrace r c context enabled) = [].
Proof. destruct r; [reflexivity|apply engineEvents_logTrace]. Qed.

Lemma onErrorCalls_unguardedTrace (d : Domain) (ls : list Listener) :
  onErrorCalls (unguardedTrace d ls) = [].
Proof.
  induction ls as [|l ls IH]; [reflexivity|]. cbn.
  destruct (listenerThrows l); [reflexivity|exact IH].
Qed.

Lemma onErrorCalls_stopFailureTrace (r : Settled) (c : VoiceErrorCode)
    (context : string) (enabled : bool) :
  onErrorCalls (stopFailureTrace r c context enabled) = [].
Proof. destruct r; [reflexivity|apply onErrorCalls_logTrace]. Qed.

(** X13.  A [startSynthesis] whose listeners return and whose engine call
    resolves returns.  It retires the session of an earlier call first:
    the engine sees the abort signal of the old session, then [stop],
    then the one [start] for the new text, with the caller's signal when
    there is one; a failure of that [stop] does not prevent the [start].
    Afterwards no session is active, the last error is cleared, the
    transcript has the text as its last, final, assistant entry, and no
    [onError] callback was called. *)
Theorem startSynthesis_speaks :
  forall (txt : string) (options : SynthesizeOptions) (engine : TTSEngine)
         (s : State),
    tts s = Some engine ->
    tts_start engine txt = Resolved ->
    unguardedOutcome (synthesisListeners s) = Returned tt ->
    let s' := snd (startSynthesis txt options s) in
    fst (startSynthesis txt options s) = Returned tt
    /\ engineEvents (newEvents s s')
       = match activeSynthesisSession s with
         | Some old => [EvAbort (ss_abortController old); EvTtsStop]
         | None => []
         end
         ++ [EvTtsStart txt
               (orDefault (so_signal options) (nextAbortController s))]
    /\ activeSynthesisSession s' = None
    /\ lastError s' = None
    /\ transcript s'
       = filter (fun e => negb (isInterimOf assistant e)) (transcript s)
         ++ [mkEntry (clock s, entropy s) assistant txt (clock s) true]
    /\ onErrorCalls (newEvents s s') = []
    /\ fst (getSynthesisSnapshot s')
       = Returned (mkSynthesisSnapshot false false (isSynthesisAvailable s)).
Proof.
  intros txt options engine s Ht Hr Hl s'. subst s'.
  destruct (activeSynthesisSession s) as [old|] eqn:Ha.
  - rewrite (startSynthesis_succeeds_restart txt options engine old s
               Ht Ha Hr Hl).
    rewrite (stopSynthesis_run engine old s Ht Ha), Hl.
    cbn [fst snd]. rewrite getSynthesisSnapshot_run.
    unfold startSuccessState, startSuccessTrace. simpl_state.
    erewrite newEvents_of_events
      by (simpl_state; rewrite <- !app_assoc; reflexivity).
    rewrite !engineEvents_app, !onErrorCalls_app,
      !engineEvents_unguardedTrace, !engineEvents_guardedTrace,
      engineEvents_stopFailureTrace, !onErrorCalls_unguardedTrace,
      !onErrorCalls_guardedTrace, onErrorCalls_stopFailureTrace.
    repeat split.
  - rewrite (startSynthesis_succeeds_fresh txt options engine s
               Ht Ha Hr Hl).
    cbn [fst snd]. rewrite getSynthesisSnapshot_run.
    unfold startSuccessState, startSuccessTrace. simpl_state.
    rewrite newEvents_appended.
    rewrite !engineEvents_app, !onErrorCalls_app,
      !engineEvents_unguardedTrace, !engineEvents_guardedTrace,
      !onErrorCalls_unguardedTrace, !onErrorCalls_guardedTrace.
    repeat split.
Qed.

(** A second call while the session of the first is still active. *)
Lemma startSynthesis_speaks_witness :
  engineEvents
    (newEvents (speakingState quietTts speakingSession)
       (snd (startSynthesis "hi" noSynthesizeOptions
               (speakingState quietTts speakingSession))))
  = [EvAbort 7; EvTtsStop; EvTtsStart "hi" 8].
Proof.
  apply (startSynthesis_speaks "hi" noSynthesizeOptions quietTts
           (speakingState quietTts speakingSession));
    reflexivity.
Defined.

(** X14.  A [startSynthesis] that finds no session, whose listeners
    return and whose engine call rejects: the per-operation and the
    global [onError] callback are each called once with the normalized
    error, also for an abort.  For an abort nothing is logged and the
    last error stays cleared; any other failure becomes the last error,
    shows in the readiness snapshot, and is logged once when logging is
    enabled and the code is not [NO_SPEECH].  The engine is not asked to
    stop. *)
Theorem startSynthesis_reports_failure :
  forall (txt : string) (options : SynthesizeOptions) (engine : TTSEngine)
         (v : Thrown) (s : State),
    tts s = Some engine ->
    activeSynthesisSession s = None ->
    tts_start engine txt = Rejected v ->
    unguardedOutcome (synthesisListeners s) = Returned tt ->
    let e := toVoiceError v TTS_FAILED in
    let s' := snd (startSynthesis txt options s) in
    onErrorCalls (newEvents s s')
    = match so_onError options with
      | Some c => [(false, callbackId c)]
      | None => []
      end
      ++ match globalOnError s with
         | Some c => [(true, callbackId c)]
         | None => []
         end
    /\ lastError s' = (if code_eqb (code e) ABORTED then None else Some e)
    /\ fst (getQonvoSnapshot s')
       = Returned
           (mkQonvoSnapshot (isReady s)
              (if code_eqb (code e) ABORTED then None else Some e))
    /\ loggedErrors (newEvents s s')
       = (if errorLoggingEnabled s && shouldLogError e
          then [ThrownVoiceError e] else [])
    /\ engineEvents (newEvents s s')
       = [EvTtsStart txt
            (orDefault (so_signal options) (nextAbortController s))].
Proof.
  intros txt options engine v s Ht Ha Hr Hl e s'. subst s'.
  rewrite (startSynthesis_fails_fresh txt options engine v s Ht Ha Hr Hl).
  fold e. cbn [snd]. rewrite newEvents_appended, getQonvoSnapshot_run.
  unfold startFailureState, startFailureTrace, qonvoView. simpl_state.
  rewrite !onErrorCalls_app, !loggedErrors_app, !engineEvents_app,
    !onErrorCalls_unguardedTrace, !onErrorCalls_guardedTrace,
    onErrorCalls_handleTrace, onErrorCalls_logTrace,
    !loggedErrors_unguardedTrace, !loggedErrors_guardedTrace,
    !engineEvents_unguardedTrace, !engineEvents_guardedTrace,
    engineEvents_logTrace.
  unfold handleTrace.
  rewrite !loggedErrors_app, !engineEvents_app, !loggedErrors_onErrorTrace.
  destruct (code_eqb (code e) ABORTED) eqn:Hab.
  - assert (Hsil : shouldLogError e = false).
    { apply silent_codes. left. destruct (code e); try discriminate.
      reflexivity. }
    rewrite (logTrace_silent e _ _ Hsil), Hsil, andb_false_r.
    cbn [app]. rewrite !app_nil_r.
    repeat split.
    unfold onErrorTrace.
    destruct (so_onError options) as [c|], (globalOnError s) as [g|];
      cbn [app engineEvents filter isEngineEvent];
      repeat match goal with
        | |- context [callbackThrows ?c ?e] => destruct (callbackThrows c e)
        end; reflexivity.
  - rewrite loggedErrors_guardedTrace, engineEvents_guardedTrace.
    cbn [app]. rewrite !app_nil_r.
    repeat split.
    + unfold logTrace.
      destruct (errorLoggingEnabled s), (shouldLogError e); reflexivity.
    + unfold onErrorTrace.
      destruct (so_onError options) as [c|], (globalOnError s) as [g|];
        cbn [app engineEvents filter isEngineEvent];
        repeat match goal with
          | |- context [callbackThrows ?c ?e] =>
              destruct (callbackThrows c e)
          end; reflexivity.
Qed.

(** The engine's [start] rejects on the bound module. *)
Lemma startSynthesis_reports_failure_witness :
  lastError
    (snd (startSynthesis "hi" noSynthesizeOptions
            (set_tts (Some brokenTts) boundState)))
  = Some (toVoiceError (ThrownError (mkJsError "Error" "synthesis-failed"))
            TTS_FAILED).
Proof.
  apply (startSynthesis_reports_failure "hi" noSynthesizeOptions brokenTts
           (ThrownError (mkJsError "Error" "synthesis-failed"))
           (set_tts (Some brokenTts) boundState));
    reflexivity.
Defined.

(* ================================================================== *)
(** * Further properties: the recognition controller *)
(* ================================================================== *)

Lemma settlements_app (a b : list Event) :
  settlements (a ++ b) = settlements a ++ settlements b.
Proof.
  induction a as [|x a IH]; [reflexivity|].
  destruct x; cbn; rewrite ?IH; reflexivity.
Qed.

Lemma settlements_guardedTrace (d : Domain) (ls : list Listener) :
  settlements (guardedTrace d ls) = [].
Proof.
  induction ls as [|l ls IH]; [reflexivity|].
  unfold guardedTrace in *. cbn [flat_map]. rewrite settlements_app, IH.
  unfold listenerTrace. destruct (listenerThrows l); reflexivity.
Qed.

Lemma settlements_unguardedTrace (d : Domain) (ls : list Listener) :
  settlements (unguardedTrace d ls) = [].
Proof.
  induction ls as [|l ls IH]; [reflexivity|]. cbn.
  destruct (listenerThrows l); [reflexivity|exact IH].
Qed.

Lemma settlements_logTrace (error : Thrown) (context : option string)
    (enabled : bool) :
  settlements (logTrace error context enabled) = [].
Proof.
  unfold logTrace. destruct enabled; [|reflexivity].
  destruct error as [e| |]; try reflexivity.
  destruct (shouldLogError e); reflexivity.
Qed.

Lemma settlements_onErrorTrace (g : bool) (cb : option ErrorCallback)
    (e : VoiceError) :
  settlements (onErrorTrace g cb e) = [].
Proof.
  destruct cb as [c|]; [|reflexivity]. cbn.
  destruct (callbackThrows c e); reflexivity.
Qed.

Lemma settlements_handleTrace (e : VoiceError) (cb : option ErrorCallback)
    (ls : list Listener) (g : option ErrorCallback) :
  settlements (handleTrace e cb ls g) = [].
Proof.
  unfold handleTrace.
  rewrite !settlements_app, !settlements_onErrorTrace.
  destruct (code_eqb (code e) ABORTED);
    [reflexivity|now rewrite settlements_guardedTrace].
Qed.

Lemma engineEvents_onErrorTrace (g : bool) (cb : option ErrorCallback)
    (e : VoiceError) :
  engineEvents (onErrorTrace g cb e) = [].
Proof.
  destruct cb as [c|]; [|reflexivity]. cbn.
  destruct (callbackThrows c e); reflexivity.
Qed.

Lemma engineEvents_handleTrace (e : VoiceError) (cb : option ErrorCallback)
    (ls : list Listener) (g : option ErrorCallback) :
  engineEvents (handleTrace e cb ls g) = [].
Proof.
  unfold handleTrace.
  rewrite !engineEvents_app, !engineEvents_onErrorTrace.
  destruct (code_eqb (code e) ABORTED);
    [reflexivity|now rewrite engineEvents_guardedTrace].
Qed.

(** [stop().catch(() => {})] returns; it adds no settlement and no
    callback call, clears the session when an engine is bound, and
    leaves the last error. *)
Lemma swallow_stop_frame (s : State) :
  fst (swallow stop s) = Returned tt
  /\ (exists l,
        events (snd (swallow stop s)) = events s ++ l
        /\ settlements l = [] /\ onErrorCalls l = [])
  /\ activeRecognitionSession (snd (swallow stop s))
     = match stt s with
       | Some _ => None
       | None => activeRecognitionSession s
       end
  /\ lastError (snd (swallow stop s)) = lastError s.
Proof.
  unfold swallow, stop, tryCatch.
  destruct (stt s) as [engine|] eqn:Ht.
  - destruct (activeRecognitionSession s) as [session|] eqn:Ha.
    + rewrite (stopRecognition_run engine session s Ht Ha).
      destruct (unguardedOutcome (recognitionListeners s)) as [[]|v];
        cbn [fst snd ret]; unfold recognitionCleared; simpl_state;
        (split; [reflexivity|]); (split; [|split; reflexivity]);
        eexists; (split; [reflexivity|]);
        rewrite ?settlements_app, ?onErrorCalls_app,
          ?settlements_unguardedTrace, ?onErrorCalls_unguardedTrace;
        [|split; reflexivity].
      destruct (stt_stop engine) as [|w]; cbn [stopFailureTrace];
        rewrite ?settlements_logTrace, ?onErrorCalls_logTrace;
        split; reflexivity.
    + rewrite stopRecognition_idle by (right; exact Ha).
      cbn [fst snd]. rewrite Ha.
      split; [reflexivity|]. split; [|split; reflexivity].
      exists []. now rewrite app_nil_r.
  - rewrite stopRecognition_idle by (left; exact Ht).
    cbn [fst snd].
    split; [reflexivity|]. split; [|split; reflexivity].
    exists []. now rewrite app_nil_r.
Qed.

(** X15.  The [onError] handler of a controller always returns.  For an
    [ABORTED] or [NO_SPEECH] report it rejects nothing, calls no callback
    and leaves the last error; in continuous mode it then changes nothing
    at all.  Any other report becomes the last error and reaches the
    per-operation and the global callback once each.  In [once] mode the
    handler rejects the controller's promise with it, and in both cases
    ends the active session of the module when an engine is bound,
    whichever controller that session belongs to.  In continuous mode the
    report is logged once when logging is enabled, nothing is settled,
    the engine is not touched and the session stays active. *)
Theorem controller_onError_delivery :
  forall (this : Controller) (e : VoiceError) (s : State),
    let s' := snd (onError this e s) in
    fst (onError this e s) = Returned tt
    /\ (notSilentSignal e = false ->
        settlements (newEvents s s') = []
        /\ onErrorCalls (newEvents s s') = []
        /\ lastError s' = lastError s
        /\ (ctl_method this = continuous -> s' = s))
    /\ (notSilentSignal e = true ->
        lastError s' = Some e
        /\ onErrorCalls (newEvents s s')
           = match ro_onError (ctl_options this) with
             | Some c => [(false, callbackId c)]
             | None => []
             end
             ++ match globalOnError s with
                | Some c => [(true, callbackId c)]
                | None => []
                end
        /\ settlements (newEvents s s')
           = match ctl_method this with
             | once => [(controllerId this, ResultRejected e)]
             | continuous => []
             end
        /\ (ctl_method this = continuous ->
            activeRecognitionSession s' = activeRecognitionSession s
            /\ engineEvents (newEvents s s') = []
            /\ loggedErrors (newEvents s s')
               = if errorLoggingEnabled s then [ThrownVoiceError e]
                 else []))
    /\ (ctl_method this = once ->
        activeRecognitionSession s'
        = match stt s with
          | Some _ => None
          | None => activeRecognitionSession s
          end).
Proof.
  intros this e s s'. subst s'.
  assert (Hlog : notSilentSignal e = true -> shouldLogError e = true).
  { unfold notSilentSignal, shouldLogError, SILENT_ERROR_CODES.
    cbn [existsb]. destruct (code_eqb (code e) ABORTED),
      (code_eqb (code e) NO_SPEECH); cbn; congruence. }
  unfold onError. destruct (ctl_method this).
  - (* once *)
    destruct (notSilentSignal e) eqn:Hn; cbn [when_].
    + assert (Hab : code_eqb (code e) ABORTED = false).
      { unfold notSilentSignal in Hn.
        destruct (code_eqb (code e) ABORTED); [discriminate|reflexivity]. }
      assert (Hstep :
        (settle this (ResultRejected e) ;;
         handleError e (ro_onError (ctl_options this))) s
        = (Returned tt,
           set_events
             (events s
              ++ [EvSettle (controllerId this) (ResultRejected e)]
              ++ handleTrace e (ro_onError (ctl_options this))
                   (qonvoListeners s) (globalOnError s))
             (recordError e s))).
      { unfold bind, settle, emit, modify. rewrite handleError_run.
        simpl_state. rewrite <- !app_assoc. reflexivity. }
      rewrite (bind_returned _ _ _ _ _ Hstep).
      match goal with
      | |- context [swallow stop ?x] =>
          destruct (swallow_stop_frame x) as [Hr [[l [Hev [Hs Ho]]] [Ha Hl]]];
          revert Hr Hev Ha Hl; generalize (swallow stop x)
      end.
      intros [o3 s3]. cbn [fst snd]. simpl_state. rewrite Hab.
      intros -> Hev Ha Hl.
      erewrite newEvents_of_events
        by (rewrite Hev, <- !app_assoc; reflexivity).
      rewrite !settlements_app, !onErrorCalls_app, Hs, Ho,
        settlements_handleTrace, onErrorCalls_handleTrace, !app_nil_r.
      repeat split; try discriminate; auto.
    + assert (Hstep : ret tt s = (Returned tt, s)) by reflexivity.
      rewrite (bind_returned _ _ _ _ _ Hstep).
      destruct (swallow_stop_frame s) as [Hr [[l [Hev [Hs Ho]]] [Ha Hl]]].
      revert Hr Hev Ha Hl. generalize (swallow stop s).
      intros [o3 s3]. cbn [fst snd]. intros -> Hev Ha Hl.
      erewrite newEvents_of_events by exact Hev.
      repeat split; try discriminate; auto.
  - (* continuous *)
    destruct (notSilentSignal e) eqn:Hn; cbn [when_].
    + assert (Hab : code_eqb (code e) ABORTED = false).
      { unfold notSilentSignal in Hn.
        destruct (code_eqb (code e) ABORTED); [discriminate|reflexivity]. }
      rewrite (Hlog eq_refl). cbn [when_].
      rewrite (bind_returned _ _ _ _ _ (handleError_run _ _ _)).
      rewrite logError_run. simpl_state. cbn [fst snd]. simpl_state.
      rewrite Hab.
      erewrite newEvents_of_events
        by (simpl_state; rewrite <- !app_assoc; reflexivity).
      rewrite !settlements_app, !onErrorCalls_app, !engineEvents_app,
        !loggedErrors_app, settlements_handleTrace,
        onErrorCalls_handleTrace, engineEvents_handleTrace,
        loggedErrors_handleTrace, settlements_logTrace,
        onErrorCalls_logTrace, engineEvents_logTrace,
        (loggedErrors_logTrace e _ _ (Hlog eq_refl)), !app_nil_r.
      repeat split; try discriminate; auto.
    + cbn [fst snd ret]. unfold newEvents.
      rewrite skipn_all.
      repeat split; try discriminate; auto.
Qed.

Lemma onStartRejected_run (this : Controller) (error : Thrown) (s : State) :
  let e := toVoiceError error STT_FAILED in
  let aborted := code_eqb (code e) ABORTED in
  let same :=
    sameRecognitionSession (activeRecognitionSession s) (session this) in
  onStartRejected this error s
  = (if same then unguardedOutcome (recognitionListeners s)
     else Returned tt,
     set_events
       (events s
        ++ (if aborted then []
            else
              match ctl_method this with
              | once => [EvSettle (controllerId this) (ResultRejected e)]
              | continuous => []
              end
              ++ handleTrace e (ro_onError (ctl_options this))
                   (qonvoListeners s) (globalOnError s)
              ++ match ctl_method this with
                 | once => []
                 | continuous =>
                     logTrace (ThrownVoiceError e)
                       (Some "UnifiedRecognitionController.continuous.catch")
                       (errorLoggingEnabled s)
                 end)
        ++ (if same
            then unguardedTrace RecognitionDomain (recognitionListeners s)
            else []))
       (set_cachedRecognitionSnapshot
          (if same then None else cachedRecognitionSnapshot s)
          (set_activeRecognitionSession
             (if same then None else activeRecognitionSession s)
             (set_cachedQonvoSnapshot
                (if aborted then cachedQonvoSnapshot s else None)
                (set_lastError (if aborted then lastError s else Some e)
                   s))))).
Proof.
  intros e aborted same. unfold onStartRejected. fold e.
  assert (Hfirst :
    match ctl_method this with
    | once =>
        when_ (negb (code_eqb (code e) ABORTED))
          (settle this (ResultRejected e) ;;
           handleError e (ro_onError (ctl_options this)))
    | continuous =>
        when_ (negb (code_eqb (code e) ABORTED))
          (handleError e (ro_onError (ctl_options this)) ;;
           when_ (shouldLogError e)
             (logError (ThrownVoiceError e)
                (Some "UnifiedRecognitionController.continuous.catch")))
    end s
    = (Returned tt,
       set_events
         (events s
          ++ (if aborted then []
              else
                match ctl_method this with
                | once => [EvSettle (controllerId this) (ResultRejected e)]
                | continuous => []
                end
                ++ handleTrace e (ro_onError (ctl_options this))
                     (qonvoListeners s) (globalOnError s)
                ++ match ctl_method this with
                   | once => []
                   | continuous =>
                       logTrace (ThrownVoiceError e)
                         (Some
                            "UnifiedRecognitionController.continuous.catch")
                         (errorLoggingEnabled s)
                   end))
         (set_cachedQonvoSnapshot
            (if aborted then cachedQonvoSnapshot s else None)
            (set_lastError (if aborted then lastError s else Some e) s)))).
  { subst aborted.
    destruct (ctl_method this), (code_eqb (code e) ABORTED) eqn:Hab;
      cbn [negb when_ ret].
    - rewrite app_nil_r. destruct s; reflexivity.
    - unfold bind, settle, emit, modify. rewrite handleError_run.
      unfold recordError. simpl_state. rewrite Hab, app_nil_r.
      rewrite <- !app_assoc. reflexivity.
    - rewrite app_nil_r. destruct s; reflexivity.
    - rewrite (bind_returned _ _ _ _ _ (handleError_run _ _ _)).
      unfold recordError. rewrite Hab. cbn [app].
      destruct (shouldLogError e) eqn:Hs; cbn [when_].
      + rewrite logError_run. simpl_state. rewrite <- !app_assoc.
        reflexivity.
      + rewrite (logTrace_silent e _ _ Hs), app_nil_r. reflexivity. }
  rewrite (bind_returned _ _ _ _ _ Hfirst).
  unfold bind, gets. simpl_state. fold same.
  destruct same; cbn [when_ ret].
  - rewrite setActiveRecognitionSession_run. simpl_state.
    rewrite <- !app_assoc. reflexivity.
  - rewrite app_nil_r. f_equal. f_equal.
    destruct s; reflexivity.
Qed.

(** X16.  The handler of a rejected [start] call of the recognition
    engine.  A failure that is not an abort becomes the last error and
    reaches the per-operation and the global callback once each; in
    [once] mode it also rejects the controller's promise.  An abort does
    none of this.  The handler clears the session of the module only when
    it is the controller's own, so a session started in the meantime
    stays active, and it never aborts or stops anything.  Where it clears
    the session the listeners are called unguarded and the handler ends
    as they do. *)
Theorem start_rejection_handled :
  forall (this : Controller) (error : Thrown) (s : State),
    let e := toVoiceError error STT_FAILED in
    let s' := snd (onStartRejected this error s) in
    let own :=
      sameRecognitionSession (activeRecognitionSession s) (session this) in
    activeRecognitionSession s'
    = (if own then None else activeRecognitionSession s)
    /\ fst (onStartRejected this error s)
       = (if own then unguardedOutcome (recognitionListeners s)
          else Returned tt)
    /\ settlements (newEvents s s')
       = match ctl_method this with
         | once =>
             if code_eqb (code e) ABORTED then []
             else [(controllerId this, ResultRejected e)]
         | continuous => []
         end
    /\ lastError s'
       = (if code_eqb (code e) ABORTED then lastError s else Some e)
    /\ onErrorCalls (newEvents s s')
       = (if code_eqb (code e) ABORTED then []
          else
            match ro_onError (ctl_options this) with
            | Some c => [(false, callbackId c)]
            | None => []
            end
            ++ match globalOnError s with
               | Some c => [(true, callbackId c)]
               | None => []
               end)
    /\ engineEvents (newEvents s s') = [].
Proof.
  intros this error s e s' own. subst s'.
  rewrite (onStartRejected_run this error s). fold e. fold own.
  cbn [fst snd]. simpl_state. rewrite newEvents_appended.
  rewrite !settlements_app, !onErrorCalls_app, !engineEvents_app.
  assert (Hu : forall b : bool,
    settlements
      (if b then unguardedTrace RecognitionDomain (recognitionListeners s)
       else []) = []
    /\ onErrorCalls
         (if b then unguardedTrace RecognitionDomain (recognitionListeners s)
          else []) = []
    /\ engineEvents
         (if b then unguardedTrace RecognitionDomain (recognitionListeners s)
          else []) = []).
  { intros []; repeat split; auto using settlements_unguardedTrace,
      onErrorCalls_unguardedTrace, engineEvents_unguardedTrace. }
  destruct (Hu own) as [-> [-> ->]]. rewrite !app_nil_r.
  destruct (code_eqb (code e) ABORTED).
  - destruct (ctl_method this); repeat split.
  - rewrite !settlements_app, !onErrorCalls_app, !engineEvents_app,
      settlements_handleTrace, onErrorCalls_handleTrace,
      engineEvents_handleTrace.
    destruct (ctl_method this);
      rewrite ?settlements_logTrace, ?onErrorCalls_logTrace,
        ?engineEvents_logTrace, ?app_nil_r;
      repeat split.
Qed.

(** ** Phrase registration *)

Lemma mapSet_mapSet {V : Type} (k : string) (v w : V)
    (m : list (string * V)) :
  mapSet k w (mapSet k v m) = mapSet k w m.
Proof.
  induction m as [|[k' v'] m IH]; cbn.
  - now rewrite String.eqb_refl.
  - destruct (String.eqb k' k) eqn:Hk; cbn.
    + now rewrite String.eqb_refl.
    + now rewrite Hk, IH.
Qed.

Lemma mapGet_mapSet {V : Type} (k : string) (v : V)
    (m : list (string * V)) :
  mapGet k (mapSet k v m) = Some v.
Proof.
  induction m as [|[k' v'] m IH]; cbn.
  - now rewrite String.eqb_refl.
  - destruct (String.eqb k' k) eqn:Hk; cbn.
    + now rewrite String.eqb_refl.
    + now rewrite Hk.
Qed.

Lemma mapGet_mapSet_other {V : Type} (k k' : string) (v : V)
    (m : list (string * V)) :
  k' <> k -> mapGet k' (mapSet k v m) = mapGet k' m.
Proof.
  intros Hk. induction m as [|[k0 v0] m IH]; cbn.
  - destruct (String.eqb_spec k k'); [congruence|reflexivity].
  - destruct (String.eqb_spec k0 k) as [->|Hn]; cbn.
    + destruct (String.eqb_spec k k'); [congruence|].
      destruct (String.eqb_spec k k'); [congruence|reflexivity].
    + destruct (String.eqb k0 k'); [reflexivity|exact IH].
Qed.

Lemma mapSet_keys {V : Type} (k : string) (v : V) (m : list (string * V)) :
  map fst (mapSet k v m)
  = if mapHas k m then map fst m else map fst m ++ [k].
Proof.
  unfold mapHas. induction m as [|[k' v'] m IH]; [reflexivity|]. cbn.
  destruct (String.eqb_spec k' k) as [->|Hn]; cbn; [reflexivity|].
  rewrite IH.
  destruct (existsb (fun entry => String.eqb (fst entry) k) m);
    reflexivity.
Qed.

Lemma mapHas_In {V : Type} (k : string) (m : list (string * V)) :
  mapHas k m = true <-> In k (map fst m).
Proof.
  unfold mapHas. rewrite existsb_exists, in_map_iff. split.
  - intros [x [Hx He]]. apply String.eqb_eq in He. eauto.
  - intros [x [He Hx]]. exists x. split; [auto|]. now apply String.eqb_eq.
Qed.

(** X17.  [controller.when(phrase).then(callback)] keeps one callback for
    each phrase: the phrase is then bound to the callback, and to nothing
    else even if it was registered before; an earlier registration of the
    phrase keeps its place in the order in which triggers are tried, a
    new phrase goes to the end; every other phrase keeps its callback.  A
    final result then fires the callback registered last for a phrase it
    matches, and not the one it replaced. *)
Theorem phrase_registration_replaces :
  forall (phrase : string) (first second : TriggerCallback)
         (this : Controller),
    when_then phrase second (when_then phrase first this)
    = when_then phrase second this
    /\ mapGet phrase (triggers (when_then phrase second this)) = Some second
    /\ (forall other, other <> phrase ->
          mapGet other (triggers (when_then phrase second this))
          = mapGet other (triggers this))
    /\ map fst (triggers (when_then phrase second this))
       = (if mapHas phrase (triggers this) then map fst (triggers this)
          else map fst (triggers this) ++ [phrase])
    /\ (NoDup (map fst (triggers this)) ->
        NoDup (map fst (triggers (when_then phrase second this))))
    /\ session (when_then phrase second this) = session this
    /\ forall txt s,
         triggers this = [] ->
         firedTriggers
           (newEvents s
              (snd (checkTriggers
                      (when_then phrase second (when_then phrase first this))
                      txt s)))
         = if Text.matchPhrase txt phrase
           then [(triggerId second, controllerId this)] else [].
Proof.
  intros phrase first second this. unfold when_then.
  cbn [triggers session ctl_method ctl_options].
  rewrite mapSet_mapSet, mapGet_mapSet, mapSet_keys.
  repeat split.
  - intros other Ho. now apply mapGet_mapSet_other.
  - intros Hn. destruct (mapHas phrase (triggers this)) eqn:Hh; [exact Hn|].
    apply NoDup_app; [exact Hn|repeat constructor; auto|].
    intros x Hx [<-|[]]. apply mapHas_In in Hx. congruence.
  - intros txt s He. rewrite checkTriggers_run. cbn [snd triggers].
    rewrite newEvents_appended, firedTriggers_fired, He.
    cbn [mapSet matchingTriggers filter fst].
    unfold controllerId. cbn [session].
    destruct (Text.matchPhrase txt phrase); cbn;
      [destruct (triggerThrows second)|]; reflexivity.
Qed.

(* ================================================================== *)
(** * Further properties: the conversation loop *)
(* ================================================================== *)






Lemma loopCleanup_clears (s : State) :
  fst (loopCleanup s) = Returned tt
  /\ activeConversationLoop (snd (loopCleanup s)) = None
  /\ cachedConversationSnapshot (snd (loopCleanup s)) = None
  /\ isSynthesisAvailable (snd (loopCleanup s)) = isSynthesisAvailable s
  /\ isRecognitionAvailable (snd (loopCleanup s)) = isRecognitionAvailable s.
Proof. rewrite loopCleanup_run. repeat split. Qed.






(** ** One recognition of the loop *)

Lemma when_addInterim_frame (p : bool) (r : Role) (t : string) (s : State) :
  fst (when_ p (addInterimTranscript r t) s) = Returned tt
  /\ (exists l,
        events (snd (when_ p (addInterimTranscript r t) s)) = events s ++ l
        /\ onErrorCalls l = [] /\ engineEvents l = [])
  /\ activeRecognitionSession (snd (when_ p (addInterimTranscript r t) s))
     = activeRecognitionSession s
  /\ lastError (snd (when_ p (addInterimTranscript r t) s)) = lastError s.
Proof.
  destruct p; cbn [when_].
  - rewrite addInterimTranscript_run. cbn [fst snd]. simpl_state.
    repeat split. eexists. split; [reflexivity|].
    now rewrite onErrorCalls_guardedTrace, engineEvents_guardedTrace.
  - cbn [ret fst snd]. repeat split. exists []. now rewrite app_nil_r.
Qed.

Lemma hearUntilSettled_frame (withPartial : bool)
    (signals : list SttSignal) : forall s,
  (exists l,
     events (snd (hearUntilSettled withPartial signals s)) = events s ++ l
     /\ onErrorCalls l = [] /\ engineEvents l = [])
  /\ activeRecognitionSession (snd (hearUntilSettled withPartial signals s))
     = activeRecognitionSession s
  /\ lastError (snd (hearUntilSettled withPartial signals s)) = lastError s
  /\ (forallb unsettling signals = true ->
      fst (hearUntilSettled withPartial signals s) = Returned None).
Proof.
  induction signals as [|signal rest IH]; intros s.
  - cbn. repeat split. exists []. now rewrite app_nil_r.
  - destruct signal as [t|t confidence|error]; cbn [hearUntilSettled].
    + destruct (when_addInterim_frame withPartial user t s)
        as [Hr [[l1 [Hev [Ho He]]] [Ha Hl]]].
      revert Hr Hev Ha Hl.
      unfold bind at 1 2 3 4.
      destruct (when_ withPartial (addInterimTranscript user t) s)
        as [o s1].
      cbn [fst snd]. intros -> Hev Ha Hl.
      destruct (IH s1) as [[l2 [Hev2 [Ho2 He2]]] [Ha2 [Hl2 Hp]]].
      split; [|split; [|split]].
      * exists (l1 ++ l2). rewrite Hev2, Hev, <- app_assoc.
        rewrite onErrorCalls_app, engineEvents_app, Ho, He, Ho2, He2.
        repeat split.
      * now rewrite Ha2.
      * now rewrite Hl2.
      * cbn [forallb unsettling andb]. exact Hp.
    + unfold bind, dateNow, gets, ret. rewrite addFinalTranscript_run.
      cbn [fst snd]. simpl_state.
      split; [|split; [|split]]; try reflexivity.
      * eexists. split; [reflexivity|].
        now rewrite onErrorCalls_guardedTrace, engineEvents_guardedTrace.
      * cbn. discriminate.
    + cbn [forallb unsettling]. destruct (notSilentSignal error).
      * cbn [throw fst snd negb andb]. repeat split; try discriminate.
        exists []. now rewrite app_nil_r.
      * apply IH.
Qed.

Lemma recognizeOnce_run (withPartial : bool)
    (signal : option AbortController) (engine : STTEngine) (s : State) :
  stt s = Some engine ->
  recognizeOnce withPartial signal s
  = match stt_start engine with
    | StartRejected error =>
        if negb (code_eqb (code (toVoiceError error STT_FAILED)) ABORTED)
        then throw (ThrownVoiceError (toVoiceError error STT_FAILED))
        else ret None
    | StartSignals signals => hearUntilSettled withPartial signals
    end
      (set_events
         (events s
          ++ [EvSttStart (orDefault signal (nextAbortController s))
                withPartial])
         (set_nextAbortController (S (nextAbortController s)) s)).
Proof.
  intros Hs. unfold recognizeOnce. unfold bind at 1, gets at 1.
  rewrite Hs. reflexivity.
Qed.

(** X21.  [recognizeOnce], the recognition of the conversation loop,
    registers no recognition session, never sets the last error and
    calls no [onError] callback, however it ends; all it asks of the
    engine is the one [start], with the caller's signal when there is
    one.  When the engine reports nothing but partial results, aborts
    and silence, or when its [start] is rejected with an abort, the
    promise stays pending: it is neither resolved nor rejected. *)
Theorem recognizeOnce_leaves_no_session :
  forall (withPartial : bool) (signal : option AbortController)
         (engine : STTEngine) (s : State),
    stt s = Some engine ->
    let s' := snd (recognizeOnce withPartial signal s) in
    activeRecognitionSession s' = activeRecognitionSession s
    /\ lastError s' = lastError s
    /\ onErrorCalls (newEvents s s') = []
    /\ engineEvents (newEvents s s')
       = [EvSttStart (orDefault signal (nextAbortController s)) withPartial]
    /\ (match stt_start engine with
        | StartSignals signals => forallb unsettling signals = true
        | StartRejected error =>
            code (toVoiceError error STT_FAILED) = ABORTED
        end ->
        fst (recognizeOnce withPartial signal s) = Returned None).
Proof.
  intros withPartial signal engine s Hs s'. subst s'.
  rewrite (recognizeOnce_run withPartial signal engine s Hs).
  set (s2 := set_events _ _).
  assert (Hev2 : events s2
                 = events s
                   ++ [EvSttStart (orDefault signal (nextAbortController s))
                         withPartial]) by reflexivity.
  assert (Ha2 : activeRecognitionSession s2 = activeRecognitionSession s)
    by reflexivity.
  assert (Hl2 : lastError s2 = lastError s) by reflexivity.
  clearbody s2.
  destruct (stt_start engine) as [error|signals].
  - destruct (code_eqb (code (toVoiceError error STT_FAILED)) ABORTED)
      eqn:Hab; cbn [negb throw ret fst snd];
      erewrite newEvents_of_events by exact Hev2;
      repeat split; auto.
    intros Hc. rewrite Hc in Hab. discriminate.
  - destruct (hearUntilSettled_frame withPartial signals s2)
      as [[l [Hev [Ho He]]] [Ha [Hl Hp]]].
    erewrite newEvents_of_events
      by (rewrite Hev, Hev2, <- app_assoc; reflexivity).
    rewrite onErrorCalls_app, engineEvents_app, Ho, He, Ha, Hl.
    repeat split; auto.
Qed.

(** An engine that hears nothing. *)
Lemma recognizeOnce_leaves_no_session_witness :
  fst (recognizeOnce true (Some 0) (set_stt (Some mutedStt) boundState))
  = Returned None.
Proof.
  apply (recognizeOnce_leaves_no_session true (Some 0) mutedStt
           (set_stt (Some mutedStt) boundState) eq_refl).
  reflexivity.
Defined.

(** ** Starting and stopping a conversation *)

Lemma calledListeners_unguarded_other (d d' : Domain)
    (ls : list Listener) :
  d <> d' -> calledListeners d (unguardedTrace d' ls) = [].
Proof.
  intros Hd. induction ls as [|l ls IH]; [reflexivity|].
  cbn [unguardedTrace].
  destruct (listenerThrows l); destruct d, d'; try reflexivity;
    try exact IH; now contradiction Hd.
Qed.

Lemma calledListeners_logTrace (d : Domain) (error : Thrown)
    (context : option string) (enabled : bool) :
  calledListeners d (logTrace error context enabled) = [].
Proof.
  unfold logTrace. destruct enabled; [|reflexivity].
  destruct error as [e| |]; try reflexivity.
  destruct (shouldLogError e); reflexivity.
Qed.

Lemma calledListeners_stopFailureTrace (d : Domain) (r : Settled)
    (c : VoiceErrorCode) (context : string) (enabled : bool) :
  calledListeners d (stopFailureTrace r c context enabled) = [].
Proof. destruct r; [reflexivity|apply calledListeners_logTrace]. Qed.

(** [stopRecognition().catch(() => {})]: it returns, touches nothing but
    the recognition session, its snapshot and the events, clears the
    session when an engine is bound, and calls no conversation
    listener. *)
Lemma swallow_stopRecognition_frame (s : State) :
  fst (swallow stopRecognition s) = Returned tt
  /\ set_events (events s)
       (set_activeRecognitionSession (activeRecognitionSession s)
          (set_cachedRecognitionSnapshot (cachedRecognitionSnapshot s)
             (snd (swallow stopRecognition s)))) = s
  /\ activeRecognitionSession (snd (swallow stopRecognition s))
     = match stt s with
       | Some _ => None
       | None => activeRecognitionSession s
       end
  /\ exists l,
       events (snd (swallow stopRecognition s)) = events s ++ l
       /\ calledListeners ConversationDomain l = [].
Proof.
  unfold swallow, tryCatch.
  destruct (stt s) as [engine|] eqn:Ht.
  - destruct (activeRecognitionSession s) as [session|] eqn:Ha.
    + rewrite (stopRecognition_run engine session s Ht Ha).
      destruct (unguardedOutcome (recognitionListeners s)) as [[]|v];
        cbn [fst snd ret]; unfold recognitionCleared; simpl_state;
        (split; [reflexivity|]);
        (split; [rewrite <- Ha; destruct s; reflexivity|]);
        (split; [reflexivity|]);
        eexists; (split; [reflexivity|]);
        rewrite ?calledListeners_app,
          ?calledListeners_unguarded_other by discriminate;
        rewrite ?calledListeners_stopFailureTrace; reflexivity.
    + rewrite stopRecognition_idle by (right; exact Ha).
      cbn [fst snd]. rewrite Ha.
      split; [reflexivity|]. split; [rewrite <- Ha; destruct s; reflexivity|].
      split; [reflexivity|]. exists []. now rewrite app_nil_r.
  - rewrite stopRecognition_idle by (left; exact Ht).
    cbn [fst snd].
    split; [reflexivity|]. split; [destruct s; reflexivity|].
    split; [reflexivity|]. exists []. now rewrite app_nil_r.
Qed.

Lemma swallow_stopSynthesis_frame (s : State) :
  fst (swallow stopSynthesis s) = Returned tt
  /\ set_events (events s)
       (set_activeSynthesisSession (activeSynthesisSession s)
          (set_cachedSynthesisSnapshot (cachedSynthesisSnapshot s)
             (snd (swallow stopSynthesis s)))) = s
  /\ activeSynthesisSession (snd (swallow stopSynthesis s))
     = match tts s with
       | Some _ => None
       | None => activeSynthesisSession s
       end
  /\ exists l,
       events (snd (swallow stopSynthesis s)) = events s ++ l
       /\ calledListeners ConversationDomain l = [].
Proof.
  unfold swallow, tryCatch.
  destruct (tts s) as [engine|] eqn:Ht.
  - destruct (activeSynthesisSession s) as [session|] eqn:Ha.
    + rewrite (stopSynthesis_run engine session s Ht Ha).
      destruct (unguardedOutcome (synthesisListeners s)) as [[]|v];
        cbn [fst snd ret]; unfold synthesisCleared; simpl_state;
        (split; [reflexivity|]);
        (split; [rewrite <- Ha; destruct s; reflexivity|]);
        (split; [reflexivity|]);
        eexists; (split; [reflexivity|]);
        rewrite ?calledListeners_app,
          ?calledListeners_unguarded_other by discriminate;
        rewrite ?calledListeners_stopFailureTrace; reflexivity.
    + rewrite stopSynthesis_idle by (right; exact Ha).
      cbn [fst snd]. rewrite Ha.
      split; [reflexivity|]. split; [rewrite <- Ha; destruct s; reflexivity|].
      split; [reflexivity|]. exists []. now rewrite app_nil_r.
  - rewrite stopSynthesis_idle by (left; exact Ht).
    cbn [fst snd].
    split; [reflexivity|]. split; [destruct s; reflexivity|].
    split; [reflexivity|]. exists []. now rewrite app_nil_r.
Qed.

(** The first step of [stopConversation]. *)
Lemma endLoop_run (s : State) :
  match activeConversationLoop s with
  | Some loop =>
      abort (cl_abortController loop) ;;
      modify (set_activeConversationLoop None) ;;
      notifyConversation
  | None => ret tt
  end s
  = (Returned tt,
     set_events
       (events s
        ++ match activeConversationLoop s with
           | Some loop =>
               EvAbort (cl_abortController loop)
               :: guardedTrace ConversationDomain (conversationListeners s)
           | None => []
           end)
       (set_cachedConversationSnapshot
          (match activeConversationLoop s with
           | Some _ => None
           | None => cachedConversationSnapshot s
           end)
          (set_activeConversationLoop None s))).
Proof.
  destruct (activeConversationLoop s) as [loop|] eqn:Ha.
  - unfold bind, abort, emit, modify. rewrite notifyConversation_run.
    simpl_state. rewrite <- app_assoc. reflexivity.
  - cbn [ret]. rewrite app_nil_r. f_equal. rewrite <- Ha.
    destruct s; reflexivity.
Qed.

(** What [stopConversation] leaves. *)
Lemma stopConversation_frame (s : State) :
  fst (stopConversation s) = Returned tt
  /\ activeConversationLoop (snd (stopConversation s)) = None
  /\ stt (snd (stopConversation s)) = stt s
  /\ tts (snd (stopConversation s)) = tts s
  /\ nextAbortController (snd (stopConversation s)) = nextAbortController s
  /\ conversationListeners (snd (stopConversation s))
     = conversationListeners s
  /\ isSynthesisAvailable (snd (stopConversation s)) = isSynthesisAvailable s
  /\ isRecognitionAvailable (snd (stopConversation s))
     = isRecognitionAvailable s
  /\ activeRecognitionSession (snd (stopConversation s))
     = match stt s with
       | Some _ => None
       | None => activeRecognitionSession s
       end
  /\ activeSynthesisSession (snd (stopConversation s))
     = match tts s with
       | Some _ => None
       | None => activeSynthesisSession s
       end
  /\ exists l,
       events (snd (stopConversation s))
       = events s
         ++ match activeConversationLoop s with
            | Some loop =>
                EvAbort (cl_abortController loop)
                :: guardedTrace ConversationDomain (conversationListeners s)
            | None => []
            end
         ++ l
       /\ calledListeners ConversationDomain l = [].
Proof.
  destruct (stopConversation s) as [o sF] eqn:Hrun. cbn [fst snd].
  revert Hrun.
  unfold stopConversation. unfold bind at 1, gets at 1.
  rewrite (bind_returned _ _ _ _ _ (endLoop_run s)).
  set (s1 := set_events _ _).
  assert (H1 : events s1
               = events s
                 ++ match activeConversationLoop s with
                    | Some loop =>
                        EvAbort (cl_abortController loop)
                        :: guardedTrace ConversationDomain
                             (conversationListeners s)
                    | None => []
                    end) by reflexivity.
  assert (F1 : activeConversationLoop s1 = None /\ stt s1 = stt s
               /\ tts s1 = tts s
               /\ nextAbortController s1 = nextAbortController s
               /\ conversationListeners s1 = conversationListeners s
               /\ isSynthesisAvailable s1 = isSynthesisAvailable s
               /\ isRecognitionAvailable s1 = isRecognitionAvailable s
               /\ activeRecognitionSession s1 = activeRecognitionSession s
               /\ activeSynthesisSession s1 = activeSynthesisSession s)
    by (repeat split).
  clearbody s1.
  destruct F1 as [Fa [Fs [Ft [Fn [Fc [Fsa [Fra [Frs Fss]]]]]]]].
  destruct (swallow_stopRecognition_frame s1) as [R1 [R2 [R3 [l2 [R4 R5]]]]].
  revert R1 R2 R3 R4. unfold bind at 1.
  destruct (swallow stopRecognition s1) as [o2 s2]. cbn [fst snd].
  intros -> R2 R3 R4.
  destruct (swallow_stopSynthesis_frame s2) as [S1 [S2 [S3 [l3 [S4 S5]]]]].
  revert S1 S2 S3 S4.
  destruct (swallow stopSynthesis s2) as [o3 s3]. cbn [fst snd].
  intros -> S2 S3 S4 Hrun.
  apply pair_equal_spec in Hrun. destruct Hrun as [<- <-].
  assert (G2 : forall A (f : State -> A),
    (forall x v, f (set_events v x) = f x) ->
    (forall x v, f (set_activeRecognitionSession v x) = f x) ->
    (forall x v, f (set_cachedRecognitionSnapshot v x) = f x) ->
    f s2 = f s1).
  { intros A f He Ha Hc. rewrite <- R2. now rewrite He, Ha, Hc. }
  assert (G3 : forall A (f : State -> A),
    (forall x v, f (set_events v x) = f x) ->
    (forall x v, f (set_activeSynthesisSession v x) = f x) ->
    (forall x v, f (set_cachedSynthesisSnapshot v x) = f x) ->
    f s3 = f s2).
  { intros A f He Ha Hc. rewrite <- S2. now rewrite He, Ha, Hc. }
  split; [reflexivity|].
  repeat match goal with
    | |- _ /\ _ => split
    end.
  - rewrite (G3 _ activeConversationLoop), (G2 _ activeConversationLoop);
      auto.
  - rewrite (G3 _ stt), (G2 _ stt); auto.
  - rewrite (G3 _ tts), (G2 _ tts); auto.
  - rewrite (G3 _ nextAbortController), (G2 _ nextAbortController); auto.
  - rewrite (G3 _ conversationListeners), (G2 _ conversationListeners);
      auto.
  - rewrite (G3 _ isSynthesisAvailable), (G2 _ isSynthesisAvailable); auto.
  - rewrite (G3 _ isRecognitionAvailable), (G2 _ isRecognitionAvailable);
      auto.
  - rewrite (G3 _ activeRecognitionSession), R3, Fs, Frs; auto.
  - rewrite S3, (G2 _ tts), Ft, (G2 _ activeSynthesisSession), Fss; auto.
  - exists (l2 ++ l3). rewrite S4, R4, H1, <- !app_assoc.
    split; [reflexivity|].
    now rewrite calledListeners_app, R5, S5.
Qed.

(** X22.  [stopConversation] always returns, whatever the engines and the
    listeners do.  Afterwards no conversation is active, and no
    recognition or synthesis session of a bound engine.  When a
    conversation was active its abort signal is raised and the
    conversation listeners are called once each; otherwise none is
    called.  A second call changes nothing. *)
Theorem stopConversation_stops_everything :
  forall s : State,
    let s' := snd (stopConversation s) in
    fst (stopConversation s) = Returned tt
    /\ activeConversationLoop s' = None
    /\ loopRunning s' = false
    /\ (stt s <> None -> activeRecognitionSession s' = None)
    /\ (tts s <> None -> activeSynthesisSession s' = None)
    /\ (forall loop,
          activeConversationLoop s = Some loop ->
          signaled (cl_abortController loop) s' = true)
    /\ calledListeners ConversationDomain (newEvents s s')
       = match activeConversationLoop s with
         | Some _ => listenerIds (conversationListeners s)
         | None => []
         end
    /\ stopConversation s' = (Returned tt, s').
Proof.
  intros s s'. subst s'.
  destruct (stopConversation_frame s)
    as [Hr [Ha [Hs [Ht [_ [_ [_ [_ [Hrs [Hss [l [Hev Hl]]]]]]]]]]]].
  split; [exact Hr|]. split; [exact Ha|].
  split; [unfold loopRunning; now rewrite Ha|].
  split; [intros Hn; rewrite Hrs; destruct (stt s); congruence|].
  split; [intros Hn; rewrite Hss; destruct (tts s); congruence|].
  split; [|split].
  - intros loop Hl0. unfold signaled. rewrite Hev, Hl0.
    rewrite !abortedControllers_app. cbn [abortedControllers].
    rewrite !existsb_app. cbn [existsb]. rewrite Nat.eqb_refl.
    now rewrite orb_true_l, orb_true_r.
  - erewrite newEvents_of_events by exact Hev.
    rewrite calledListeners_app, Hl, app_nil_r.
    destruct (activeConversationLoop s); [|reflexivity].
    cbn [calledListeners]. apply calledListeners_guardedTrace.
  - revert Ha Hs Ht Hrs Hss. generalize (snd (stopConversation s)).
    intros x Ha Hs Ht Hrs Hss.
    unfold stopConversation. unfold bind at 1, gets at 1. rewrite Ha.
    unfold bind at 1, ret at 1. unfold swallow, tryCatch, bind.
    rewrite (stopRecognition_idle x), (stopSynthesis_idle x);
      [reflexivity| |].
    + rewrite Hss, Ht. destruct (tts s); auto.
    + rewrite Hrs, Hs. destruct (stt s); auto.
Qed.

(** X23.  [startConversation] always returns.  The chain it returns has
    the method [continuous] and captions on unless the options say
    otherwise, and a new abort controller.  Afterwards a running
    conversation with that controller is active and the conversation
    snapshot says so; the conversation listeners were called.  A
    conversation that was active before is stopped first: its abort
    signal is raised, and the sessions of bound engines are ended. *)
Theorem startConversation_replaces_conversation :
  forall (options : option ConversationOptions) (s : State),
    let s' := snd (startConversation options s) in
    fst (startConversation options s)
    = Returned
        (mkConversationChain
           (match options with
            | Some (mkConversationOptions (Some m) _) => m
            | _ => continuous
            end)
           (match options with
            | Some (mkConversationOptions _ (Some c)) => c
            | _ => true
            end)
           (nextAbortController s))
    /\ activeConversationLoop s'
       = Some (mkConversationLoop true (nextAbortController s))
    /\ loopRunning s' = true
    /\ nextAbortController s' = S (nextAbortController s)
    /\ fst (getConversationSnapshot s')
       = Returned
           (mkConversationSnapshot true
              (isSynthesisAvailable s && isRecognitionAvailable s))
    /\ (forall old,
          activeConversationLoop s = Some old ->
          signaled (cl_abortController old) s' = true
          /\ (stt s <> None -> activeRecognitionSession s' = None)
          /\ (tts s <> None -> activeSynthesisSession s' = None))
    /\ (activeConversationLoop s = None ->
        activeRecognitionSession s' = activeRecognitionSession s
        /\ activeSynthesisSession s' = activeSynthesisSession s
        /\ calledListeners ConversationDomain (newEvents s s')
           = listenerIds (conversationListeners s)).
Proof.
  intros options s s'. subst s'.
  assert (Hpre : exists s1 l,
    when_ (isSome (activeConversationLoop s)) stopConversation s
    = (Returned tt, s1)
    /\ nextAbortController s1 = nextAbortController s
    /\ conversationListeners s1 = conversationListeners s
    /\ isSynthesisAvailable s1 = isSynthesisAvailable s
    /\ isRecognitionAvailable s1 = isRecognitionAvailable s
    /\ events s1 = events s ++ l
    /\ (forall old, activeConversationLoop s = Some old ->
          existsb (Nat.eqb (cl_abortController old)) (abortedControllers l)
          = true
          /\ activeRecognitionSession s1
             = match stt s with
               | Some _ => None
               | None => activeRecognitionSession s
               end
          /\ activeSynthesisSession s1
             = match tts s with
               | Some _ => None
               | None => activeSynthesisSession s
               end)
    /\ (activeConversationLoop s = None -> s1 = s /\ l = [])).
  { destruct (activeConversationLoop s) as [old|] eqn:Ha; cbn [isSome when_].
    - destruct (stopConversation_frame s)
        as [Hr [_ [_ [_ [Hn [Hc [Hsa [Hra [Hrs [Hss [l [Hev _]]]]]]]]]]]].
      revert Hr Hn Hc Hsa Hra Hrs Hss Hev.
      destruct (stopConversation s) as [o s1]. cbn [fst snd].
      intros -> Hn Hc Hsa Hra Hrs Hss Hev. rewrite Ha in Hev.
      exists s1,
        ((EvAbort (cl_abortController old)
          :: guardedTrace ConversationDomain (conversationListeners s))
         ++ l).
      split; [reflexivity|].
      repeat split; auto; try discriminate.
      injection H as <-. cbn [abortedControllers existsb app].
      now rewrite Nat.eqb_refl.
    - exists s, []. cbn [ret]. rewrite app_nil_r.
      repeat split; auto; discriminate. }
  destruct Hpre as [s1 [l [Hw [Hn [Hc [Hsa [Hra [Hev [Hold Hnone]]]]]]]]].
  destruct (startConversation options s) as [o sF] eqn:Hrun.
  cbn [fst snd]. revert Hrun.
  unfold startConversation. unfold bind at 1, gets at 1.
  rewrite (bind_returned _ _ _ _ _ Hw).
  unfold newAbortController. unfold bind, gets, modify, ret.
  rewrite notifyConversation_run. cbn [fst snd]. simpl_state.
  intros Hrun. apply pair_equal_spec in Hrun. destruct Hrun as [<- <-].
  rewrite getConversationSnapshot_run. simpl_state.
  unfold conversationView. simpl_state. cbn [isSome].
  rewrite ?Hn, ?Hc, ?Hsa, ?Hra.
  split; [destruct options as [[[m|] [c|]]|]; reflexivity|].
  split; [reflexivity|]. split; [reflexivity|]. split; [reflexivity|].
  split; [reflexivity|]. split.
  - intros old Ho. destruct (Hold old Ho) as [Hab [Hrs Hss]].
    split; [|split].
    + unfold signaled. simpl_state. rewrite Hev.
      rewrite !abortedControllers_app, !existsb_app.
      apply orb_true_iff. left. apply orb_true_iff. right. exact Hab.
    + intros Hne. rewrite Hrs. destruct (stt s); congruence.
    + intros Hne. rewrite Hss. destruct (tts s); congruence.
  - intros Ha. destruct (Hnone Ha) as [-> ->].
    repeat split. rewrite newEvents_appended.
    apply calledListeners_guardedTrace.
Qed.

(* ================================================================== *)
(** * Further properties: starting recognition *)
(* ================================================================== *)

Lemma newController_run (method : Method) (options : RecognizeOptions)
    (engine : STTEngine) (x : State) :
  stt x = Some engine ->
  unguardedOutcome (recognitionListeners x) = Returned tt ->
  let n := nextAbortController x in
  let created :=
    mkRecognitionSession
      (match method with
       | once => one_shot
       | continuous => continuous_session
       end) n (Some n) (clock x) in
  newUnifiedRecognitionController method options x
  = (Returned (mkController [] created method options),
     set_events
       (events x
        ++ unguardedTrace RecognitionDomain (recognitionListeners x)
        ++ guardedTrace QonvoDomain (qonvoListeners x)
        ++ [EvSttStart n (captionOn options)])
       (set_cachedQonvoSnapshot None
          (set_lastError None
             (set_cachedRecognitionSnapshot None
                (set_activeRecognitionSession (Some created)
                   (set_nextAbortController (S n) x)))))).
Proof.
  intros Hs Hl n created. subst n created.
  unfold newUnifiedRecognitionController.
  unfold bind at 1, newAbortController at 1. unfold bind at 1, gets at 1.
  unfold bind at 1, modify at 1, ret at 1.
  unfold bind at 1, dateNow at 1, gets at 1.
  unfold bind at 1. rewrite setActiveRecognitionSession_run. simpl_state.
  rewrite Hl.
  unfold bind at 1. rewrite setError_run. simpl_state.
  unfold bind at 1.
  destruct method;
    unfold startOnceMode, startContinuousMode, callSttStart, bind, gets;
    simpl_state; rewrite Hs; unfold emit, modify, ret; simpl_state;
    rewrite <- !app_assoc; reflexivity.
Qed.

(** X24.  A [startRecognition] with an engine bound and listeners that
    return gives a controller without triggers, in the method asked for
    or [continuous], whose session is the active session of the module;
    the last error is cleared.  All it asks of the engine is one [start]
    with the abort signal of the new session and the caption flag: also
    when another session was active, whose record it replaces, no abort
    signal is raised and the engine's [stop] is not called. *)
Theorem startRecognition_registers_session :
  forall (options : RecognizeOptions) (engine : STTEngine) (s : State),
    stt s = Some engine ->
    unguardedOutcome (recognitionListeners s) = Returned tt ->
    let s' := snd (startRecognition options s) in
    let method := orDefault (ro_method options) continuous in
    let created :=
      mkRecognitionSession
        (match method with
         | once => one_shot
         | continuous => continuous_session
         end)
        (nextAbortController s) (Some (nextAbortController s)) (clock s) in
    fst (startRecognition options s)
    = Returned (mkController [] created method options)
    /\ activeRecognitionSession s' = Some created
    /\ lastError s' = None
    /\ engineEvents (newEvents s s')
       = [EvSttStart (nextAbortController s) (captionOn options)]
    /\ fst (getRecognitionSnapshot s')
       = Returned (mkRecognitionSnapshot true (isRecognitionAvailable s)).
Proof.
  intros options engine s Hs Hl s' method created. subst s'.
  destruct (startRecognition options s) as [o sF] eqn:Hrun.
  cbn [fst snd]. revert Hrun.
  unfold startRecognition. unfold bind at 1, gets at 1. rewrite Hs.
  unfold bind at 1, gets at 1.
  assert (Hpre : exists s0 l,
    when_ (isSome (activeRecognitionSession s))
      (setActiveRecognitionSession None ;; swallow stopRecognition) s
    = (Returned tt, s0)
    /\ events s0 = events s ++ l /\ engineEvents l = []
    /\ stt s0 = stt s /\ nextAbortController s0 = nextAbortController s
    /\ clock s0 = clock s
    /\ recognitionListeners s0 = recognitionListeners s
    /\ isRecognitionAvailable s0 = isRecognitionAvailable s).
  { destruct (activeRecognitionSession s) as [old|] eqn:Ha;
      cbn [isSome when_].
    - unfold bind. rewrite setActiveRecognitionSession_run, Hl.
      unfold swallow, tryCatch.
      rewrite stopRecognition_idle by (right; reflexivity).
      eexists _, _. split; [reflexivity|]. simpl_state.
      split; [reflexivity|].
      split; [apply engineEvents_unguardedTrace|]. repeat split.
    - exists s, []. cbn [ret]. rewrite app_nil_r. repeat split. }
  destruct Hpre as [s0 [l [Hw [Hev [He [Hs0 [Hn [Hc [Hls Hav]]]]]]]]].
  rewrite (bind_returned _ _ _ _ _ Hw).
  rewrite (newController_run _ options engine s0)
    by (rewrite ?Hs0, ?Hls; assumption).
  rewrite Hn, Hc. fold method. fold created.
  intros Hrun. apply pair_equal_spec in Hrun. destruct Hrun as [<- <-].
  rewrite getRecognitionSnapshot_run. unfold recognitionView. simpl_state.
  rewrite Hav.
  erewrite newEvents_of_events
    by (simpl_state; rewrite Hev, <- !app_assoc; reflexivity).
  rewrite !engineEvents_app, He, engineEvents_unguardedTrace,
    engineEvents_guardedTrace.
  repeat split.
Qed.

(** A second [startRecognition] while the session of the first is
    active. *)
Lemma startRecognition_registers_session_witness :
  engineEvents
    (newEvents listeningOnce
       (snd (startRecognition noRecognizeOptions listeningOnce)))
  = [EvSttStart 1 false].
Proof.
  apply (startRecognition_registers_session noRecognizeOptions quietStt
           listeningOnce eq_refl eq_refl).
Defined.

Lemma abortedControllers_unguardedTrace (d : Domain) (ls : list Listener) :
  abortedControllers (unguardedTrace d ls) = [].
Proof.
  induction ls as [|l ls IH]; [reflexivity|]. cbn.
  destruct (listenerThrows l); [reflexivity|exact IH].
Qed.

(** X25.  When a listener of the registry throws while a session is
    being stopped, [stopSynthesis] and [stopRecognition] end with that
    exception after the record of the session was cleared and before the
    abort signal is raised or the engine asked to stop.  The engine is
    then left running with no way to stop it through the module: a later
    stop call finds no session and returns without doing anything. *)
Theorem listener_failure_orphans_session :
  forall (s : State) (v : Thrown),
    (forall engine session,
       tts s = Some engine ->
       activeSynthesisSession s = Some session ->
       unguardedOutcome (synthesisListeners s) = Threw v ->
       let s' := snd (stopSynthesis s) in
       fst (stopSynthesis s) = Threw v
       /\ engineEvents (newEvents s s') = []
       /\ signaled (ss_abortController session) s'
          = signaled (ss_abortController session) s
       /\ activeSynthesisSession s' = None
       /\ stopSynthesis s' = (Returned tt, s'))
    /\ (forall engine session,
          stt s = Some engine ->
          activeRecognitionSession s = Some session ->
          unguardedOutcome (recognitionListeners s) = Threw v ->
          let s' := snd (stopRecognition s) in
          fst (stopRecognition s) = Threw v
          /\ engineEvents (newEvents s s') = []
          /\ signaled (rs_abortController session) s'
             = signaled (rs_abortController session) s
          /\ activeRecognitionSession s' = None
          /\ stopRecognition s' = (Returned tt, s')).
Proof.
  intros s v. split.
  - intros engine session Ht Ha Hl s'. subst s'.
    rewrite (stopSynthesis_run engine session s Ht Ha), Hl.
    cbn [fst snd]. rewrite newEvents_appended, engineEvents_unguardedTrace.
    repeat split.
    + unfold signaled. simpl_state.
      rewrite abortedControllers_app, abortedControllers_unguardedTrace.
      now rewrite app_nil_r.
    + apply stopSynthesis_idle. right. reflexivity.
  - intros engine session Ht Ha Hl s'. subst s'.
    rewrite (stopRecognition_run engine session s Ht Ha), Hl.
    cbn [fst snd]. rewrite newEvents_appended, engineEvents_unguardedTrace.
    repeat split.
    + unfold signaled. simpl_state.
      rewrite abortedControllers_app, abortedControllers_unguardedTrace.
      now rewrite app_nil_r.
    + apply stopRecognition_idle. right. reflexivity.
Qed.

(** Two synthesis listeners of which the first throws. *)
Lemma listener_failure_orphans_session_witness :
  fst (stopSynthesis observedState) = Threw (ThrownValue "boom")
  /\ stopSynthesis (snd (stopSynthesis observedState))
     = (Returned tt, snd (stopSynthesis observedState)).
Proof.
  destruct (listener_failure_orphans_session observedState
              (ThrownValue "boom")) as [H _].
  destruct (H quietTts speakingSession eq_refl eq_refl eq_refl)
    as [H1 [_ [_ [_ H5]]]].
  split; assumption.
Defined.

(* ================================================================== *)
(** * Further properties: phrases, server snapshots and languages *)
(* ================================================================== *)

Lemma startsWith_refl (s : string) : Text.startsWith s s = true.
Proof.
  induction s as [|c s IH]; [reflexivity|]. cbn.
  now rewrite Ascii.eqb_refl, IH.
Qed.

Lemma includes_empty (s : string) : Text.includes s EmptyString = true.
Proof. destruct s; reflexivity. Qed.

Lemma includes_refl (s : string) : Text.includes s s = true.
Proof.
  destruct s as [|c s]; [reflexivity|].
  change (Text.includes (String c s) (String c s))
    with (Text.startsWith (String c s) (String c s)
          || Text.includes s (String c s)).
  now rewrite startsWith_refl.
Qed.

Lemma trimStart_blank (s : string) :
  forallb Text.isWhiteSpace (list_ascii_of_string s) = true ->
  Text.trimStart s = EmptyString.
Proof.
  induction s as [|c s IH]; [reflexivity|]. cbn.
  destruct (Text.isWhiteSpace c); [exact IH|discriminate].
Qed.

Lemma length_append (a b : string) :
  String.length (a ++ b) = String.length a + String.length b.
Proof. induction a as [|c a IH]; cbn; [reflexivity|now rewrite IH]. Qed.

(** X26.  [matchPhrase] at its edges: a phrase that is empty or all
    white space matches every text, so a trigger registered for it fires
    on every final result; every text matches itself; a phrase whose
    normal form is longer than that of the text never matches; and
    changing the case of the text or of the phrase changes nothing. *)
Theorem matchPhrase_edges :
  forall text phrase : string,
    (forallb Text.isWhiteSpace (list_ascii_of_string phrase) = true ->
     Text.matchPhrase text phrase = true)
    /\ Text.matchPhrase text text = true
    /\ (String.length (Text.normalize text)
        < String.length (Text.normalize phrase) ->
        Text.matchPhrase text phrase = false)
    /\ Text.matchPhrase (Text.toLowerCase text) phrase
       = Text.matchPhrase text phrase
    /\ Text.matchPhrase text (Text.toLowerCase phrase)
       = Text.matchPhrase text phrase.
Proof.
  intros text phrase. unfold Text.matchPhrase.
  split; [|split; [|split; [|split]]].
  - intros Hb. unfold Text.normalize at 2, Text.trim.
    rewrite (trimStart_blank phrase Hb). cbn. apply includes_empty.
  - apply includes_refl.
  - intros Hlen.
    destruct (Text.includes (Text.normalize text) (Text.normalize phrase))
      eqn:Hi; [|reflexivity].
    apply includes_spec in Hi. destruct Hi as [a [b Hab]].
    rewrite Hab, !length_append in Hlen. lia.
  - now rewrite normalize_toLowerCase.
  - now rewrite normalize_toLowerCase.
Qed.

(** X27.  On a module on which nothing happened yet, whatever engines
    are bound and whatever listeners are subscribed, the five snapshot
    functions give the snapshots that [useQonvo] uses on the server. *)
Theorem server_snapshots_agree :
  forall s : State,
    pristine s ->
    fst (getSynthesisSnapshot s) = Returned SYNTHESIS_SERVER_SNAPSHOT
    /\ fst (getRecognitionSnapshot s) = Returned RECOGNITION_SERVER_SNAPSHOT
    /\ fst (getTranscriptSnapshot s) = Returned TRANSCRIPT_SERVER_SNAPSHOT
    /\ fst (getQonvoSnapshot s) = Returned QONVO_SERVER_SNAPSHOT
    /\ fst (getConversationSnapshot s)
       = Returned CONVERSATION_SERVER_SNAPSHOT.
Proof.
  intros s [Ht [Hr [Hra [Hsa [Hars [Hass [Hl [Hc
    [Hcs [Hcr [Hct [Hcq Hcc]]]]]]]]]]]].
  rewrite getSynthesisSnapshot_run, getRecognitionSnapshot_run,
    getTranscriptSnapshot_run, getQonvoSnapshot_run,
    getConversationSnapshot_run.
  rewrite Hcs, Hcr, Hct, Hcq, Hcc. cbn [fst].
  unfold synthesisView, recognitionView, transcriptView, qonvoView,
    conversationView.
  rewrite Ht, Hr, Hra, Hsa, Hars, Hass, Hl, Hc.
  repeat split.
Qed.

(** The module as it is loaded, and with engines bound. *)
Lemma server_snapshots_agree_witness :
  fst (getSynthesisSnapshot boundState) = Returned SYNTHESIS_SERVER_SNAPSHOT
  /\ fst (getConversationSnapshot initialState)
     = Returned CONVERSATION_SERVER_SNAPSHOT.
Proof.
  split.
  - apply (server_snapshots_agree boundState). repeat split.
  - apply (server_snapshots_agree initialState). repeat split.
Defined.

(** ** [listLanguages] *)

Lemma mapSet_NoDup {V : Type} (k : string) (v : V) (m : list (string * V)) :
  NoDup (map fst m) -> NoDup (map fst (mapSet k v m)).
Proof.
  intros Hn. rewrite mapSet_keys.
  destruct (mapHas k m) eqn:Hh; [exact Hn|].
  apply NoDup_app; [exact Hn|repeat constructor; auto|].
  intros x Hx [<-|[]]. apply mapHas_In in Hx. congruence.
Qed.

Lemma mapSet_In {V : Type} (k : string) (v : V) (m : list (string * V))
    (c : string) (w : V) :
  NoDup (map fst m) ->
  (In (c, w) (mapSet k v m)
   <-> (c = k /\ w = v) \/ (c <> k /\ In (c, w) m)).
Proof.
  induction m as [|[k' v'] m IH]; intros Hn; cbn [mapSet].
  - cbn. split.
    + intros [H|[]]. injection H as <- <-. now left.
    + intros [[-> ->]|[_ []]]. now left.
  - inversion Hn as [|x xs Hnotin Hn']. subst.
    destruct (String.eqb_spec k' k) as [->|Hne].
    + cbn [In]. split.
      * intros [H|H].
        -- injection H as <- <-. now left.
        -- right. split; [|now right].
           intros ->. apply Hnotin. cbn [fst].
           change k with (fst (k, w)). now apply in_map.
      * intros [[-> ->]|[Hc [H|H]]]; [now left| |now right].
        injection H as -> _. congruence.
    + cbn [In]. rewrite (IH Hn'). split.
      * intros [H|[[-> ->]|[Hc H]]].
        -- injection H as <- <-. right. split; [auto|now left].
        -- now left.
        -- right. split; [exact Hc|now right].
      * intros [[-> ->]|[Hc [H|H]]].
        -- right. now left.
        -- now left.
        -- right. right. now split.
Qed.

Lemma mapGet_In {V : Type} (k : string) (v : V) (m : list (string * V)) :
  NoDup (map fst m) -> (mapGet k m = Some v <-> In (k, v) m).
Proof.
  induction m as [|[k' v'] m IH]; intros Hn; cbn [mapGet In].
  - split; [discriminate|tauto].
  - inversion Hn as [|x xs Hnotin Hn']. subst.
    destruct (String.eqb_spec k' k) as [->|Hne].
    + split.
      * intros H. injection H as ->. now left.
      * intros [H|H]; [now injection H as ->|].
        exfalso. apply Hnotin. cbn [fst].
        change k with (fst (k, v)). now apply in_map.
    + rewrite (IH Hn'). split; [now right|].
      intros [H|H]; [injection H as -> _; congruence|exact H].
Qed.

Lemma setAddString_spec (x : string) (xs : list string) :
  NoDup xs ->
  NoDup (setAddString x xs)
  /\ forall y, In y (setAddString x xs) <-> y = x \/ In y xs.
Proof.
  intros Hn. unfold setAddString.
  destruct (existsb (String.eqb x) xs) eqn:He.
  - split; [exact Hn|]. intros y. split; [now right|].
    intros [->|H]; [|exact H].
    apply existsb_exists in He. destruct He as [z [Hz Hxz]].
    apply String.eqb_eq in Hxz. now subst.
  - split.
    + apply NoDup_app; [exact Hn|repeat constructor; auto|].
      intros y Hy [<-|[]].
      assert (Ht : existsb (String.eqb x) xs = true)
        by (apply existsb_exists; exists x; split;
            [exact Hy|apply String.eqb_refl]).
      congruence.
    + intros y. rewrite in_app_iff. cbn. intuition congruence.
Qed.

Lemma filter_lang_absent (code : string) (vs : list Voice) :
  ~ In code (map voice_lang vs) ->
  filter (fun v => String.eqb (voice_lang v) code) vs = [].
Proof.
  induction vs as [|v vs IH]; [reflexivity|]. cbn [map In filter].
  intros H. destruct (String.eqb_spec (voice_lang v) code) as [E|E].
  - exfalso. auto.
  - apply IH. auto.
Qed.

Lemma groupVoice_grouped (m : list (string * list string))
    (pre : list Voice) (v : Voice) :
  grouped m pre -> grouped (groupVoice m v) (pre ++ [v]).
Proof.
  intros [Hn [Hk He]]. unfold groupVoice.
  set (lang := voice_lang v). set (name := voice_name v).
  set (m1 := if mapHas lang m then m else mapSet lang [] m).
  assert (Hn1 : NoDup (map fst m1)).
  { subst m1. destruct (mapHas lang m); [exact Hn|now apply mapSet_NoDup]. }
  assert (Hget : exists names0,
    mapGet lang m1 = Some names0
    /\ NoDup names0
    /\ forall n,
         In n names0
         <-> In n (map voice_name
                     (filter (fun x => String.eqb (voice_lang x) lang)
                        pre))).
  { subst m1. destruct (mapHas lang m) eqn:Hh.
    - apply mapHas_In in Hh. apply in_map_iff in Hh.
      destruct Hh as [[c names0] [Hc Hin]]. cbn [fst] in Hc. subst c.
      exists names0. split; [now apply mapGet_In|]. now apply He.
    - exists []. split; [apply mapGet_mapSet|].
      split; [constructor|]. intros n.
      rewrite filter_lang_absent; [reflexivity|].
      intros Hin. apply Hk in Hin. apply mapHas_In in Hin. congruence. }
  destruct Hget as [names0 [Hg [Hnd Hnames]]]. rewrite Hg.
  assert (Hin1 : forall c ns,
    c <> lang -> (In (c, ns) m1 <-> In (c, ns) m)).
  { intros c ns Hc. subst m1. destruct (mapHas lang m); [reflexivity|].
    rewrite (mapSet_In lang [] m c ns Hn). intuition congruence. }
  assert (Hk1 : forall c, In c (map fst m1) <-> c = lang \/ In c (map fst m)).
  { intros c. subst m1. destruct (mapHas lang m) eqn:Hh.
    - apply mapHas_In in Hh. intuition congruence.
    - rewrite mapSet_keys, Hh, in_app_iff. cbn. intuition congruence. }
  split; [now apply mapSet_NoDup|]. split.
  - intros code. rewrite mapSet_keys.
    assert (Hh1 : mapHas lang m1 = true).
    { apply mapHas_In. apply Hk1. now left. }
    rewrite Hh1, Hk1, map_app, in_app_iff, Hk. cbn. fold lang.
    intuition congruence.
  - intros code names Hin.
    apply (mapSet_In lang _ m1 code names Hn1) in Hin.
    rewrite filter_app, map_app. cbn [filter]. fold lang.
    destruct Hin as [[-> ->]|[Hc Hin]].
    + rewrite String.eqb_refl. cbn [map]. fold name.
      destruct (setAddString_spec name names0 Hnd) as [Hnd' Hin'].
      split; [exact Hnd'|]. intros n.
      rewrite Hin', in_app_iff, Hnames. cbn. intuition congruence.
    + apply Hin1 in Hin; [|exact Hc].
      destruct (String.eqb_spec lang code) as [E|E]; [congruence|].
      cbn [map]. rewrite app_nil_r. now apply He.
Qed.

Lemma groupVoices_grouped (voices : list Voice) :
  grouped (groupVoices voices) voices.
Proof.
  unfold groupVoices.
  assert (H : forall vs m pre,
    grouped m pre -> grouped (fold_left groupVoice vs m) (pre ++ vs)).
  { induction vs as [|v vs IH]; intros m pre Hg; cbn [fold_left].
    - now rewrite app_nil_r.
    - replace (pre ++ v :: vs) with ((pre ++ [v]) ++ vs)
        by (now rewrite <- app_assoc).
      apply IH. now apply groupVoice_grouped. }
  apply (H voices [] []).
  split; [constructor|]. split.
  - intros code. cbn. tauto.
  - intros code names [].
Qed.

Lemma insertSorted_perm {A : Type} (compare : A -> A -> Z) (x : A)
    (l : list A) :
  Permutation (insertSorted compare x l) (x :: l).
Proof.
  induction l as [|y l IH]; cbn [insertSorted]; [reflexivity|].
  destruct (compare x y <? 0)%Z; [reflexivity|].
  rewrite IH. apply perm_swap.
Qed.

Lemma sortWith_perm {A : Type} (compare : A -> A -> Z) (l : list A) :
  Permutation (sortWith compare l) l.
Proof.
  unfold sortWith.
  assert (H : forall l acc,
    Permutation
      (fold_left (fun sorted x => insertSorted compare x sorted) l acc)
      (acc ++ l)).
  { clear l. induction l as [|x l IH]; intros acc; cbn [fold_left].
    - now rewrite app_nil_r.
    - rewrite IH, insertSorted_perm. apply Permutation_middle. }
  apply (H l []).
Qed.

Lemma append_nonempty (a b : string) :
  b <> EmptyString -> (a ++ b)%string <> EmptyString.
Proof. destruct a; cbn; [auto|discriminate]. Qed.

Lemma orElse_nonempty (value : option string) (fallback : string) :
  fallback <> EmptyString -> orElse value fallback <> EmptyString.
Proof. destruct value as [[|c r]|]; cbn; auto; discriminate. Qed.

Lemma getLanguageName_nonempty (intl : option DisplayNames)
    (code : string) :
  code <> EmptyString -> getLanguageName intl code <> EmptyString.
Proof.
  intros Hc. unfold getLanguageName. destruct intl as [dn|]; [|exact Hc].
  cbv zeta.
  destruct (nth_error (splitDash code) 1) as [[|c r]|].
  - destruct (languageOf dn _) as [l|]; [|exact Hc].
    now apply orElse_nonempty.
  - destruct (languageOf dn _) as [l|]; [|exact Hc].
    destruct (regionOf dn _) as [g|]; [|exact Hc].
    apply append_nonempty. discriminate.
  - destruct (languageOf dn _) as [l|]; [|exact Hc].
    now apply orElse_nonempty.
Qed.

(** X28.  [listLanguages] gives each language of the voices exactly once
    and no other.  The name of an entry is [getLanguageName] of its code,
    and is not empty unless the code is; its [voiceCount] is the number
    of distinct voice names of that language, so voices of one language
    that share a name count once, and is at least one. *)
Theorem listLanguages_groups_voices :
  forall (intl : option DisplayNames)
         (localeCompare : string -> string -> Z) (voices : list Voice),
    let languages := listLanguages intl localeCompare voices in
    NoDup (map lang_code languages)
    /\ (forall code,
          In code (map lang_code languages)
          <-> In code (map voice_lang voices))
    /\ (forall l,
          In l languages ->
          lang_name l = getLanguageName intl (lang_code l)
          /\ lang_voiceCount l = distinctNames (lang_code l) voices
          /\ 1 <= lang_voiceCount l
          /\ (lang_code l <> EmptyString -> lang_name l <> EmptyString)).
Proof.
  intros intl localeCompare voices languages. subst languages.
  unfold listLanguages.
  set (entry := fun e : string * list string =>
                  mkLanguage (fst e) (getLanguageName intl (fst e))
                    (List.length (snd e))).
  set (compare := fun a b => localeCompare (lang_name a) (lang_name b)).
  pose proof (sortWith_perm compare (map entry (groupVoices voices))) as Hp.
  destruct (groupVoices_grouped voices) as [Hn [Hk He]].
  assert (Hcodes : map lang_code (map entry (groupVoices voices))
                   = map fst (groupVoices voices)).
  { rewrite map_map. apply map_ext. reflexivity. }
  split; [|split].
  - apply (Permutation_NoDup
             (l := map lang_code (map entry (groupVoices voices)))).
    + symmetry. now apply Permutation_map.
    + now rewrite Hcodes.
  - intros code. rewrite <- Hk, <- Hcodes. split.
    + apply Permutation_in. now apply Permutation_map.
    + apply Permutation_in. symmetry. now apply Permutation_map.
  - intros l Hl. apply (Permutation_in _ Hp) in Hl.
    apply in_map_iff in Hl. destruct Hl as [[code names] [<- Hin]].
    subst entry. cbn [lang_name lang_code lang_voiceCount fst snd].
    destruct (He code names Hin) as [Hnd Hnames].
    assert (Hlen : List.length names = distinctNames code voices).
    { unfold distinctNames. apply Permutation_length.
      apply NoDup_Permutation; [exact Hnd|apply NoDup_nodup|].
      intros n. now rewrite nodup_In, Hnames. }
    split; [reflexivity|]. split; [exact Hlen|]. split.
    + assert (Hc : In code (map voice_lang voices)).
      { apply Hk. change code with (fst (code, names)). now apply in_map. }
      apply in_map_iff in Hc. destruct Hc as [v [Hv Hvin]].
      assert (Hnv : In (voice_name v) names).
      { apply Hnames. apply in_map. apply filter_In. split; [exact Hvin|].
        rewrite Hv. apply String.eqb_refl. }
      destruct names; [destruct Hnv|cbn; lia].
    + apply getLanguageName_nonempty.
Qed.

(** ** One pass of the loop from recognition to pause *)





